(** * tgfx: Gaussian blur filter, GL program state, Pixmap and program cache

    A shallow embedding of the parts of tgfx that the specification's
    testable properties talk about:

    - [GaussianBlurImageFilter.cpp]: [ImageFilter::Blur], [Blur1D],
      [ScaleTexture], [lockTextureProxy], [onFilterBounds];
    - [GLProgram.cpp]: [GetRTAdjustArray], [setRenderTargetState],
      [setupSamplerUniforms], [updateUniformsAndTextureBindings];
    - [Pixmap.cpp]: the constructors and the [reset] overloads,
      [CopyRectMemory], [ConvertPixels], [readPixels], [writePixels],
      [clear];
    - [Matrix.h]: the inline members that keep the type mask;
    - [RuntimeDrawTask.cpp]: [execute], [GetFlatTexture];
    - [ProgramCache.h]: [getProgram] (declaration only; the body is modelled
      from the specification).

    C++ [float] is IEEE binary32; it is modelled exactly with the
    parametric floating-point specification of the standard library
    ([SpecFloat]) at precision 24 and maximal exponent 128. *)

From Stdlib Require Import ZArith List Bool Lia.
From Stdlib Require Import Floats.SpecFloat.
From Stdlib Require Import Strings.String.
From stdpp Require Import gmap.
Import ListNotations.

Local Open Scope Z_scope.

(* ===================================================================== *)
(** * Binary32 arithmetic *)
(* ===================================================================== *)

Module F32.

Definition float : Type := spec_float.

Definition prec : Z := 24.
Definition emax : Z := 128.

Definition add : float -> float -> float := SFadd prec emax.
Definition sub : float -> float -> float := SFsub prec emax.
Definition mul : float -> float -> float := SFmul prec emax.
Definition div : float -> float -> float := SFdiv prec emax.
Definition neg : float -> float := SFopp.

(** The comparison operators of C++ on [float]: every comparison with a
    NaN is false. *)
Definition ltb : float -> float -> bool := SFltb.
Definition leb : float -> float -> bool := SFleb.
Definition eqb : float -> float -> bool := SFeqb.
Definition gtb (x y : float) : bool := SFltb y x.

(** [static_cast<float>(z)] for an [int] [z], and integer literals used
    where a [float] is expected. *)
Definition of_int (z : Z) : float := binary_normalize prec emax z 0 false.

(** [std::max(a, b)] is [(a < b) ? b : a]. *)
Definition max (a b : float) : float := if ltb a b then b else a.

(** The signed integer mantissa of a finite float. *)
Definition signed (s : bool) (m : positive) : Z := cond_Zopp s (Zpos m).

(** [floorf] and [ceilf]. A finite float with a non-negative exponent is
    an integer already; otherwise the value is [signed s m / 2^(-e)] and
    the rounded integer has at most as many digits as [m], so converting
    it back is exact. The sign of a zero result is the sign of the
    argument. *)
Definition floorf (x : float) : float :=
  match x with
  | S754_finite s m e =>
      if 0 <=? e then x
      else binary_normalize prec emax (signed s m / 2 ^ (- e)) 0 s
  | _ => x
  end.

Definition ceilf (x : float) : float :=
  match x with
  | S754_finite s m e =>
      if 0 <=? e then x
      else binary_normalize prec emax (- ((- signed s m) / 2 ^ (- e))) 0 s
  | _ => x
  end.

(** [static_cast<int>(x)]: truncation toward zero. C++ leaves the
    conversion undefined when the truncated value does not fit an [int]
    (NaN, infinities, magnitudes from 2^31 on); the model keeps the
    mathematical truncation of a finite value and yields 0 for NaN and
    infinities. *)
Definition to_int (x : float) : Z :=
  match x with
  | S754_finite s m e =>
      if 0 <=? e then signed s m * 2 ^ e
      else Z.quot (signed s m) (2 ^ (- e))
  | _ => 0
  end.

(** The float of [n * 2^E]: what a literal or a conversion gives for a
    number on the grid of step [2^E]. [of_int z] is [dyadic z 0]. *)
Definition dyadic (n E : Z) : float := binary_normalize prec emax n E false.

(** The real value of a finite float, counted in units of [2^-149], the
    smallest positive binary32 number: an integer. Infinities and NaN
    have none. *)
Definition units (x : float) : option Z :=
  match x with
  | S754_zero _ => Some 0
  | S754_finite s m e => if -149 <=? e then Some (signed s m * 2 ^ (e + 149)) else None
  | _ => None
  end.

(** [p * 2^j] for a non-negative [j]. *)
Definition shiftLeft (p : positive) (j : Z) : positive :=
  match j with
  | Zpos k => Pos.iter xO p k
  | _ => p
  end.

(** The normal form of the number [p * 2^E], for [p] of at most 24
    digits: the mantissa is shifted to 24 digits. *)
Definition canon (s : bool) (p : positive) (E : Z) : float :=
  S754_finite s (shiftLeft p (24 - Z.pos (digits2_pos p)))
              (E + Z.pos (digits2_pos p) - 24).

#[global] Arguments add : simpl never.
#[global] Arguments sub : simpl never.
#[global] Arguments mul : simpl never.
#[global] Arguments div : simpl never.
#[global] Arguments ltb : simpl never.
#[global] Arguments leb : simpl never.
#[global] Arguments eqb : simpl never.
#[global] Arguments gtb : simpl never.
#[global] Arguments of_int : simpl never.
#[global] Arguments max : simpl never.
#[global] Arguments floorf : simpl never.
#[global] Arguments ceilf : simpl never.
#[global] Arguments to_int : simpl never.

End F32.

Abbreviation float := F32.float.

(* ===================================================================== *)
(** * Rectangles and matrices *)
(* ===================================================================== *)

(** Modelled from the spec: tgfx/core/Rect.h is not among the sources. A
    [Rect] is its four edges; [width] and [height] are the differences of
    opposite edges, an outset moves every edge outwards ("outset bounds by
    blur radius in each direction"), and [roundOut] moves the edges to the
    enclosing integer rectangle. *)
Record Rect : Type := MakeLTRB {
  left : float;
  top : float;
  right : float;
  bottom : float
}.

Module RectOps.

Definition MakeWH (w h : float) : Rect :=
  MakeLTRB (F32.of_int 0) (F32.of_int 0) w h.

Definition width (r : Rect) : float := F32.sub (right r) (left r).
Definition height (r : Rect) : float := F32.sub (bottom r) (top r).

Definition makeOutset (r : Rect) (dx dy : float) : Rect :=
  MakeLTRB (F32.sub (left r) dx) (F32.sub (top r) dy)
           (F32.add (right r) dx) (F32.add (bottom r) dy).

Definition roundOut (r : Rect) : Rect :=
  MakeLTRB (F32.floorf (left r)) (F32.floorf (top r))
           (F32.ceilf (right r)) (F32.ceilf (bottom r)).

(** The rectangle with the given integer edges. *)
Definition ofInts (l t r b : Z) : Rect :=
  MakeLTRB (F32.of_int l) (F32.of_int t) (F32.of_int r) (F32.of_int b).

(** The size the filter requests for a render target covering [r]:
    [static_cast<int>(r.width())] by [static_cast<int>(r.height())]. *)
Definition intSize (r : Rect) : Z * Z :=
  (F32.to_int (width r), F32.to_int (height r)).

End RectOps.

(** The matrices the filter builds are kept as the expressions that build
    them (Matrix.h declares the operations, their bodies are in a file that
    is not among the sources); what a matrix does to a rectangle is a
    parameter of the model below. *)
Inductive Matrix : Type :=
| MakeScale (sx sy : float)
| MakeTrans (tx ty : float)
| preScale (m : Matrix) (sx sy : float)
| preTranslate (m : Matrix) (tx ty : float).

(* ===================================================================== *)
(** * Proxies, processors and the drawing context *)
(* ===================================================================== *)

Inductive TileMode : Type := Clamp | Repeat | Mirror | Decal.
Inductive ImageOrigin : Type := TopLeft | BottomLeft.
Inductive BackingFit : Type := Exact | Approx.
Inductive GaussianBlurDirection : Type := Horizontal | Vertical.
Inductive SrcRectConstraint : Type := Fast | Strict.

Record Image : Type := {
  imageWidth : Z;
  imageHeight : Z;
  imageAlphaOnly : bool
}.

(** A render target proxy carries the shape it was requested with;
    [rtId] is the number of the request that created it. *)
Record RenderTargetProxy : Type := {
  rtId : nat;
  rtWidth : Z;
  rtHeight : Z;
  rtAlphaOnly : bool;
  rtSampleCount : Z;
  rtMipmapped : bool;
  rtOrigin : ImageOrigin;
  rtBackingFit : BackingFit
}.

(** A texture proxy is known by the resource behind it and its size. The
    format of the texture that the device ends up with (alpha-only or
    not, with mipmaps or not) is not part of it: the proxies resolve "with
    fallback format/size negotiation" in code that is not among the
    sources, and what [TextureProxy::isAlphaOnly] answers is a parameter
    of the filter below. *)
Record TextureProxy : Type := {
  tpTarget : nat;
  tpWidth : Z;
  tpHeight : Z
}.

(** [RenderTargetProxy::asTextureProxy]: the same resource seen as a
    texture, of the size of the render target. *)
Definition asTextureProxy (rt : RenderTargetProxy) : TextureProxy :=
  {| tpTarget := rtId rt;
     tpWidth := rtWidth rt;
     tpHeight := rtHeight rt |}.

Record FPArgs : Type := {
  fpRenderFlags : N;
  fpDrawRect : Rect
}.

Record SamplingArgs : Type := {
  tileModeX : TileMode;
  tileModeY : TileMode;
  constraint : SrcRectConstraint
}.

(** The fragment processors the filter creates, one constructor per
    factory call of the source: [FragmentProcessor::Make] on the source
    image, [GaussianBlur1DFragmentProcessor::Make], [TiledTextureEffect::Make]
    and [TextureEffect::Make]. The factories are not among the sources; the
    filter does not test what they return, and the model records the
    processor that was asked for. *)
Inductive FragmentProcessor : Type :=
| ImageProcessor (source : Image) (args : FPArgs) (tmX tmY : TileMode)
                 (c : SrcRectConstraint) (uvMatrix : Matrix)
| GaussianBlur1DFragmentProcessor (source : FragmentProcessor) (sigma : float)
                 (direction : GaussianBlurDirection) (stepLength maxSigma : float)
| TiledTextureEffect (texture : TextureProxy) (args : SamplingArgs) (uvMatrix : Matrix)
| TextureEffect (texture : TextureProxy) (uvMatrix : Matrix).

(** One call of [DrawingManager::fillRTWithFP]. *)
Record FillTask : Type := {
  fillTarget : RenderTargetProxy;
  fillProcessor : FragmentProcessor;
  fillFlags : N
}.

(** The part of a [Context] the filter touches. [backing] says whether the
    device can back a requested render target; [requests] is the log of the
    calls of [RenderTargetProxy::MakeFallback] with their outcome, oldest
    first, and [tasks] the fills handed to the drawing manager, oldest
    first. *)
Record Context : Type := {
  backing : RenderTargetProxy -> bool;
  requests : list (RenderTargetProxy * bool);
  tasks : list FillTask
}.

Record TPArgs : Type := {
  renderFlags : N;
  mipmapped : bool
}.

(** Code that runs against the context. *)
Definition Draw (A : Type) : Type := Context -> A * Context.

Definition ret {A} (a : A) : Draw A := fun c => (a, c).

Definition bind {A B} (m : Draw A) (k : A -> Draw B) : Draw B :=
  fun c => let (a, c') := m c in k a c'.

Declare Scope draw_scope.
Delimit Scope draw_scope with draw.
Notation "'do' x <- m ; k" := (bind m (fun x => k))
  (at level 10, x name, m at level 100, k at level 200) : draw_scope.
Notation "'run' m ; k" := (bind m (fun _ => k))
  (at level 10, m at level 100, k at level 200) : draw_scope.

(** Modelled from the spec: RenderTargetProxy.cpp is not among the sources.
    [MakeFallback] "attempts to allocate a concrete backing resource
    matching the requested shape; on failure returns null". *)
Definition MakeFallback (w h : Z) (alphaOnly : bool) (sampleCount : Z)
    (mips : bool) (origin : ImageOrigin) (fit : BackingFit)
    : Draw (option RenderTargetProxy) :=
  fun c =>
    let rt := {| rtId := length (requests c);
                 rtWidth := w; rtHeight := h; rtAlphaOnly := alphaOnly;
                 rtSampleCount := sampleCount; rtMipmapped := mips;
                 rtOrigin := origin; rtBackingFit := fit |} in
    let ok := backing c rt in
    (if ok then Some rt else None,
     {| backing := backing c;
        requests := requests c ++ [(rt, ok)];
        tasks := tasks c |}).

(** [DrawingManager::fillRTWithFP] records the fill. *)
Definition fillRTWithFP (target : RenderTargetProxy) (processor : FragmentProcessor)
    (flags : N) : Draw unit :=
  fun c =>
    (tt, {| backing := backing c;
            requests := requests c;
            tasks := tasks c ++ [ {| fillTarget := target;
                                     fillProcessor := processor;
                                     fillFlags := flags |} ] |}).

(* ===================================================================== *)
(** * GaussianBlurImageFilter *)
(* ===================================================================== *)

Definition MAX_BLUR_SIGMA : float := F32.of_int 10.

Record GaussianBlurImageFilter : Type := {
  blurrinessX : float;
  blurrinessY : float;
  tileMode : TileMode
}.

(** [ImageFilter::Blur]; [None] is the null pointer. *)
Definition Blur (blurrinessX blurrinessY : float) (tileMode : TileMode)
    : option GaussianBlurImageFilter :=
  if F32.ltb blurrinessX (F32.of_int 0) || F32.ltb blurrinessY (F32.of_int 0)
     || (F32.eqb blurrinessX (F32.of_int 0) && F32.eqb blurrinessY (F32.of_int 0))
  then None
  else Some {| blurrinessX := blurrinessX;
               blurrinessY := blurrinessY;
               tileMode := tileMode |}.

Definition onFilterBounds (f : GaussianBlurImageFilter) (srcRect : Rect) : Rect :=
  RectOps.makeOutset srcRect
    (F32.mul (F32.of_int 2) (blurrinessX f))
    (F32.mul (F32.of_int 2) (blurrinessY f)).

Local Open Scope draw_scope.

Definition Blur1D (source : FragmentProcessor) (renderTarget : option RenderTargetProxy)
    (sigma : float) (direction : GaussianBlurDirection) (stepLength : float)
    (flags : N) : Draw unit :=
  match renderTarget with
  | None => ret tt
  | Some target =>
      let processor :=
        GaussianBlur1DFragmentProcessor source sigma direction stepLength MAX_BLUR_SIGMA in
      fillRTWithFP target processor flags
  end.

Section LockTextureProxy.

(** The collaborators whose code is not among the sources:
    [ImageFilter::filterBounds] (the public entry of [onFilterBounds]),
    [Rect::intersect] (the receiver after the call), [Matrix::mapRect]
    and [TextureProxy::isAlphaOnly]. *)
Variable filterBounds : GaussianBlurImageFilter -> Rect -> Rect.
Variable intersect : Rect -> Rect -> Rect.
Variable mapRect : Matrix -> Rect -> Rect.
Variable isAlphaOnly : TextureProxy -> bool.

Definition ScaleTexture (args : TPArgs) (texture : TextureProxy)
    (targetWidth targetHeight : Z) : Draw (option TextureProxy) :=
  do renderTarget <- MakeFallback targetWidth targetHeight (isAlphaOnly texture) 1
                       (mipmapped args) TopLeft Approx ;
  match renderTarget with
  | None => ret None
  | Some renderTarget =>
      let uvMatrix :=
        MakeScale (F32.div (F32.of_int (tpWidth texture)) (F32.of_int targetWidth))
                  (F32.div (F32.of_int (tpHeight texture)) (F32.of_int targetHeight)) in
      let finalProcessor := TextureEffect texture uvMatrix in
      run fillRTWithFP renderTarget finalProcessor (renderFlags args) ;
      ret (Some (asTextureProxy renderTarget))
  end.

Definition maxSigmaOf (f : GaussianBlurImageFilter) : float :=
  F32.max (blurrinessX f) (blurrinessY f).

Definition blur2DOf (f : GaussianBlurImageFilter) : bool :=
  F32.gtb (blurrinessX f) (F32.of_int 0) && F32.gtb (blurrinessY f) (F32.of_int 0).

Definition downscales (f : GaussianBlurImageFilter) : bool :=
  F32.gtb (maxSigmaOf f) MAX_BLUR_SIGMA.

Definition scaleFactorOf (f : GaussianBlurImageFilter) : float :=
  if downscales f then F32.div MAX_BLUR_SIGMA (maxSigmaOf f) else F32.of_int 1.

Definition boundsWillSampleOf (f : GaussianBlurImageFilter) (source : Image)
    (clipBounds : Rect) : Rect :=
  if blur2DOf f then
    RectOps.roundOut
      (intersect (filterBounds f clipBounds)
         (filterBounds f (RectOps.MakeWH (F32.of_int (imageWidth source))
                                         (F32.of_int (imageHeight source)))))
  else clipBounds.

Definition scaledBoundsOf (f : GaussianBlurImageFilter) (source : Image)
    (clipBounds : Rect) : Rect :=
  let boundsWillSample := boundsWillSampleOf f source clipBounds in
  RectOps.roundOut
    (if downscales f
     then mapRect (MakeScale (scaleFactorOf f) (scaleFactorOf f)) boundsWillSample
     else boundsWillSample).

Definition lockTextureProxy (f : GaussianBlurImageFilter) (source : Image)
    (clipBounds : Rect) (args : TPArgs) : Draw (option TextureProxy) :=
  let maxSigma := maxSigmaOf f in
  let scaleFactor := scaleFactorOf f in
  let blur2D := blur2DOf f in
  let boundsWillSample := boundsWillSampleOf f source clipBounds in
  let scaledBounds := scaledBoundsOf f source clipBounds in
  let isAlphaOnly := imageAlphaOnly source in
  let mips := mipmapped args && negb blur2D && F32.leb maxSigma MAX_BLUR_SIGMA in
  do renderTarget <- MakeFallback (F32.to_int (RectOps.width scaledBounds))
                       (F32.to_int (RectOps.height scaledBounds))
                       isAlphaOnly 1 mips TopLeft Approx ;
  match renderTarget with
  | None => ret None
  | Some renderTarget =>
      let uvMatrix :=
        preScale (MakeTrans (left boundsWillSample) (top boundsWillSample))
          (F32.div (RectOps.width boundsWillSample) (RectOps.width scaledBounds))
          (F32.div (RectOps.height boundsWillSample) (RectOps.height scaledBounds)) in
      let fpArgs :=
        {| fpRenderFlags := renderFlags args;
           fpDrawRect := RectOps.MakeWH (RectOps.width scaledBounds)
                                        (RectOps.height scaledBounds) |} in
      let sourceProcessor :=
        ImageProcessor source fpArgs (tileMode f) (tileMode f) Fast uvMatrix in
      if blur2D then
        run Blur1D sourceProcessor (Some renderTarget)
              (F32.mul (blurrinessX f) scaleFactor) Horizontal (F32.of_int 1)
              (renderFlags args) ;
        let uvMatrix' :=
          preTranslate
            (MakeScale
               (F32.div (RectOps.width scaledBounds) (RectOps.width boundsWillSample))
               (F32.div (RectOps.height scaledBounds) (RectOps.height boundsWillSample)))
            (F32.sub (left clipBounds) (left boundsWillSample))
            (F32.sub (top clipBounds) (top boundsWillSample)) in
        let samplingArgs :=
          {| tileModeX := tileMode f; tileModeY := tileMode f; constraint := Fast |} in
        let sourceProcessor' :=
          TiledTextureEffect (asTextureProxy renderTarget) samplingArgs uvMatrix' in
        do renderTarget' <- MakeFallback (F32.to_int (RectOps.width clipBounds))
                              (F32.to_int (RectOps.height clipBounds))
                              isAlphaOnly 1 (mipmapped args) TopLeft Approx ;
        match renderTarget' with
        | None => ret None
        | Some renderTarget' =>
            run Blur1D sourceProcessor' (Some renderTarget')
                  (F32.mul (blurrinessY f) scaleFactor) Vertical
                  (F32.div (RectOps.height boundsWillSample) (RectOps.height scaledBounds))
                  (renderFlags args) ;
            ret (Some (asTextureProxy renderTarget'))
        end
      else
        run (if F32.gtb (blurrinessX f) (F32.of_int 0) then
           Blur1D sourceProcessor (Some renderTarget)
             (F32.mul (blurrinessX f) scaleFactor) Horizontal (F32.of_int 1)
             (renderFlags args)
         else if F32.gtb (blurrinessY f) (F32.of_int 0) then
           Blur1D sourceProcessor (Some renderTarget)
             (F32.mul (blurrinessY f) scaleFactor) Vertical (F32.of_int 1)
             (renderFlags args)
         else ret tt) ;
        if F32.leb maxSigma MAX_BLUR_SIGMA then
          ret (Some (asTextureProxy renderTarget))
        else
          ScaleTexture args (asTextureProxy renderTarget)
            (F32.to_int (RectOps.width clipBounds))
            (F32.to_int (RectOps.height clipBounds))
  end.

End LockTextureProxy.

(** ** Reference collaborators

    Modelled from the spec: ImageFilter.cpp, Rect.h and Matrix.cpp are not
    among the sources. The theorems below hold for every choice of the
    collaborators; the concrete scenarios of the specification are
    evaluated with these: the filter bounds are those of [onFilterBounds]
    ("outset by 2 x radius in each axis"), intersecting keeps the common
    part of two rectangles and leaves the receiver unchanged when there is
    none, a scale matrix maps a rectangle by scaling its edges, and no
    texture of the device is alpha-only. *)
Module Reference.

Definition filterBounds (f : GaussianBlurImageFilter) (r : Rect) : Rect :=
  onFilterBounds f r.

Definition fmin (a b : float) : float := if F32.ltb b a then b else a.

Definition intersect (a b : Rect) : Rect :=
  let L := F32.max (left a) (left b) in
  let T := F32.max (top a) (top b) in
  let R := fmin (right a) (right b) in
  let B := fmin (bottom a) (bottom b) in
  if F32.ltb L R && F32.ltb T B then MakeLTRB L T R B else a.

Definition sorted (r : Rect) : Rect :=
  MakeLTRB (fmin (left r) (right r)) (fmin (top r) (bottom r))
           (F32.max (left r) (right r)) (F32.max (top r) (bottom r)).

Definition mapRect (m : Matrix) (r : Rect) : Rect :=
  match m with
  | MakeScale sx sy =>
      sorted (MakeLTRB (F32.mul (left r) sx) (F32.mul (top r) sy)
                       (F32.mul (right r) sx) (F32.mul (bottom r) sy))
  | _ => r
  end.

Definition isAlphaOnly (_ : TextureProxy) : bool := false.

Definition lockTextureProxy :=
  lockTextureProxy filterBounds intersect mapRect isAlphaOnly.

(** A context whose device backs every request, and one whose device
    backs none but the first [n]. *)
Definition freshContext (ok : RenderTargetProxy -> bool) : Context :=
  {| backing := ok; requests := []; tasks := [] |}.

Definition always : RenderTargetProxy -> bool := fun _ => true.
Definition firstOnly (n : nat) : RenderTargetProxy -> bool :=
  fun rt => Nat.ltb (rtId rt) n.

Definition image100 : Image :=
  {| imageWidth := 100; imageHeight := 100; imageAlphaOnly := false |}.

Definition blurOf (sigmaX sigmaY : Z) : GaussianBlurImageFilter :=
  {| blurrinessX := F32.of_int sigmaX;
     blurrinessY := F32.of_int sigmaY;
     tileMode := Clamp |}.

Definition plainArgs (mips : bool) : TPArgs :=
  {| renderFlags := 0%N; mipmapped := mips |}.

(** [z / 2] as a float: exact for every small integer [z]. *)
Definition half (z : Z) : float := F32.div (F32.of_int z) (F32.of_int 2).

End Reference.


(** ** What one run of a [Draw] computation adds to the context *)

Definition issued {A} (m : Draw A) (c : Context) : list (RenderTargetProxy * bool) :=
  drop (length (requests c)) (requests (snd (m c))).

Definition performed {A} (m : Draw A) (c : Context) : list FillTask :=
  drop (length (tasks c)) (tasks (snd (m c))).

Definition succeeded (q : RenderTargetProxy * bool) : Prop := snd q = true.

(** The direction of a blur pass, and whether a fill is the texture-scaling
    pass of [ScaleTexture]. *)
Definition blurDirection (t : FillTask) : option GaussianBlurDirection :=
  match fillProcessor t with
  | GaussianBlur1DFragmentProcessor _ _ d _ _ => Some d
  | _ => None
  end.

(** The direction, sigma and step length of a blur pass. *)
Definition blurPass (t : FillTask) : option (GaussianBlurDirection * float * float) :=
  match fillProcessor t with
  | GaussianBlur1DFragmentProcessor _ sigma d step _ => Some (d, sigma, step)
  | _ => None
  end.

(** The texture a pass samples, when it samples one. *)
Definition passInput (t : FillTask) : option TextureProxy :=
  match fillProcessor t with
  | GaussianBlur1DFragmentProcessor (TiledTextureEffect texture _ _) _ _ _ _ => Some texture
  | TextureEffect texture _ => Some texture
  | _ => None
  end.

(** The source image a blur pass reads, with the uv matrix and the draw
    rectangle it reads it through, when the pass reads the source image
    itself. *)
Definition sourceSampling (t : FillTask) : option (Image * Matrix * Rect) :=
  match fillProcessor t with
  | GaussianBlur1DFragmentProcessor (ImageProcessor source args _ _ _ uvMatrix) _ _ _ _ =>
      Some (source, uvMatrix, fpDrawRect args)
  | _ => None
  end.

Definition isScalePass (t : FillTask) : bool :=
  match fillProcessor t with
  | TextureEffect _ _ => true
  | _ => false
  end.

Definition sizeOfTexture (t : TextureProxy) : Z * Z := (tpWidth t, tpHeight t).
Definition sizeOfTarget (rt : RenderTargetProxy) : Z * Z := (rtWidth rt, rtHeight rt).


(** ** The scenarios of the specification *)

Module Scenarios.
Import Reference.

Definition clip100 : Rect := RectOps.ofInts 0 0 100 100.

(** A clip rectangle of size 100 x 100 whose vertical edges lie on half
    pixels, and one whose horizontal edges do. *)
Definition clipShiftedX : Rect :=
  MakeLTRB (half 1) (F32.of_int 0) (half 201) (F32.of_int 100).
Definition clipShiftedY : Rect :=
  MakeLTRB (F32.of_int 0) (half 1) (F32.of_int 100) (half 201).

Definition ctx : Context := freshContext always.

Definition summary (t : FillTask)
    : option GaussianBlurDirection * bool * (Z * Z) :=
  (blurDirection t, isScalePass t, sizeOfTarget (fillTarget t)).

End Scenarios.

(* ===================================================================== *)
(** * GLProgram: the render-target adjustment uniform *)
(* ===================================================================== *)

Module GL.

#[global] Instance ImageOrigin_eq_dec : EqDecision ImageOrigin.
Proof. solve_decision. Defined.

(** What [setRenderTargetState] reads of a [RenderTarget]: [width()],
    [height()] and [origin()]. *)
Record RenderTarget : Type := {
  targetWidth : Z;
  targetHeight : Z;
  targetOrigin : ImageOrigin
}.

Record RenderTargetState : Type := {
  width : Z;
  height : Z;
  origin : ImageOrigin
}.

(** Modelled from the spec: the uniform buffer class is not among the
    sources. The buffer is the sequence of [setData] calls it received,
    oldest first; an upload of the "RTAdjust, 4 floats" uniform is one
    entry. *)
Definition UniformBuffer : Type := list (string * list float).

Definition setData (name : string) (v : list float) (b : UniformBuffer)
    : UniformBuffer :=
  b ++ [(name, v)].

Record GLProgram : Type := {
  programId : N;
  renderTargetState : RenderTargetState;
  uniformBuffer : UniformBuffer
}.

Definition GetRTAdjustArray (width height : Z) (flipY : bool) : list float :=
  let r0 := F32.div (F32.of_int 2) (F32.of_int width) in
  let r2 := F32.div (F32.of_int 2) (F32.of_int height) in
  let r1 := F32.neg (F32.of_int 1) in
  let r3 := F32.neg (F32.of_int 1) in
  if flipY then [r0; r1; F32.neg r2; F32.neg r3] else [r0; r1; r2; r3].

Section SetRenderTargetState.

(** The name of the uniform, a constant declared outside the sources. *)
Variable RTAdjustName : string.

Definition setRenderTargetState (p : GLProgram) (renderTarget : RenderTarget)
    : GLProgram :=
  let w := targetWidth renderTarget in
  let h := targetHeight renderTarget in
  let o := targetOrigin renderTarget in
  if (width (renderTargetState p) =? w)
     && (height (renderTargetState p) =? h)
     && bool_decide (origin (renderTargetState p) = o)
  then p
  else
    let v := GetRTAdjustArray w h (bool_decide (o = BottomLeft)) in
    {| programId := programId p;
       renderTargetState := {| width := w; height := h; origin := o |};
       uniformBuffer := setData RTAdjustName v (uniformBuffer p) |}.

End SetRenderTargetState.

(** The three values of a render target that the program caches. *)
Definition stateOf (rt : RenderTarget) : RenderTargetState :=
  {| width := targetWidth rt; height := targetHeight rt; origin := targetOrigin rt |}.

(** Two render targets of the same width, height and origin. *)
Definition sameShape (a b : RenderTarget) : Prop :=
  targetWidth a = targetWidth b /\
  targetHeight a = targetHeight b /\
  targetOrigin a = targetOrigin b.

(** The cached state is that of the render target. *)
Definition cached (p : GLProgram) (rt : RenderTarget) : Prop :=
  width (renderTargetState p) = targetWidth rt /\
  height (renderTargetState p) = targetHeight rt /\
  origin (renderTargetState p) = targetOrigin rt.

End GL.

(* ===================================================================== *)
(** * Pixmap: constructors and reset *)
(* ===================================================================== *)

Module PixmapModel.

(** An untyped pointer; [nullptr] is address 0. *)
Definition pointer : Type := N.
Definition nullptr : pointer := 0%N.

Section WithImageInfo.

(** ImageInfo.h is not among the sources: the type, its [isEmpty] and
    the value-initialised info [{}] are parameters. *)
Variable ImageInfo : Type.
Variable isEmpty : ImageInfo -> bool.
Variable emptyInfo : ImageInfo.

(** What [Pixmap] uses of a [PixelRef]: its [info()], and what
    [lockPixels()] and [lockWritablePixels()] return ([nullptr] when
    the pixels cannot be locked). The lock count the pixel ref keeps is
    outside the model. *)
Record PixelRef : Type := {
  info : ImageInfo;
  lockPixels : pointer;
  lockWritablePixels : pointer
}.

(** A [Bitmap] holds a shared pointer to a pixel ref, possibly null. *)
Record Bitmap : Type := { bitmapPixelRef : option PixelRef }.

Record Pixmap : Type := {
  _info : ImageInfo;
  _pixels : pointer;
  _writablePixels : pointer;
  pixelRef : option PixelRef
}.

(** The members as their default initialisers leave them (Pixmap.h is not
    among the sources: an empty info and null pointers, which is also what
    [reset()] assigns). *)
Definition defaultPixmap : Pixmap :=
  {| _info := emptyInfo; _pixels := nullptr; _writablePixels := nullptr;
     pixelRef := None |}.

Definition isNull (p : pointer) : bool := N.eqb p nullptr.

(** The constructor from an info and a pointer to constant pixels. *)
Definition Pixmap_const (i : ImageInfo) (pixels : pointer) : Pixmap :=
  if isEmpty i || isNull pixels then
    {| _info := emptyInfo; _pixels := nullptr; _writablePixels := nullptr;
       pixelRef := None |}
  else
    {| _info := i; _pixels := pixels; _writablePixels := nullptr;
       pixelRef := None |}.

(** The constructor from an info and a pointer to writable pixels. *)
Definition Pixmap_writable (i : ImageInfo) (pixels : pointer) : Pixmap :=
  if isEmpty i || isNull pixels then
    {| _info := emptyInfo; _pixels := nullptr; _writablePixels := nullptr;
       pixelRef := None |}
  else
    {| _info := i; _pixels := pixels; _writablePixels := pixels;
       pixelRef := None |}.

(** [reset()] *)
Definition reset (p : Pixmap) : Pixmap :=
  {| _info := emptyInfo; _pixels := nullptr; _writablePixels := nullptr;
     pixelRef := None |}.

(** [reset] with an info and a pointer to constant pixels. *)
Definition reset_const (p : Pixmap) (i : ImageInfo) (pixels : pointer) : Pixmap :=
  let p := reset p in
  if negb (isEmpty i) && negb (isNull pixels) then
    {| _info := i; _pixels := pixels; _writablePixels := _writablePixels p;
       pixelRef := pixelRef p |}
  else p.

(** [reset] with an info and a pointer to writable pixels. *)
Definition reset_writable (p : Pixmap) (i : ImageInfo) (pixels : pointer) : Pixmap :=
  let p := reset p in
  if negb (isEmpty i) && negb (isNull pixels) then
    {| _info := i; _pixels := pixels; _writablePixels := pixels;
       pixelRef := pixelRef p |}
  else p.

(** [reset(const Bitmap&)] *)
Definition reset_constBitmap (p : Pixmap) (bitmap : Bitmap) : Pixmap :=
  let p := reset p in
  let ref := bitmapPixelRef bitmap in
  let pixels := match ref with Some r => lockPixels r | None => nullptr end in
  if isNull pixels then
    {| _info := _info p; _pixels := pixels; _writablePixels := _writablePixels p;
       pixelRef := None |}
  else
    {| _info := match ref with Some r => info r | None => _info p end;
       _pixels := pixels; _writablePixels := _writablePixels p;
       pixelRef := ref |}.

(** [reset(Bitmap&)] *)
Definition reset_bitmap (p : Pixmap) (bitmap : Bitmap) : Pixmap :=
  let p := reset p in
  let ref := bitmapPixelRef bitmap in
  let writable :=
    match ref with Some r => lockWritablePixels r | None => nullptr end in
  if isNull writable then
    {| _info := _info p; _pixels := _pixels p; _writablePixels := writable;
       pixelRef := None |}
  else
    {| _info := match ref with Some r => info r | None => _info p end;
       _pixels := writable; _writablePixels := writable;
       pixelRef := ref |}.

(** [Pixmap(const Bitmap&)] and [Pixmap(Bitmap&)] *)
Definition Pixmap_constBitmap (bitmap : Bitmap) : Pixmap :=
  reset_constBitmap defaultPixmap bitmap.
Definition Pixmap_bitmap (bitmap : Bitmap) : Pixmap :=
  reset_bitmap defaultPixmap bitmap.

(** The constructors and the [reset] overloads, as one family. A
    constructor starts from nothing; a [reset] from the pixmap it is
    called on. *)
Inductive Establish : Type :=
| NewConst (i : ImageInfo) (pixels : pointer)
| NewWritable (i : ImageInfo) (pixels : pointer)
| NewConstBitmap (bitmap : Bitmap)
| NewBitmap (bitmap : Bitmap)
| Reset
| ResetConst (i : ImageInfo) (pixels : pointer)
| ResetWritable (i : ImageInfo) (pixels : pointer)
| ResetConstBitmap (bitmap : Bitmap)
| ResetBitmap (bitmap : Bitmap).

Definition establish (e : Establish) (p : Pixmap) : Pixmap :=
  match e with
  | NewConst i pixels => Pixmap_const i pixels
  | NewWritable i pixels => Pixmap_writable i pixels
  | NewConstBitmap b => Pixmap_constBitmap b
  | NewBitmap b => Pixmap_bitmap b
  | Reset => reset p
  | ResetConst i pixels => reset_const p i pixels
  | ResetWritable i pixels => reset_writable p i pixels
  | ResetConstBitmap b => reset_constBitmap p b
  | ResetBitmap b => reset_bitmap p b
  end.

(** The pixel pointer is null exactly when the info is empty. *)
Definition invariant (p : Pixmap) : Prop :=
  _pixels p = nullptr <-> isEmpty (_info p) = true.

Definition fullyEmpty (p : Pixmap) : Prop :=
  _pixels p = nullptr /\ _writablePixels p = nullptr /\ isEmpty (_info p) = true.

(** The argument is an empty info or a null pointer, or a bitmap whose
    pixels cannot be locked. *)
Definition degenerate (e : Establish) : Prop :=
  match e with
  | NewConst i pixels | NewWritable i pixels
  | ResetConst i pixels | ResetWritable i pixels =>
      isEmpty i = true \/ pixels = nullptr
  | NewConstBitmap b | ResetConstBitmap b =>
      match bitmapPixelRef b with
      | Some r => lockPixels r = nullptr
      | None => True
      end
  | NewBitmap b | ResetBitmap b =>
      match bitmapPixelRef b with
      | Some r => lockWritablePixels r = nullptr
      | None => True
      end
  | Reset => True
  end.

(** The pixels of the bitmap can be locked, and the info of its pixel ref
    is empty. *)
Definition lockedEmpty (e : Establish) : Prop :=
  match e with
  | NewConstBitmap b | ResetConstBitmap b =>
      match bitmapPixelRef b with
      | Some r => lockPixels r <> nullptr /\ isEmpty (info r) = true
      | None => False
      end
  | NewBitmap b | ResetBitmap b =>
      match bitmapPixelRef b with
      | Some r => lockWritablePixels r <> nullptr /\ isEmpty (info r) = true
      | None => False
      end
  | _ => False
  end.

(** The pixel ref of a bitmap describes a non-empty image. *)
Definition wellFormed (e : Establish) : Prop :=
  match e with
  | NewConstBitmap b | NewBitmap b | ResetConstBitmap b | ResetBitmap b =>
      forall r, bitmapPixelRef b = Some r -> isEmpty (info r) = false
  | _ => True
  end.

End WithImageInfo.

Arguments info {ImageInfo} p.
Arguments lockPixels {ImageInfo} p.
Arguments lockWritablePixels {ImageInfo} p.
Arguments bitmapPixelRef {ImageInfo} b.
Arguments _info {ImageInfo} p.
Arguments _pixels {ImageInfo} p.
Arguments _writablePixels {ImageInfo} p.
Arguments pixelRef {ImageInfo} p.
Arguments defaultPixmap {ImageInfo} emptyInfo.
Arguments establish {ImageInfo} isEmpty emptyInfo e p.
Arguments invariant {ImageInfo} isEmpty p.
Arguments fullyEmpty {ImageInfo} isEmpty p.
Arguments degenerate {ImageInfo} isEmpty e.
Arguments wellFormed {ImageInfo} isEmpty e.
Arguments lockedEmpty {ImageInfo} isEmpty e.

(** An instance: an info is its width and height, and is empty when one
    of them is not positive. *)
Record Size : Type := { sizeWidth : Z; sizeHeight : Z }.

Definition Size_isEmpty (i : Size) : bool :=
  (sizeWidth i <=? 0) || (sizeHeight i <=? 0).

Definition Size_empty : Size := {| sizeWidth := 0; sizeHeight := 0 |}.

End PixmapModel.

(* ===================================================================== *)
(** * ProgramCache *)
(* ===================================================================== *)

Module ProgramCacheModel.

Local Close Scope Z_scope.

(** A bytes key is a sequence of 32-bit words. *)
Definition BytesKey : Type := list N.

(** Modelled from the spec: the processor classes and Pipeline.h are not
    among the sources. A processor is a node of a finite tree with "a
    class-level numeric identity", embedded constant values and child
    processors in order; a pipeline "owns one GeometryProcessor instance,
    an ordered sequence of FragmentProcessor instances, a BlendMode" and
    "an output-swizzle". *)
#[local] Set Warnings "-register-all".
Inductive Processor : Type :=
| MakeProcessor (classID : N) (constants : list N) (children : list Processor).

Record Pipeline : Type := {
  geometryProcessor : Processor;
  fragmentProcessors : list Processor;
  blendMode : N;
  outputSwizzle : N
}.

(** Structural equality of the processor trees of two pipelines: same
    class ids, same child order, same embedded constants. *)
Definition sameTrees (p q : Pipeline) : Prop :=
  geometryProcessor p = geometryProcessor q /\
  fragmentProcessors p = fragmentProcessors q.

(** A program is known by its handle; it remembers the key it was cached
    under, which is what eviction erases from the map. *)
Record Program : Type := {
  programId : nat;
  uniqueKey : BytesKey
}.

#[global] Instance Program_eq_dec : EqDecision Program.
Proof. solve_decision. Defined.

(** The two members of the class, and the number of programs the backend
    has created so far: the handle of the next one. *)
Record ProgramCache : Type := {
  programLRU : list Program;
  programMap : gmap BytesKey Program;
  created : nat
}.

Definition emptyCache : ProgramCache :=
  {| programLRU := []; programMap := ∅; created := 0 |}.

(** [empty()] *)
Definition empty (c : ProgramCache) : bool :=
  match programLRU c with [] => true | _ => false end.

(** The list without its last element, and that element. *)
Fixpoint splitLast {A} (l : list A) : option (list A * A) :=
  match l with
  | [] => None
  | x :: l' =>
      match splitLast l' with
      | None => Some ([], x)
      | Some (init, y) => Some (x :: init, y)
      end
  end.

(** [removeOldestProgram]: the least recently used program, the last of
    the list, leaves the list and the map. *)
Definition removeOldestProgram (c : ProgramCache) : ProgramCache :=
  match splitLast (programLRU c) with
  | None => c
  | Some (init, oldest) =>
      {| programLRU := init;
         programMap := delete (uniqueKey oldest) (programMap c);
         created := created c |}
  end.

Section GetProgram.

(** The two operations of a [ProgramCreator] on a pipeline: its
    structural key, and whether the backend compiles its program. The
    bound of the cache is "a configurable parameter". *)
Variable computeProgramKey : Pipeline -> BytesKey.
Variable createProgram : Pipeline -> bool.
Variable capacity : nat.

(** Modelled from the spec: ProgramCache.cpp is not among the sources.
    [getProgram] "computes/derives the creator's structural key, looks
    up existing entry; on hit, moves entry to front of LRU and returns
    it; on miss, invokes the creator's make(context) for a fully
    backend-compiled Program, inserts it, evicts the
    least-recently-used entry if over capacity, returns the new
    Program. Returns null if compilation fails". *)
Definition getProgram (creator : Pipeline) (c : ProgramCache)
    : option Program * ProgramCache :=
  let key := computeProgramKey creator in
  match programMap c !! key with
  | Some program =>
      (Some program,
       {| programLRU := program :: filter (fun q => q <> program) (programLRU c);
          programMap := programMap c;
          created := created c |})
  | None =>
      if createProgram creator then
        let program := {| programId := created c; uniqueKey := key |} in
        let c' := {| programLRU := program :: programLRU c;
                     programMap := <[key := program]> (programMap c);
                     created := S (created c) |} in
        (Some program,
         if capacity <? length (programLRU c') then removeOldestProgram c' else c')
      else (None, c)
  end.

(** A sequence of draws: [getProgram] for each creator in turn. *)
Definition getPrograms (creators : list Pipeline) (c : ProgramCache) : ProgramCache :=
  fold_left (fun c creator => snd (getProgram creator c)) creators c.

End GetProgram.

(** The invariant of the cache: the map and the list hold the same
    programs, each under its own key and once, and every handle was
    issued by the backend and names one program. *)
Record wf (c : ProgramCache) : Prop := {
  wf_map : forall k P, programMap c !! k = Some P ->
             uniqueKey P = k /\ P ∈ programLRU c;
  wf_lru : forall P, P ∈ programLRU c -> programMap c !! uniqueKey P = Some P;
  wf_nodup : NoDup (programLRU c);
  wf_created : forall P, P ∈ programLRU c -> programId P < created c;
  wf_handle : forall P Q, P ∈ programLRU c -> Q ∈ programLRU c ->
                programId P = programId Q -> P = Q
}.

(** The handle of a program is its own: the backend has issued it, and no
    other program of the cache carries it. *)
Definition ownsHandle (P : Program) (c : ProgramCache) : Prop :=
  programId P < created c /\
  forall Q, Q ∈ programLRU c -> programId Q = programId P -> Q = P.

(** A program is in the list with at most [n] programs used more
    recently than it. *)
Definition usedWithin (n : nat) (P : Program) (c : ProgramCache) : Prop :=
  exists front back, programLRU c = front ++ P :: back /\ length front <= n.

Module Keys.

(** ** A key construction and two pipelines

    Modelled from the spec: the key construction of the processors is not
    among the sources. [computeProcessorKey] "writes a deterministic byte
    sequence representing the node's class identity and parameters (...,
    child count), then recurses into children in fixed order". *)
Fixpoint computeProcessorKey (p : Processor) : BytesKey :=
  match p with
  | MakeProcessor classID constants children =>
      classID :: N.of_nat (length constants) :: constants
        ++ N.of_nat (length children) :: flat_map computeProcessorKey children
  end.

Definition computeProgramKey (p : Pipeline) : BytesKey :=
  computeProcessorKey (geometryProcessor p)
    ++ N.of_nat (length (fragmentProcessors p))
    :: flat_map computeProcessorKey (fragmentProcessors p).

(** The key of a processor is read off the front of a sequence of words
    in one way only. *)
Definition prefixFree (p : Processor) : Prop :=
  forall q r r', computeProcessorKey p ++ r = computeProcessorKey q ++ r' ->
                 p = q /\ r = r'.

Definition quad : Processor := MakeProcessor 1 [] [].
Definition texture : Processor := MakeProcessor 2 [] [].
Definition blur (sigma : N) : Processor := MakeProcessor 7 [sigma] [texture].

(** Two instances with equal trees (they differ in the blend mode), and
    one whose blur has another constant. *)
Definition pipelineA : Pipeline :=
  {| geometryProcessor := quad; fragmentProcessors := [blur 3];
     blendMode := 0; outputSwizzle := 0 |}.
Definition pipelineB : Pipeline :=
  {| geometryProcessor := quad; fragmentProcessors := [blur 3];
     blendMode := 1; outputSwizzle := 0 |}.
Definition pipelineC : Pipeline :=
  {| geometryProcessor := quad; fragmentProcessors := [blur 4];
     blendMode := 0; outputSwizzle := 0 |}.

Definition compiles : Pipeline -> bool := fun _ => true.

End Keys.

End ProgramCacheModel.

(* ===================================================================== *)
(** * GLProgram: sampler uniforms and texture bindings *)
(* ===================================================================== *)

Module GLCalls.
Import GL.

(** [static_cast<int>] of a [size_t] index: the value modulo 2^32, read as
    a signed 32-bit integer. *)
Definition static_cast_int (i : nat) : Z :=
  (Z.of_nat i + 2 ^ 31) mod 2 ^ 32 - 2 ^ 31.

(** The latest value that was set for a uniform. *)
Definition lastUpload (name : string) (b : UniformBuffer) : option (list float) :=
  last (omap (fun e => if String.eqb (fst e) name then Some (snd e) else None) b).

Section Calls.

(** What is declared outside the sources: the texture sampler and sampler
    state types, the pipeline with its [getUniforms] and [getSamplers], the
    location that marks an unused uniform and the name of the RTAdjust
    uniform. *)
Variable TextureSampler : Type.
Variable SamplerState : Type.
Variable Pipeline : Type.
Variable UNUSED_UNIFORM : Z.
Variable RTAdjustName : string.

(** What [setupSamplerUniforms] reads of a [GLUniform]. *)
Record GLUniform : Type := { location : Z }.

Record SamplerInfo : Type := {
  sampler : TextureSampler;
  state : SamplerState
}.

Variable getUniforms : Pipeline -> UniformBuffer -> UniformBuffer.
Variable getSamplers : Pipeline -> list SamplerInfo.

(** The calls [GLProgram] makes on the GL functions, on the uniform buffer
    and on the GPU, in the order they are made. *)
Inductive GLCall : Type :=
| useProgram (program : N)
| uniform1i (loc : Z) (v : Z)
| uploadToGPU (buffer : UniformBuffer)
| bindTexture (textureUnit : Z) (s : TextureSampler) (st : SamplerState).

(** The loop of [setupSamplerUniforms], from index [i] on. *)
Fixpoint assignUnits (i : nat) (textureSamplers : list GLUniform) : list GLCall :=
  match textureSamplers with
  | [] => []
  | smp :: rest =>
      (if UNUSED_UNIFORM =? location smp then []
       else [uniform1i (location smp) (static_cast_int i)])
      ++ assignUnits (S i) rest
  end.

Definition setupSamplerUniforms (p : GLProgram) (textureSamplers : list GLUniform)
    : list GLCall :=
  useProgram (programId p) :: assignUnits 0 textureSamplers.

(** The loop of [updateUniformsAndTextureBindings]; [textureUnit] is an
    [int] that is incremented once per sampler. *)
Fixpoint bindTextures (textureUnit : Z) (samplers : list SamplerInfo) : list GLCall :=
  match samplers with
  | [] => []
  | info :: rest =>
      bindTexture textureUnit (sampler info) (state info)
      :: bindTextures (textureUnit + 1) rest
  end.

Definition updateUniformsAndTextureBindings (p : GLProgram)
    (renderTarget : RenderTarget) (pipeline : Pipeline) : GLProgram * list GLCall :=
  let p1 := setRenderTargetState RTAdjustName p renderTarget in
  let p2 := {| programId := programId p1;
               renderTargetState := renderTargetState p1;
               uniformBuffer := getUniforms pipeline (uniformBuffer p1) |} in
  (p2, uploadToGPU (uniformBuffer p2) :: bindTextures 0 (getSamplers pipeline)).

(** The unit, sampler and state of a [bindTexture] call. *)
Definition boundUnit (call : GLCall) : option (Z * TextureSampler * SamplerState) :=
  match call with
  | bindTexture u s st => Some (u, s, st)
  | _ => None
  end.

(** The latest RTAdjust upload is the one of the cached state. *)
Definition uploaded (p : GLProgram) : Prop :=
  lastUpload RTAdjustName (uniformBuffer p)
  = Some (GetRTAdjustArray (width (renderTargetState p)) (height (renderTargetState p))
            (bool_decide (origin (renderTargetState p) = BottomLeft))).

End Calls.

Arguments uniform1i {_ _} _ _.
Arguments useProgram {_ _} _.
Arguments uploadToGPU {_ _} _.

End GLCalls.

(* ===================================================================== *)
(** * Pixmap: copying, converting, reading, writing and clearing pixels *)
(* ===================================================================== *)

Module PixelMemory.
Import PixmapModel.

Local Open Scope N_scope.

(** Byte-addressed memory. Addresses and [size_t] values are natural
    numbers; a [size_t] product wraps at 2^64. *)
Definition Memory : Type := N -> Byte.byte.

Definition size_mul (a b : N) : N := (a * b) mod 2 ^ 64.

(** [static_cast<size_t>] of an [int]. *)
Definition size_of_int (z : Z) : N := Z.to_N (z mod 2 ^ 64).

Definition inRange (start n a : N) : bool := (start <=? a) && (a <? start + n).

(** [memcpy] and [memset] of the C library: the [n] bytes from [dst] on
    receive the bytes that were at [src], or the value [v]. *)
Definition memcpy (dst src n : N) (m : Memory) : Memory :=
  fun a => if inRange dst n a then m (src + (a - dst)) else m a.

Definition memset (dst : N) (v : Byte.byte) (n : N) (m : Memory) : Memory :=
  fun a => if inRange dst n a then v else m a.

Definition AddOffset (pixels offset : N) : N := pixels + offset.

(** The row loop of [CopyRectMemory]. *)
Fixpoint copyRows (rowCount : nat) (src srcRB dst dstRB trimRowBytes : N) (m : Memory)
    : Memory :=
  match rowCount with
  | O => m
  | S k =>
      copyRows k (AddOffset src srcRB) srcRB (AddOffset dst dstRB) dstRB trimRowBytes
        (memcpy dst src trimRowBytes m)
  end.

Definition CopyRectMemory (src srcRB dst dstRB trimRowBytes rowCount : N) (m : Memory)
    : Memory :=
  if (trimRowBytes =? dstRB) && (trimRowBytes =? srcRB) then
    memcpy dst src (size_mul trimRowBytes rowCount) m
  else
    copyRows (N.to_nat rowCount) src srcRB dst dstRB trimRowBytes m.

(** The row loop of [Pixmap::clear]. *)
Fixpoint clearRows (rowCount : nat) (pixels rowBytes trimRowBytes : N) (m : Memory)
    : Memory :=
  match rowCount with
  | O => m
  | S k => clearRows k (pixels + rowBytes) rowBytes trimRowBytes
             (memset pixels Byte.x00 trimRowBytes m)
  end.

(** The address [a] is byte [j] of row [i] of a pixel rectangle that starts
    at [base], with rows of [trimRowBytes] bytes that are [rowBytes] apart. *)
Definition inRows (base rowBytes trimRowBytes : N) (rowCount : nat) (a : N) : Prop :=
  exists (i : nat) (j : N),
    (i < rowCount)%nat /\ j < trimRowBytes /\ a = base + N.of_nat i * rowBytes + j.

(** ** Reading, writing and clearing the pixels of a [Pixmap] *)

(** The colour types that [ColorMapper] lists and the alpha types that
    [AlphaMapper] lists; [OtherColorType] and [OtherAlphaType] stand for
    the enumerators of the two enumerations that the maps do not list. *)
Inductive ColorType : Type :=
| RGBA_8888 | BGRA_8888 | ALPHA_8 | RGB_565 | Gray_8 | RGBA_F16 | RGBA_1010102
| OtherColorType.

Inductive AlphaType : Type :=
| Unpremultiplied | Premultiplied | Opaque | OtherAlphaType.

Inductive skcms_PixelFormat : Type :=
| skcms_PixelFormat_RGBA_8888 | skcms_PixelFormat_BGRA_8888 | skcms_PixelFormat_A_8
| skcms_PixelFormat_BGR_565 | skcms_PixelFormat_G_8 | skcms_PixelFormat_RGBA_hhhh
| skcms_PixelFormat_RGBA_1010102.

Inductive skcms_AlphaFormat : Type :=
| skcms_AlphaFormat_Unpremul | skcms_AlphaFormat_PremulAsEncoded
| skcms_AlphaFormat_Opaque.

#[global] Instance ColorType_eq_dec : EqDecision ColorType.
Proof. solve_decision. Defined.

#[global] Instance AlphaType_eq_dec : EqDecision AlphaType.
Proof. solve_decision. Defined.

(** [ColorMapper.at] and [AlphaMapper.at]; [None] is the exception that
    [at] throws for a key that is not in the map. *)
Definition ColorMapper (c : ColorType) : option skcms_PixelFormat :=
  match c with
  | RGBA_8888 => Some skcms_PixelFormat_RGBA_8888
  | BGRA_8888 => Some skcms_PixelFormat_BGRA_8888
  | ALPHA_8 => Some skcms_PixelFormat_A_8
  | RGB_565 => Some skcms_PixelFormat_BGR_565
  | Gray_8 => Some skcms_PixelFormat_G_8
  | RGBA_F16 => Some skcms_PixelFormat_RGBA_hhhh
  | RGBA_1010102 => Some skcms_PixelFormat_RGBA_1010102
  | OtherColorType => None
  end.

Definition AlphaMapper (a : AlphaType) : option skcms_AlphaFormat :=
  match a with
  | Unpremultiplied => Some skcms_AlphaFormat_Unpremul
  | Premultiplied => Some skcms_AlphaFormat_PremulAsEncoded
  | Opaque => Some skcms_AlphaFormat_Opaque
  | OtherAlphaType => None
  end.

Section PixelAccess.

(** ImageInfo.h and skcms are not among the sources: the accessors of an
    [ImageInfo], its [makeIntersect], [makeWH] and [computeOffset], and the
    effect of one call of [skcms_Transform] on the memory are parameters. *)
Variable ImageInfo : Type.
Variable isEmpty : ImageInfo -> bool.
Variable emptyInfo : ImageInfo.
Variable width : ImageInfo -> Z.
Variable height : ImageInfo -> Z.
Variable rowBytes : ImageInfo -> N.
Variable minRowBytes : ImageInfo -> N.
Variable bytesPerPixel : ImageInfo -> N.
Variable byteSize : ImageInfo -> N.
Variable colorType : ImageInfo -> ColorType.
Variable alphaType : ImageInfo -> AlphaType.
Variable makeIntersect : ImageInfo -> Z -> Z -> Z -> Z -> ImageInfo.
Variable makeWH : ImageInfo -> Z -> Z -> ImageInfo.
Variable computeOffset : ImageInfo -> pointer -> Z -> Z -> pointer.
Variable skcms_Transform :
  pointer -> skcms_PixelFormat -> skcms_AlphaFormat ->
  pointer -> skcms_PixelFormat -> skcms_AlphaFormat -> N -> Memory -> Memory.

(** The row loop of the converting path of [ConvertPixels]. *)
Fixpoint transformRows (rowCount : nat) (srcPixels : pointer) (srcRB : N)
    (srcFormat : skcms_PixelFormat) (srcAlpha : skcms_AlphaFormat)
    (dstPixels : pointer) (dstRB : N)
    (dstFormat : skcms_PixelFormat) (dstAlpha : skcms_AlphaFormat)
    (count : N) (m : Memory) : Memory :=
  match rowCount with
  | O => m
  | S k =>
      transformRows k (AddOffset srcPixels srcRB) srcRB srcFormat srcAlpha
        (AddOffset dstPixels dstRB) dstRB dstFormat dstAlpha count
        (skcms_Transform srcPixels srcFormat srcAlpha dstPixels dstFormat dstAlpha count m)
  end.

(** [ConvertPixels]; [None] when a lookup in the maps throws. *)
Definition ConvertPixels (srcInfo : ImageInfo) (srcPixels : pointer)
    (dstInfo : ImageInfo) (dstPixels : pointer) (m : Memory) : option Memory :=
  if bool_decide (colorType srcInfo = colorType dstInfo)
     && bool_decide (alphaType srcInfo = alphaType dstInfo)
  then
    Some (CopyRectMemory srcPixels (rowBytes srcInfo) dstPixels (rowBytes dstInfo)
            (minRowBytes dstInfo) (size_of_int (height dstInfo)) m)
  else
    match ColorMapper (colorType srcInfo), AlphaMapper (alphaType srcInfo),
          ColorMapper (colorType dstInfo), AlphaMapper (alphaType dstInfo) with
    | Some srcFormat, Some srcAlpha, Some dstFormat, Some dstAlpha =>
        Some (transformRows (Z.to_nat (height dstInfo))
                srcPixels (rowBytes srcInfo) srcFormat srcAlpha
                dstPixels (rowBytes dstInfo) dstFormat dstAlpha
                (size_of_int (width dstInfo)) m)
    | _, _, _, _ => None
    end.

(** [Pixmap::readPixels]: the result and the memory afterwards. *)
Definition readPixels (p : Pixmap ImageInfo) (dstInfo : ImageInfo) (dstPixels : pointer)
    (srcX srcY : Z) (m : Memory) : option (bool * Memory) :=
  if isNull (_pixels p) || isNull dstPixels then Some (false, m)
  else
    let imageInfo :=
      makeIntersect dstInfo (- srcX) (- srcY) (width (_info p)) (height (_info p)) in
    if isEmpty imageInfo then Some (false, m)
    else
      let srcPixels := computeOffset (_info p) (_pixels p) srcX srcY in
      let srcInfo := makeWH (_info p) (width imageInfo) (height imageInfo) in
      let dstPixels := computeOffset imageInfo dstPixels (- srcX) (- srcY) in
      match ConvertPixels srcInfo srcPixels imageInfo dstPixels m with
      | Some m' => Some (true, m')
      | None => None
      end.

(** [Pixmap::writePixels] *)
Definition writePixels (p : Pixmap ImageInfo) (srcInfo : ImageInfo) (srcPixels : pointer)
    (dstX dstY : Z) (m : Memory) : option (bool * Memory) :=
  if isNull (_writablePixels p) || isNull srcPixels then Some (false, m)
  else
    let imageInfo :=
      makeIntersect srcInfo (- dstX) (- dstY) (width (_info p)) (height (_info p)) in
    if isEmpty imageInfo then Some (false, m)
    else
      let srcPixels := computeOffset imageInfo srcPixels (- dstX) (- dstY) in
      let dstPixels := computeOffset (_info p) (_writablePixels p) dstX dstY in
      let dstInfo := makeWH (_info p) (width imageInfo) (height imageInfo) in
      match ConvertPixels imageInfo srcPixels dstInfo dstPixels m with
      | Some m' => Some (true, m')
      | None => None
      end.

(** [Pixmap::clear] *)
Definition clear (p : Pixmap ImageInfo) (m : Memory) : bool * Memory :=
  if isNull (_writablePixels p) then (false, m)
  else if (rowBytes (_info p) =? minRowBytes (_info p)) then
    (true, memset (_writablePixels p) Byte.x00 (byteSize (_info p)) m)
  else
    let rowCount := height (_info p) in
    let trimRowBytes := size_mul (size_of_int (width (_info p))) (bytesPerPixel (_info p)) in
    (true, clearRows (Z.to_nat rowCount) (_writablePixels p) (rowBytes (_info p))
             trimRowBytes m).

(** The constructors and [reset] overloads that take no writable pixels. *)
Definition readOnly (e : Establish ImageInfo) : Prop :=
  match e with
  | NewConst _ _ _ | NewConstBitmap _ _ | Reset _ | ResetConst _ _ _
  | ResetConstBitmap _ _ => True
  | _ => False
  end.

End PixelAccess.

(** ** An image info for the scenarios

    Pixels of four bytes in rows that end with four bytes of padding;
    [makeIntersect] and [computeOffset] as they are for a rectangle that
    lies inside the image at offset (0, 0). *)
Module PixelScenario.

Definition rowBytes (i : Size) : N := Z.to_N (4 * sizeWidth i + 4).
Definition minRowBytes (i : Size) : N := Z.to_N (4 * sizeWidth i).
Definition bytesPerPixel (_ : Size) : N := 4.
Definition byteSize (i : Size) : N := rowBytes i * Z.to_N (sizeHeight i).
Definition colorType (_ : Size) : ColorType := RGBA_8888.
Definition alphaType (_ : Size) : AlphaType := Premultiplied.
Definition makeIntersect (i : Size) (_ _ _ _ : Z) : Size := i.
Definition makeWH (_ : Size) (w h : Z) : Size := {| sizeWidth := w; sizeHeight := h |}.
Definition computeOffset (_ : Size) (p : pointer) (_ _ : Z) : pointer := p.
Definition skcms_Transform (_ : pointer) (_ : skcms_PixelFormat) (_ : skcms_AlphaFormat)
    (_ : pointer) (_ : skcms_PixelFormat) (_ : skcms_AlphaFormat) (_ : N)
    (m : Memory) : Memory := m.

(** A 2 x 2 image, and a memory that holds 1 at every address. *)
Definition info2x2 : Size := {| sizeWidth := 2; sizeHeight := 2 |}.
Definition ones : Memory := fun _ => Byte.x01.

Definition writePixels :=
  writePixels Size Size_isEmpty sizeWidth sizeHeight rowBytes minRowBytes
    colorType alphaType makeIntersect makeWH computeOffset skcms_Transform.
Definition readPixels :=
  readPixels Size Size_isEmpty sizeWidth sizeHeight rowBytes minRowBytes
    colorType alphaType makeIntersect makeWH computeOffset skcms_Transform.
Definition clear :=
  clear Size sizeWidth sizeHeight rowBytes minRowBytes bytesPerPixel byteSize.

End PixelScenario.

End PixelMemory.

(* ===================================================================== *)
(** * Matrix: the six values and the type mask *)
(* ===================================================================== *)

(** The inline members of [Matrix.h] that keep the type mask: the
    constructors, [getType] and the tests on it, [get], [set] and
    [setScaleTranslate]. *)

Module MatrixValues.

(** The bits of the type mask. *)
Definition IdentityMask : Z := 0.
Definition TranslateMask : Z := 0x01.
Definition ScaleMask : Z := 0x02.
Definition AffineMask : Z := 0x04.
Definition RectStayRectMask : Z := 0x10.
Definition UnknownMask : Z := 0x80.

(** The indices of the six values. *)
Definition SCALE_X : Z := 0.
Definition SKEW_X : Z := 1.
Definition TRANS_X : Z := 2.
Definition SKEW_Y : Z := 3.
Definition SCALE_Y : Z := 4.
Definition TRANS_Y : Z := 5.

(** The members of a [Matrix]: the array [values], one field per index,
    and the [int32_t typeMask]. The bit operations on the mask are those
    of [Z], which agree with the two's complement ones. *)
Record Matrix : Type := {
  scaleX : float;
  skewX : float;
  transX : float;
  skewY : float;
  scaleY : float;
  transY : float;
  typeMask : Z
}.

(** The private constructor, [MakeAll] and the default constructor. *)
Definition Matrix_of (scaleX skewX transX skewY scaleY transY : float) (mask : Z)
    : Matrix :=
  {| scaleX := scaleX; skewX := skewX; transX := transX;
     skewY := skewY; scaleY := scaleY; transY := transY; typeMask := mask |}.

Definition MakeAll (scaleX skewX transX skewY scaleY transY : float) : Matrix :=
  Matrix_of scaleX skewX transX skewY scaleY transY UnknownMask.

Definition Matrix_default : Matrix :=
  Matrix_of (F32.of_int 1) (F32.of_int 0) (F32.of_int 0)
            (F32.of_int 0) (F32.of_int 1) (F32.of_int 0)
            (Z.lor IdentityMask RectStayRectMask).

(** [values[index]]; an index outside the array has no value. *)
Definition get (m : Matrix) (index : Z) : option float :=
  match index with
  | 0 => Some (scaleX m)
  | 1 => Some (skewX m)
  | 2 => Some (transX m)
  | 3 => Some (skewY m)
  | 4 => Some (scaleY m)
  | 5 => Some (transY m)
  | _ => None
  end.

Definition setTypeMask (m : Matrix) (mask : Z) : Matrix :=
  Matrix_of (scaleX m) (skewX m) (transX m) (skewY m) (scaleY m) (transY m) mask.

Definition orTypeMask (m : Matrix) (mask : Z) : Matrix :=
  setTypeMask m (Z.lor (typeMask m) mask).

Definition clearTypeMask (m : Matrix) (mask : Z) : Matrix :=
  setTypeMask m (Z.land (typeMask m) (Z.lnot mask)).

(** [set(index, value)]: the value is stored and the type becomes
    unknown. *)
Definition set (m : Matrix) (index : Z) (value : float) : option Matrix :=
  let t := typeMask m in
  match index with
  | 0 => Some (setTypeMask (Matrix_of value (skewX m) (transX m) (skewY m) (scaleY m) (transY m) t) UnknownMask)
  | 1 => Some (setTypeMask (Matrix_of (scaleX m) value (transX m) (skewY m) (scaleY m) (transY m) t) UnknownMask)
  | 2 => Some (setTypeMask (Matrix_of (scaleX m) (skewX m) value (skewY m) (scaleY m) (transY m) t) UnknownMask)
  | 3 => Some (setTypeMask (Matrix_of (scaleX m) (skewX m) (transX m) value (scaleY m) (transY m) t) UnknownMask)
  | 4 => Some (setTypeMask (Matrix_of (scaleX m) (skewX m) (transX m) (skewY m) value (transY m) t) UnknownMask)
  | 5 => Some (setTypeMask (Matrix_of (scaleX m) (skewX m) (transX m) (skewY m) (scaleY m) value t) UnknownMask)
  | _ => None
  end.

(** [a != b] on floats. *)
Definition neb (a b : float) : bool := negb (F32.eqb a b).

Definition setScaleTranslate (m : Matrix) (sx sy tx ty : float) : Matrix :=
  let mask := 0 in
  let mask := if neb sx (F32.of_int 1) || neb sy (F32.of_int 1)
              then Z.lor mask ScaleMask else mask in
  let mask := if neb tx (F32.of_int 0) || neb ty (F32.of_int 0)
              then Z.lor mask TranslateMask else mask in
  let mask := if neb sx (F32.of_int 0) && neb sy (F32.of_int 0)
              then Z.lor mask RectStayRectMask else mask in
  setTypeMask (Matrix_of sx (F32.of_int 0) tx (F32.of_int 0) sy ty (typeMask m)) mask.

Definition isTriviallyIdentity (m : Matrix) : bool :=
  if negb (Z.land (typeMask m) UnknownMask =? 0) then false
  else Z.land (typeMask m) 0xF =? 0.

Definition updateTranslateMask (m : Matrix) : Matrix :=
  if neb (transX m) (F32.of_int 0) || neb (transY m) (F32.of_int 0)
  then orTypeMask m TranslateMask
  else clearTypeMask m TranslateMask.

Section WithComputeTypeMask.

(** [computeTypeMask] is defined outside the sources; it returns a
    [uint8_t]. *)
Variable computeTypeMask : Matrix -> Z.

(** [getType] is a const member that updates the mutable [typeMask]:
    the type and the matrix afterwards. *)
Definition getType (m : Matrix) : Z * Matrix :=
  let m' := if negb (Z.land (typeMask m) UnknownMask =? 0)
            then setTypeMask m (computeTypeMask m) else m in
  (Z.land (typeMask m') 0xF, m').

Definition isIdentity (m : Matrix) : bool * Matrix :=
  let (t, m') := getType m in (t =? 0, m').

Definition isScaleTranslate (m : Matrix) : bool * Matrix :=
  let (t, m') := getType m in
  (Z.land t (Z.lnot (Z.lor ScaleMask TranslateMask)) =? 0, m').

Definition isTranslate (m : Matrix) : bool * Matrix :=
  let (t, m') := getType m in
  (Z.land t (Z.lnot TranslateMask) =? 0, m').

End WithComputeTypeMask.

End MatrixValues.

(* ===================================================================== *)
(** * RuntimeDrawTask *)
(* ===================================================================== *)

(** [RuntimeDrawTask::execute] and [GetFlatTexture], which allocate with
    [RenderTargetProxy::MakeFallback] and ask the program cache for the
    program of the effect. *)

Module RuntimeDraw.

(** What [GetFlatTexture] reads of a [Texture]. Of the sampler types only
    [TwoD] is named in the sources. *)
Inductive SamplerType : Type := TwoD | OtherSamplerType.

Record Texture : Type := {
  textureId : nat;
  textureWidth : Z;
  textureHeight : Z;
  isAlphaOnly : bool;
  hasMipmaps : bool;
  isYUV : bool;
  samplerType : SamplerType;
  textureOrigin : ImageOrigin
}.

Definition isFlat (t : Texture) : bool :=
  negb (isYUV t)
  && match samplerType t with TwoD => true | _ => false end
  && match textureOrigin t with TopLeft => true | _ => false end.

Section Task.

(** Declared outside the sources: the render target behind a proxy and
    its texture, the texture behind a texture proxy, what
    [RenderPass::begin] and [TextureEffect::Make] answer, the backend
    handles, the program cache and the effect's [onDraw]. *)
Variable RenderTarget : Type.
Variable Processor : Type.
Variable Program : Type.
Variable BackendTexture : Type.
Variable BackendRenderTarget : Type.
Variable Point : Type.
Variable getTexture : TextureProxy -> option Texture.
Variable getRenderTarget : RenderTargetProxy -> option RenderTarget.
Variable begin : option RenderTarget -> bool.
Variable TextureEffect_Make : TextureProxy -> option Processor.
Variable asTexture : option RenderTarget -> option Texture.
Variable getBackendTexture : Texture -> BackendTexture.
Variable getBackendRenderTarget : RenderTarget -> BackendRenderTarget.
Variable getProgram : option Program.
Variable onDraw : Program -> list BackendTexture -> BackendRenderTarget -> Point -> bool.

(** What the task does to the render pass, the program cache and the
    effect, in order. *)
Inductive Event : Type :=
| Begin (renderTarget : option RenderTarget)
| BindProgramAndScissorClip (colorProcessor : Processor)
| BindBuffers
| DrawTriangleStrip (first count : Z)
| End_
| GetProgram
| OnDraw (program : Program) (textures : list BackendTexture)
         (target : BackendRenderTarget) (offset : Point).

Record World : Type := {
  context : Context;
  events : list Event
}.

Definition Task (A : Type) : Type := World -> A * World.

Definition emit (e : Event) : Task unit :=
  fun w => (tt, {| context := context w; events := events w ++ [e] |}).

Definition inContext {A} (m : Draw A) : Task A :=
  fun w => let (a, c) := m (context w) in (a, {| context := c; events := events w |}).

Definition GetFlatTexture (textureProxy : TextureProxy) : Task (option Texture) :=
  fun w =>
  match getTexture textureProxy with
  | None => (None, w)
  | Some texture =>
      if isFlat texture then (Some texture, w)
      else
        let (renderTargetProxy, w1) :=
          inContext (MakeFallback (textureWidth texture) (textureHeight texture)
                       (isAlphaOnly texture) 1 (hasMipmaps texture) TopLeft Exact) w in
        match renderTargetProxy with
        | None => (None, w1)
        | Some renderTargetProxy =>
            let renderTarget := getRenderTarget renderTargetProxy in
            if negb (begin renderTarget) then (None, w1)
            else
              let (_, w2) := emit (Begin renderTarget) w1 in
              match TextureEffect_Make textureProxy with
              | None => (None, w2)
              | Some colorProcessor =>
                  let (_, w3) := emit (BindProgramAndScissorClip colorProcessor) w2 in
                  let (_, w4) := emit BindBuffers w3 in
                  let (_, w5) := emit (DrawTriangleStrip 0 4) w4 in
                  let (_, w6) := emit End_ w5 in
                  (asTexture renderTarget, w6)
              end
        end
  end.

(** The first loop of [execute]: [None] when an input is null or cannot
    be flattened. *)
Fixpoint flattenInputs (inputs : list (option TextureProxy)) (inputTextures : list Texture)
    : Task (option (list Texture)) :=
  fun w =>
  match inputs with
  | [] => (Some inputTextures, w)
  | input :: rest =>
      let (texture, w1) :=
        match input with
        | Some proxy => GetFlatTexture proxy w
        | None => (None, w)
        end in
      match texture with
      | None => (None, w1)
      | Some texture => flattenInputs rest (inputTextures ++ [texture]) w1
      end
  end.

(** The inputs were flattened one after the other, in their order: every
    input is there, and [GetFlatTexture] gave the texture at its position
    in the world that flattening the inputs before it had left. *)
Inductive flattenedInOrder
    : list (option TextureProxy) -> World -> list Texture -> World -> Prop :=
| flattened_nil (w : World) : flattenedInOrder [] w [] w
| flattened_cons (proxy : TextureProxy) (rest : list (option TextureProxy))
    (w w1 w2 : World) (t : Texture) (ts : list Texture) :
    GetFlatTexture proxy w = (Some t, w1) ->
    flattenedInOrder rest w1 ts w2 ->
    flattenedInOrder (Some proxy :: rest) w (t :: ts) w2.

Record RuntimeDrawTask : Type := {
  renderTargetProxy : RenderTargetProxy;
  inputs : list (option TextureProxy);
  offset : Point
}.

Definition execute (task : RuntimeDrawTask) : Task bool :=
  fun w =>
  let (inputTextures, w1) := flattenInputs (inputs task) [] w in
  match inputTextures with
  | None => (false, w1)
  | Some inputTextures =>
      match getRenderTarget (renderTargetProxy task) with
      | None => (false, w1)
      | Some renderTarget =>
          let (_, w2) := emit GetProgram w1 in
          match getProgram with
          | None => (false, w2)
          | Some program =>
              let backendTextures := map getBackendTexture inputTextures in
              let target := getBackendRenderTarget renderTarget in
              let (_, w3) := emit (OnDraw program backendTextures target (offset task)) w2 in
              (onDraw program backendTextures target (offset task), w3)
          end
      end
  end.

(** The events one run adds. *)
Definition emitted {A} (m : Task A) (w : World) : list Event :=
  drop (length (events w)) (events (snd (m w))).

Definition isOnDraw (e : Event) : bool :=
  match e with OnDraw _ _ _ _ => true | _ => false end.

Definition isGetProgram (e : Event) : bool :=
  match e with GetProgram => true | _ => false end.

End Task.

Arguments Begin {_ _ _ _ _ _} _.
Arguments BindProgramAndScissorClip {_ _ _ _ _ _} _.
Arguments BindBuffers {_ _ _ _ _ _}.
Arguments DrawTriangleStrip {_ _ _ _ _ _} _ _.
Arguments End_ {_ _ _ _ _ _}.
Arguments GetProgram {_ _ _ _ _ _}.
Arguments OnDraw {_ _ _ _ _ _} _ _ _ _.
Arguments context {_ _ _ _ _ _} _.
Arguments events {_ _ _ _ _ _} _.
Arguments emitted {_ _ _ _ _ _ _} _ _.
Arguments isOnDraw {_ _ _ _ _ _} _.
Arguments isGetProgram {_ _ _ _ _ _} _.
Arguments renderTargetProxy {_} _.
Arguments inputs {_} _.
Arguments offset {_} _.

(** ** A device for the scenarios

    Every texture proxy has a 2D, non-YUV texture, top-left when the
    number of the proxy is even and bottom-left when it is odd; every
    render target can be had, begun and read as a texture; the program
    cache has the program and the effect draws. *)
Module RuntimeScenario.

Definition getTexture (tp : TextureProxy) : option Texture :=
  Some {| textureId := tpTarget tp;
          textureWidth := tpWidth tp; textureHeight := tpHeight tp;
          isAlphaOnly := false; hasMipmaps := false;
          isYUV := false; samplerType := TwoD;
          textureOrigin := if Nat.even (tpTarget tp) then TopLeft else BottomLeft |}.

Definition getRenderTarget (rtp : RenderTargetProxy) : option RenderTargetProxy :=
  Some rtp.

Definition begin (_ : option RenderTargetProxy) : bool := true.

Definition TextureEffect_Make (tp : TextureProxy) : option TextureProxy := Some tp.

Definition asTexture (rt : option RenderTargetProxy) : option Texture :=
  match rt with
  | Some rtp =>
      Some {| textureId := 100 + rtId rtp;
              textureWidth := rtWidth rtp; textureHeight := rtHeight rtp;
              isAlphaOnly := rtAlphaOnly rtp; hasMipmaps := rtMipmapped rtp;
              isYUV := false; samplerType := TwoD; textureOrigin := rtOrigin rtp |}
  | None => None
  end.

Definition getBackendTexture (t : Texture) : nat := textureId t.
Definition getBackendRenderTarget (rtp : RenderTargetProxy) : nat := rtId rtp.
Definition getProgram : option nat := Some 7%nat.
Definition onDraw (_ : nat) (_ : list nat) (_ : nat) (_ : unit) : bool := true.

Definition proxy (n : nat) : TextureProxy :=
  {| tpTarget := n; tpWidth := 64; tpHeight := 32 |}.

Definition target : RenderTargetProxy :=
  {| rtId := 50; rtWidth := 64; rtHeight := 32; rtAlphaOnly := false;
     rtSampleCount := 1; rtMipmapped := false; rtOrigin := TopLeft;
     rtBackingFit := Exact |}.

Definition world : World RenderTargetProxy TextureProxy nat nat nat unit :=
  {| context := Reference.freshContext Reference.always; events := [] |}.

Definition GetFlatTexture :=
  GetFlatTexture RenderTargetProxy TextureProxy nat nat nat unit
    getTexture getRenderTarget begin TextureEffect_Make asTexture.

Definition execute :=
  execute RenderTargetProxy TextureProxy nat nat nat unit
    getTexture getRenderTarget begin TextureEffect_Make asTexture
    getBackendTexture getBackendRenderTarget getProgram onDraw.

End RuntimeScenario.

End RuntimeDraw.

(* ===================================================================== *)
(** * Properties of the blur filter *)
(* ===================================================================== *)

(** ** Comparisons *)

Lemma SFcompare_antisym (x y : float) :
  SFcompare y x = option_map CompOpp (SFcompare x y).
Proof.
  destruct x as [sx|sx| |sx mx ex], y as [sy|sy| |sy my ey]; cbn;
    try destruct sx; try destruct sy; try reflexivity.
  - rewrite (Z.compare_antisym ey ex).
    destruct (ey ?= ex)%Z; cbn; try reflexivity.
    rewrite CompOpp_involutive. f_equal.
    exact (Pos.compare_cont_antisym my mx Eq).
  - rewrite (Z.compare_antisym ey ex).
    destruct (ey ?= ex)%Z; cbn; try reflexivity.
    f_equal. symmetry. exact (Pos.compare_cont_antisym mx my Eq).
Qed.

(** [x > y] excludes [x <= y]. *)
Lemma gtb_leb (x y : float) : F32.gtb x y = true -> F32.leb x y = false.
Proof.
  unfold F32.gtb, F32.leb, SFltb, SFleb.
  rewrite (SFcompare_antisym x y).
  destruct (SFcompare x y) as [[]|]; cbn; congruence.
Qed.

(** ** Integers as floats

    [floorf] and [ceilf] leave the float of an integer unchanged, whatever
    the integer: below 2^24 the conversion is exact and the rounded value
    is the integer itself, and from 2^24 on the float has a non-negative
    exponent. *)

Lemma digits2_iter_xO (p k : positive) :
  Z.pos (digits2_pos (Pos.iter xO p k)) = Z.pos (digits2_pos p) + Z.pos k.
Proof.
  induction k as [|k IH] using Pos.peano_ind.
  - cbn. lia.
  - rewrite Pos.iter_succ. cbn [digits2_pos]. lia.
Qed.

Lemma Zpos_iter_xO (p k : positive) :
  Z.pos (Pos.iter xO p k) = Z.pos p * 2 ^ Z.pos k.
Proof.
  induction k as [|k IH] using Pos.peano_ind.
  - cbn. lia.
  - rewrite Pos.iter_succ, Pos2Z.inj_succ, Z.pow_succ_r by lia.
    rewrite Pos2Z.inj_xO, IH. lia.
Qed.

(** Rounding a mantissa of 24 digits with an exponent in range changes
    nothing. *)
Lemma binary_round_aux_canonical (s : bool) (m : positive) (e : Z) :
  Z.pos (digits2_pos m) = 24 -> -149 <= e <= 104 ->
  binary_round_aux F32.prec F32.emax s (Z.pos m) e loc_Exact = S754_finite s m e.
Proof.
  intros Hd He.
  assert (Hz : fexp F32.prec F32.emax (24 + e) - e = 0)
    by (unfold fexp, emin, F32.prec, F32.emax; lia).
  unfold binary_round_aux, shr_fexp.
  cbn [Zdigits2]. rewrite Hd, Hz.
  cbn [shr shr_record_of_loc shr_m loc_of_shr_record round_nearest_even Zdigits2].
  rewrite Hd, Hz. cbn [shr shr_m].
  replace (e <=? F32.emax - F32.prec) with true; [reflexivity|].
  symmetry. apply Z.leb_le. unfold F32.emax, F32.prec. lia.
Qed.

(** An integer of at most 24 digits is converted exactly. *)
Lemma binary_round_small (s : bool) (p : positive) :
  Z.pos (digits2_pos p) <= 24 ->
  exists m e, binary_round F32.prec F32.emax s p 0 = S754_finite s m e /\
              e <= 0 /\ Z.pos m = Z.pos p * 2 ^ (- e).
Proof.
  intros Hd. unfold binary_round, shl_align.
  set (d := Z.pos (digits2_pos p)) in *.
  assert (Hf : fexp F32.prec F32.emax (d + 0) = d - 24)
    by (unfold fexp, emin, F32.prec, F32.emax; lia).
  rewrite Hf.
  destruct (d - 24 - 0) as [|q|q] eqn:Hq; try lia.
  - exists p, 0. split; [|split; [lia|cbn; lia]].
    apply binary_round_aux_canonical; lia.
  - exists (Pos.iter xO p q), (d - 24). split; [|split; [lia|]].
    + apply binary_round_aux_canonical; [|lia].
      rewrite digits2_iter_xO. fold d. lia.
    + rewrite Zpos_iter_xO. f_equal. f_equal. lia.
Qed.

Lemma shr_exponent mrs e n : e <= snd (shr mrs e n).
Proof. destruct n; cbn; lia. Qed.

(** An integer of more than 24 digits becomes a float with a positive
    exponent (or an infinity). *)
Lemma binary_round_large (s : bool) (p : positive) :
  24 < Z.pos (digits2_pos p) ->
  match binary_round F32.prec F32.emax s p 0 with
  | S754_finite _ _ e => 1 <= e
  | _ => True
  end.
Proof.
  intros Hd. unfold binary_round, shl_align.
  set (d := Z.pos (digits2_pos p)) in *.
  assert (Hf : fexp F32.prec F32.emax (d + 0) = d - 24)
    by (unfold fexp, emin, F32.prec, F32.emax; lia).
  rewrite Hf.
  destruct (d - 24 - 0) as [|q|q] eqn:Hq; try lia.
  unfold binary_round_aux, shr_fexp. cbn [Zdigits2]. fold d.
  rewrite Hf. rewrite Hq. cbn [shr].
  match goal with
  | |- context [shr ?a ?b ?c] =>
      pose proof (shr_exponent a b c) as Hs; destruct (shr a b c) as [mrs e'']
  end.
  cbn [snd] in Hs.
  destruct (shr_m mrs); try exact I.
  destruct (_ <=? _); [lia|exact I].
Qed.

Lemma floorf_of_int (z : Z) : F32.floorf (F32.of_int z) = F32.of_int z.
Proof.
  destruct z as [|p|p]; [reflexivity| |]; unfold F32.of_int, binary_normalize.
  - destruct (Z_le_gt_dec (Z.pos (digits2_pos p)) 24) as [H|H].
    + destruct (binary_round_small false p H) as (m & e & Hr & He & Hm).
      rewrite Hr. unfold F32.floorf.
      destruct (0 <=? e) eqn:E; [reflexivity|].
      unfold F32.signed, cond_Zopp. rewrite Hm, Z.div_mul by lia.
      cbn [binary_normalize]. exact Hr.
    + pose proof (binary_round_large false p ltac:(lia)) as Hl.
      destruct (binary_round F32.prec F32.emax false p 0) as [| | |s m e];
        try reflexivity.
      unfold F32.floorf.
      now replace (0 <=? e) with true by (symmetry; apply Z.leb_le; lia).
  - destruct (Z_le_gt_dec (Z.pos (digits2_pos p)) 24) as [H|H].
    + destruct (binary_round_small true p H) as (m & e & Hr & He & Hm).
      rewrite Hr. unfold F32.floorf.
      destruct (0 <=? e) eqn:E; [reflexivity|].
      unfold F32.signed, cond_Zopp. rewrite Hm.
      rewrite <- Z.mul_opp_l, Z.div_mul by lia.
      cbn [binary_normalize Z.opp]. exact Hr.
    + pose proof (binary_round_large true p ltac:(lia)) as Hl.
      destruct (binary_round F32.prec F32.emax true p 0) as [| | |s m e];
        try reflexivity.
      unfold F32.floorf.
      now replace (0 <=? e) with true by (symmetry; apply Z.leb_le; lia).
Qed.

Lemma ceilf_of_int (z : Z) : F32.ceilf (F32.of_int z) = F32.of_int z.
Proof.
  destruct z as [|p|p]; [reflexivity| |]; unfold F32.of_int, binary_normalize.
  - destruct (Z_le_gt_dec (Z.pos (digits2_pos p)) 24) as [H|H].
    + destruct (binary_round_small false p H) as (m & e & Hr & He & Hm).
      rewrite Hr. unfold F32.ceilf.
      destruct (0 <=? e) eqn:E; [reflexivity|].
      unfold F32.signed, cond_Zopp. rewrite Hm.
      rewrite <- Z.mul_opp_l, Z.div_mul, Z.opp_involutive by lia.
      cbn [binary_normalize]. exact Hr.
    + pose proof (binary_round_large false p ltac:(lia)) as Hl.
      destruct (binary_round F32.prec F32.emax false p 0) as [| | |s m e];
        try reflexivity.
      unfold F32.ceilf.
      now replace (0 <=? e) with true by (symmetry; apply Z.leb_le; lia).
  - destruct (Z_le_gt_dec (Z.pos (digits2_pos p)) 24) as [H|H].
    + destruct (binary_round_small true p H) as (m & e & Hr & He & Hm).
      rewrite Hr. unfold F32.ceilf.
      destruct (0 <=? e) eqn:E; [reflexivity|].
      unfold F32.signed, cond_Zopp. rewrite Hm.
      rewrite Z.opp_involutive, Z.div_mul by lia.
      cbn [binary_normalize Z.opp]. exact Hr.
    + pose proof (binary_round_large true p ltac:(lia)) as Hl.
      destruct (binary_round F32.prec F32.emax true p 0) as [| | |s m e];
        try reflexivity.
      unfold F32.ceilf.
      now replace (0 <=? e) with true by (symmetry; apply Z.leb_le; lia).
Qed.

(** A rectangle with integer edges is its own rounding. *)
Lemma roundOut_ofInts (l t r b : Z) :
  RectOps.roundOut (RectOps.ofInts l t r b) = RectOps.ofInts l t r b.
Proof.
  unfold RectOps.roundOut, RectOps.ofInts. cbn [left top right bottom].
  now rewrite !floorf_of_int, !ceilf_of_int.
Qed.

Section BlurProperties.

Variable filterBounds : GaussianBlurImageFilter -> Rect -> Rect.
Variable intersect : Rect -> Rect -> Rect.
Variable mapRect : Matrix -> Rect -> Rect.
Variable isAlphaOnly : TextureProxy -> bool.

Let lock := lockTextureProxy filterBounds intersect mapRect isAlphaOnly.

(** Splits a run of [lockTextureProxy] into its paths: 2D or not, each
    allocation backed or not, each test on the blurriness. *)
Ltac blur_step c :=
  cbn [fst snd requests tasks backing negb andb];
  match goal with
  | |- context [backing c ?rt] =>
      let E := fresh "Ealloc" in destruct (backing c rt) eqn:E
  | |- context [if F32.gtb ?a ?b then _ else _] =>
      let E := fresh "Egt" in destruct (F32.gtb a b) eqn:E
  | |- context [if F32.leb ?a ?b then _ else _] =>
      let E := fresh "Ele" in destruct (F32.leb a b) eqn:E
  end.

Ltac blur_unfold :=
  unfold lock, issued, performed, lockTextureProxy, ScaleTexture, Blur1D,
    MakeFallback, fillRTWithFP, bind, ret.

Ltac blur_cases f c :=
  blur_unfold;
  destruct (blur2DOf f) eqn:E2D;
  repeat blur_step c;
  cbn [fst snd requests tasks backing negb andb];
  rewrite <- ?app_assoc, ?drop_app_length, ?drop_all.

(** C5. If a render target allocation of a blur fails (the first target,
    the clip-sized target of the vertical pass, or the target of
    [ScaleTexture]), [lockTextureProxy] returns null: no texture is
    handed out. *)
Theorem lockTextureProxy_allocation_failure f source clip args c :
  Exists (fun q => snd q = false) (issued (lock f source clip args) c) ->
  fst (lock f source clip args c) = None.
Proof.
  blur_cases f c;
    rewrite ?Exists_app, ?Exists_cons, ?Exists_nil; cbn [snd];
    intuition congruence.
Qed.

(** A 1D blur that does not downscale samples the clip bounds as they
    are, and draws into a target of their rounded-out size. *)
Lemma scaledBounds_1D f source clip :
  blur2DOf f = false ->
  F32.leb (maxSigmaOf f) MAX_BLUR_SIGMA = true ->
  scaledBoundsOf filterBounds intersect mapRect f source clip = RectOps.roundOut clip.
Proof.
  intros E2D Ele. unfold scaledBoundsOf, boundsWillSampleOf. rewrite E2D.
  destruct (downscales f) eqn:Ed; [|reflexivity].
  apply gtb_leb in Ed. congruence.
Qed.

(** C2, as the code has it. When every allocation succeeds, a texture is
    returned; its size is the integer size of the clip rectangle on the
    2D path and on the path that ends with [ScaleTexture], and the
    integer size of the rounded-out clip rectangle on the 1D path without
    downscale. For a clip rectangle that [roundOut] leaves unchanged, and
    so for every clip rectangle with integer edges, the two agree: the
    size is that of the clip on every path. *)
Theorem lockTextureProxy_clip_size f source clip args c :
  Forall succeeded (issued (lock f source clip args) c) ->
  exists tp,
    fst (lock f source clip args c) = Some tp /\
    sizeOfTexture tp =
      RectOps.intSize
        (if blur2DOf f || negb (F32.leb (maxSigmaOf f) MAX_BLUR_SIGMA)
         then clip else RectOps.roundOut clip) /\
    (RectOps.roundOut clip = clip -> sizeOfTexture tp = RectOps.intSize clip) /\
    (forall l t r b, clip = RectOps.ofInts l t r b ->
                     sizeOfTexture tp = RectOps.intSize clip).
Proof.
  pose proof (scaledBounds_1D f source clip) as Hs.
  revert Hs. blur_cases f c; intros Hs;
    rewrite ?Forall_app, ?Forall_cons, ?Forall_nil; unfold succeeded; cbn [snd];
    intros Hall; try (exfalso; intuition congruence);
    (eexists; split; [reflexivity|]);
    unfold sizeOfTexture, asTextureProxy, RectOps.intSize; cbn;
    rewrite ?Hs by reflexivity;
    (split; [reflexivity|]);
    (split; [intros Hr; rewrite ?Hr; reflexivity
            |intros l t r b ->; rewrite ?roundOut_ofInts; reflexivity]).
Qed.

(** A blurriness above the maximal sigma is positive. *)
Lemma gtb_max_sigma_positive (x : float) :
  F32.gtb x MAX_BLUR_SIGMA = true -> F32.gtb x (F32.of_int 0) = true.
Proof.
  unfold F32.gtb.
  change MAX_BLUR_SIGMA with (S754_finite false 10485760 (-20)).
  change (F32.of_int 0) with (S754_zero false).
  destruct x as [[]|[]| |[] m e]; cbn; congruence.
Qed.

Lemma downscales_positive f :
  downscales f = true ->
  F32.gtb (blurrinessX f) (F32.of_int 0) = true \/
  F32.gtb (blurrinessY f) (F32.of_int 0) = true.
Proof.
  unfold downscales, maxSigmaOf, F32.max.
  destruct (F32.ltb (blurrinessX f) (blurrinessY f)); intros H;
    apply gtb_max_sigma_positive in H; auto.
Qed.

(** C3, as the code has it. When the larger blurriness exceeds
    [MAX_BLUR_SIGMA] and the allocations succeed, the scale factor is
    [MAX_BLUR_SIGMA / maxSigma], two targets are allocated, the first of
    the size of the downscaled bounds and the second of the size of the
    clip, and two fills are issued. The first fill is a blur pass into the
    downscaled target with the sigma multiplied by the factor. For a 1D
    blur the second fill is the texture-scaling pass of [ScaleTexture]
    from the downscaled texture into the clip-sized target. For a 2D blur
    the second fill is the vertical blur pass itself: it samples the
    downscaled texture and draws into the clip-sized target with step
    length [sampled height / scaled height]; there is no separate scaling
    pass. *)
Theorem downscaled_blur_passes f source clip args c :
  downscales f = true ->
  Forall succeeded (issued (lock f source clip args) c) ->
  let factor := F32.div MAX_BLUR_SIGMA (maxSigmaOf f) in
  let sampled := boundsWillSampleOf filterBounds intersect f source clip in
  let scaled := RectOps.roundOut (mapRect (MakeScale factor factor) sampled) in
  scaleFactorOf f = factor /\
  exists first final,
    issued (lock f source clip args) c = [(first, true); (final, true)] /\
    sizeOfTarget first = RectOps.intSize scaled /\
    sizeOfTarget final = RectOps.intSize clip /\
    fst (lock f source clip args c) = Some (asTextureProxy final) /\
    map fillTarget (performed (lock f source clip args) c) = [first; final] /\
    map passInput (performed (lock f source clip args) c)
      = [None; Some (asTextureProxy first)] /\
    map isScalePass (performed (lock f source clip args) c)
      = [false; negb (blur2DOf f)] /\
    map blurPass (performed (lock f source clip args) c)
      = if blur2DOf f then
          [Some (Horizontal, F32.mul (blurrinessX f) factor, F32.of_int 1);
           Some (Vertical, F32.mul (blurrinessY f) factor,
                 F32.div (RectOps.height sampled) (RectOps.height scaled))]
        else if F32.gtb (blurrinessX f) (F32.of_int 0) then
          [Some (Horizontal, F32.mul (blurrinessX f) factor, F32.of_int 1); None]
        else
          [Some (Vertical, F32.mul (blurrinessY f) factor, F32.of_int 1); None].
Proof.
  intros Hd.
  pose proof (gtb_leb _ _ Hd) as Hle.
  pose proof (downscales_positive f Hd) as Hpos.
  assert (Hf : scaleFactorOf f = F32.div MAX_BLUR_SIGMA (maxSigmaOf f))
    by (unfold scaleFactorOf; now rewrite Hd).
  assert (Hsc : scaledBoundsOf filterBounds intersect mapRect f source clip
                = RectOps.roundOut
                    (mapRect (MakeScale (F32.div MAX_BLUR_SIGMA (maxSigmaOf f))
                                        (F32.div MAX_BLUR_SIGMA (maxSigmaOf f)))
                       (boundsWillSampleOf filterBounds intersect f source clip)))
    by (unfold scaledBoundsOf; now rewrite Hd, Hf).
  revert Hle Hpos. cbv zeta. rewrite <- Hsc, <- Hf. clear Hsc Hf Hd.
  blur_cases f c; intros Hle Hpos;
    rewrite ?Forall_app, ?Forall_cons, ?Forall_nil; unfold succeeded; cbn [snd];
    intros Hall; try (exfalso; intuition congruence);
    (split; [reflexivity|]);
    do 2 eexists; repeat split; reflexivity.
Qed.

(** C6, as the code has it. For a 1D blur (exactly one blurriness above
    zero) whose allocations succeed, the bounds are not expanded: the one
    blur pass reads the source image through the clip bounds themselves,
    its uv matrix being the translation to the left top corner of the clip
    scaled by the size of the clip over the size of the target, where the
    target is the rounded-out clip, scaled down first when the blurriness
    exceeds the maximal sigma. Exactly one blur pass is issued, along the
    axis of the positive blurriness, and a texture is returned; when the
    clip rectangle is one that [roundOut] leaves unchanged, and so when
    its edges are integers, the texture has the size of the clip. *)
Theorem blur1D_single_pass f source clip args c :
  xorb (F32.gtb (blurrinessX f) (F32.of_int 0))
       (F32.gtb (blurrinessY f) (F32.of_int 0)) = true ->
  Forall succeeded (issued (lock f source clip args) c) ->
  let target :=
    RectOps.roundOut
      (if downscales f
       then mapRect (MakeScale (scaleFactorOf f) (scaleFactorOf f)) clip
       else clip) in
  boundsWillSampleOf filterBounds intersect f source clip = clip /\
  omap sourceSampling (performed (lock f source clip args) c)
    = [(source,
        preScale (MakeTrans (left clip) (top clip))
          (F32.div (RectOps.width clip) (RectOps.width target))
          (F32.div (RectOps.height clip) (RectOps.height target)),
        RectOps.MakeWH (RectOps.width target) (RectOps.height target))] /\
  omap blurDirection (performed (lock f source clip args) c)
    = [if F32.gtb (blurrinessX f) (F32.of_int 0) then Horizontal else Vertical] /\
  exists tp,
    fst (lock f source clip args c) = Some tp /\
    (RectOps.roundOut clip = clip -> sizeOfTexture tp = RectOps.intSize clip) /\
    (forall l t r b, clip = RectOps.ofInts l t r b ->
                     sizeOfTexture tp = RectOps.intSize clip).
Proof.
  intros Hx.
  assert (H1D : blur2DOf f = false)
    by (unfold blur2DOf; destruct (F32.gtb (blurrinessX f) _), (F32.gtb (blurrinessY f) _);
        cbn in *; congruence).
  assert (Hb : boundsWillSampleOf filterBounds intersect f source clip = clip)
    by (unfold boundsWillSampleOf; now rewrite H1D).
  assert (Hsc : scaledBoundsOf filterBounds intersect mapRect f source clip
                = RectOps.roundOut
                    (if downscales f
                     then mapRect (MakeScale (scaleFactorOf f) (scaleFactorOf f)) clip
                     else clip))
    by (unfold scaledBoundsOf; now rewrite Hb).
  pose proof (scaledBounds_1D f source clip H1D) as Hs. rewrite Hsc in Hs.
  revert Hx H1D Hs. cbv zeta. rewrite <- Hsc. rewrite Hb. clear Hsc.
  blur_cases f c; intros Hx H1D Hs;
    rewrite ?Forall_app, ?Forall_cons, ?Forall_nil; unfold succeeded; cbn [snd];
    intros Hall; try (exfalso; cbn in Hx; intuition congruence);
    rewrite ?Hb;
    (split; [reflexivity|]); (split; [reflexivity|]); (split; [reflexivity|]);
    (eexists; split; [reflexivity|]);
    unfold sizeOfTexture, asTextureProxy, RectOps.intSize; cbn;
    rewrite ?Hs by reflexivity;
    (split; [intros Hr; rewrite ?Hr; reflexivity
            |intros l t r b ->; rewrite ?roundOut_ofInts; reflexivity]).
Qed.

(** C9. When the blur is 2D or the larger blurriness exceeds
    [MAX_BLUR_SIGMA], the first render target is requested without
    mipmaps whatever the caller asked for. If the device does not back
    it, nothing more is requested or drawn and null is returned. If it
    does, the first fill is a blur pass into it, and exactly one more
    render target is requested, the target of the vertical pass or of
    [ScaleTexture]: it has the size of the clip and the mipmap state the
    caller asked for, and its texture is what is returned when the device
    backs it. *)
Theorem first_target_not_mipmapped f source clip args c :
  blur2DOf f = true \/ downscales f = true ->
  exists first ok rest,
    issued (lock f source clip args) c = (first, ok) :: rest /\
    rtMipmapped first = false /\
    (ok = false ->
       rest = [] /\ performed (lock f source clip args) c = [] /\
       fst (lock f source clip args c) = None) /\
    (ok = true ->
       (exists t more,
          performed (lock f source clip args) c = t :: more /\
          fillTarget t = first /\ blurDirection t <> None) /\
       exists final ok',
         rest = [(final, ok')] /\
         rtMipmapped final = mipmapped args /\
         sizeOfTarget final = RectOps.intSize clip /\
         fst (lock f source clip args c)
           = if ok' then Some (asTextureProxy final) else None).
Proof.
  intros H.
  assert (Hm : blur2DOf f = true \/
               (blur2DOf f = false /\ F32.leb (maxSigmaOf f) MAX_BLUR_SIGMA = false /\
                (F32.gtb (blurrinessX f) (F32.of_int 0) = true \/
                 F32.gtb (blurrinessY f) (F32.of_int 0) = true))).
  { destruct (blur2DOf f); [now left|right]. split; [reflexivity|].
    destruct H as [H|H]; [discriminate|].
    split; [now apply gtb_leb | now apply downscales_positive]. }
  clear H. revert Hm. blur_unfold.
  destruct (F32.leb (maxSigmaOf f) MAX_BLUR_SIGMA) eqn:Ele;
    blur_cases f c; intros Hm;
    try (exfalso; intuition congruence);
    do 3 eexists; (split; [reflexivity|]);
    (split; [cbn; now rewrite ?andb_false_r|]);
    (split; [intros Hok; first [discriminate Hok | repeat split; reflexivity]|]);
    intros Hok; try discriminate Hok;
    (split; [do 2 eexists; split; [reflexivity|]; split; [reflexivity|discriminate]|]);
    do 2 eexists; repeat split; reflexivity.
Qed.

End BlurProperties.

(** C4. [ImageFilter::Blur] returns null exactly when a blurriness is
    negative or both are zero; on every other input it returns a filter
    with the given blurriness and tile mode. *)
Theorem Blur_null_iff (bx by_ : float) (tm : TileMode) :
  (Blur bx by_ tm = None <->
   F32.ltb bx (F32.of_int 0) = true \/ F32.ltb by_ (F32.of_int 0) = true \/
   (F32.eqb bx (F32.of_int 0) = true /\ F32.eqb by_ (F32.of_int 0) = true)) /\
  (Blur bx by_ tm <> None ->
   Blur bx by_ tm =
     Some {| blurrinessX := bx; blurrinessY := by_; tileMode := tm |}).
Proof.
  unfold Blur.
  destruct (F32.ltb bx (F32.of_int 0)), (F32.ltb by_ (F32.of_int 0)),
    (F32.eqb bx (F32.of_int 0)), (F32.eqb by_ (F32.of_int 0)); cbn;
    intuition congruence.
Qed.

(** The product [2.f * x] is exact for a normal [x] below the overflow
    threshold: the mantissa is kept and the exponent grows by one. *)
Lemma mul_two_normal (s : bool) (m : positive) (e : Z) :
  digits2_pos m = 24%positive -> -149 <= e -> e + 1 <= 104 ->
  F32.mul (F32.of_int 2) (S754_finite s m e) = S754_finite s m (e + 1).
Proof.
  intros Hd Hlo Hhi.
  change (F32.of_int 2) with (S754_finite false 8388608 (-22)).
  unfold F32.mul, SFmul. cbn [xorb].
  change (Pos.mul 8388608 m) with
    (m~0~0~0~0~0~0~0~0~0~0~0~0~0~0~0~0~0~0~0~0~0~0~0)%positive.
  unfold binary_round_aux, shr_fexp.
  cbn [Zdigits2 digits2_pos]. rewrite Hd.
  change (Z.pos _ + (-22 + e)) with (47 + (-22 + e)).
  replace (fexp F32.prec F32.emax (47 + (-22 + e)) - (-22 + e)) with 23
    by (unfold fexp, emin, F32.prec, F32.emax; lia).
  cbn [shr shr_record_of_loc SpecFloat.iter_pos shr_1 orb shr_m
       loc_of_shr_record round_nearest_even Zdigits2].
  rewrite Hd.
  replace (fexp F32.prec F32.emax (24 + (-22 + e + 23)) - (-22 + e + 23)) with 0
    by (unfold fexp, emin, F32.prec, F32.emax; lia).
  cbn [shr shr_m].
  replace (-22 + e + 23) with (e + 1) by lia.
  replace (e + 1 <=? F32.emax - F32.prec) with true; [reflexivity|].
  symmetry. apply Z.leb_le. unfold F32.emax, F32.prec. lia.
Qed.

(** X8. For a filter whose blurriness is a normal number below the
    overflow threshold on both axes, [onFilterBounds] outsets by exactly
    twice the blurriness: the doubling does not round. *)
Lemma onFilterBounds_normal (sx sy : bool) (mx my : positive) (ex ey : Z)
    (tm : TileMode) (r : Rect) :
  digits2_pos mx = 24%positive -> -149 <= ex -> ex + 1 <= 104 ->
  digits2_pos my = 24%positive -> -149 <= ey -> ey + 1 <= 104 ->
  onFilterBounds {| blurrinessX := S754_finite sx mx ex;
                    blurrinessY := S754_finite sy my ey;
                    tileMode := tm |} r =
    RectOps.makeOutset r (S754_finite sx mx (ex + 1)) (S754_finite sy my (ey + 1)).
Proof.
  intros. unfold onFilterBounds. cbn [blurrinessX blurrinessY].
  now rewrite !mul_two_normal.
Qed.

(** ** Numbers on a grid

    Edges and blurriness that are multiples of one power of two, with
    fewer than 2^24 units each, are added, subtracted and doubled without
    rounding. *)

(** The iteration of [SpecFloat] is that of [Pos]. *)
Lemma iter_pos_iter {A} (f : A -> A) (n : positive) (x : A) :
  SpecFloat.iter_pos f n x = Pos.iter f x n.
Proof.
  revert x. induction n as [n IH|n IH|]; intros x; cbn [SpecFloat.iter_pos Pos.iter].
  - now rewrite !IH, !Pos.iter_swap.
  - now rewrite !IH.
  - reflexivity.
Qed.

(** Shifting out zeros leaves nothing behind. *)
Lemma shr_trailing (p k : positive) :
  Pos.iter shr_1 {| shr_m := Z.pos (Pos.iter xO p k); shr_r := false; shr_s := false |} k
  = {| shr_m := Z.pos p; shr_r := false; shr_s := false |}.
Proof.
  induction k as [|k IH] using Pos.peano_ind.
  - reflexivity.
  - rewrite Pos.iter_succ_r, Pos.iter_succ. cbn [shr_1 orb]. exact IH.
Qed.

Lemma Zpos_shiftLeft (p : positive) (j : Z) :
  0 <= j -> Z.pos (F32.shiftLeft p j) = Z.pos p * 2 ^ j.
Proof.
  destruct j as [|k|k]; intros Hj; cbn [F32.shiftLeft]; [cbn; lia| |lia].
  apply Zpos_iter_xO.
Qed.

Lemma digits2_shiftLeft (p : positive) (j : Z) :
  0 <= j -> Z.pos (digits2_pos (F32.shiftLeft p j)) = Z.pos (digits2_pos p) + j.
Proof.
  destruct j as [|k|k]; intros Hj; cbn [F32.shiftLeft]; [lia| |lia].
  apply digits2_iter_xO.
Qed.

Lemma shiftLeft_eq (p m : positive) (j : Z) :
  0 <= j -> Z.pos m = Z.pos p * 2 ^ j -> m = F32.shiftLeft p j.
Proof.
  intros Hj Hm. apply Pos2Z.inj. now rewrite Zpos_shiftLeft.
Qed.

(** A number of [d] digits lies between [2^(d-1)] and [2^d]. *)
Lemma digits2_bounds (p : positive) :
  2 ^ (Z.pos (digits2_pos p) - 1) <= Z.pos p < 2 ^ Z.pos (digits2_pos p).
Proof.
  induction p as [p IH|p IH|]; cbn [digits2_pos]; [| |cbn; lia];
    rewrite Pos2Z.inj_succ;
    replace (Z.succ (Z.pos (digits2_pos p)) - 1) with (Z.succ (Z.pos (digits2_pos p) - 1)) by lia;
    rewrite !Z.pow_succ_r by lia; lia.
Qed.

Lemma digits2_small (p : positive) : Z.pos p < 2 ^ 24 -> Z.pos (digits2_pos p) <= 24.
Proof.
  intros Hp. pose proof (digits2_bounds p) as [Hlo _].
  destruct (Z_le_gt_dec (Z.pos (digits2_pos p)) 24) as [H|H]; [exact H|].
  assert (2 ^ 24 <= 2 ^ (Z.pos (digits2_pos p) - 1)) by (apply Z.pow_le_mono_r; lia).
  lia.
Qed.

(** Rounding [p * 2^j] at the exponent [E - j] gives the normal form of
    [p * 2^E], however the number is split into mantissa and exponent. *)
Lemma binary_round_grid (s : bool) (p : positive) (j E : Z) :
  Z.pos (digits2_pos p) <= 24 -> -126 <= E <= 104 -> 0 <= j ->
  binary_round F32.prec F32.emax s (F32.shiftLeft p j) (E - j) = F32.canon s p E.
Proof.
  intros Hd HE Hj. unfold binary_round, shl_align, F32.canon.
  rewrite digits2_shiftLeft by exact Hj.
  set (d := Z.pos (digits2_pos p)) in *.
  assert (Hdpos : 1 <= d) by (unfold d; lia).
  assert (Hf : fexp F32.prec F32.emax (d + j + (E - j)) = E + d - 24)
    by (unfold fexp, emin, F32.prec, F32.emax; lia).
  rewrite Hf.
  destruct (E + d - 24 - (E - j)) as [|q|q] eqn:Hq.
  - replace (F32.shiftLeft p j) with (F32.shiftLeft p (24 - d))
      by (apply shiftLeft_eq; [lia|]; rewrite Zpos_shiftLeft by lia; f_equal; f_equal; lia).
    replace (E - j) with (E + d - 24) by lia.
    apply binary_round_aux_canonical; [|lia].
    rewrite digits2_shiftLeft by lia. fold d. lia.
  - assert (Hm : F32.shiftLeft p j = Pos.iter xO (F32.shiftLeft p (24 - d)) q).
    { apply Pos2Z.inj. rewrite Zpos_iter_xO, !Zpos_shiftLeft by lia.
      rewrite <- Z.mul_assoc, <- Z.pow_add_r by lia. f_equal. f_equal. lia. }
    unfold binary_round_aux, shr_fexp. cbn [Zdigits2].
    rewrite digits2_shiftLeft by exact Hj. fold d. rewrite Hf, Hq.
    cbn [shr shr_record_of_loc]. rewrite iter_pos_iter, Hm, shr_trailing.
    cbn [shr_m loc_of_shr_record round_nearest_even Zdigits2].
    rewrite digits2_shiftLeft by lia. fold d.
    replace (fexp F32.prec F32.emax (d + (24 - d) + (E - j + Z.pos q)) - (E - j + Z.pos q))
      with 0 by (unfold fexp, emin, F32.prec, F32.emax; lia).
    cbn [shr shr_m].
    replace (E - j + Z.pos q) with (E + d - 24) by lia.
    replace (E + d - 24 <=? F32.emax - F32.prec) with true; [reflexivity|].
    symmetry. apply Z.leb_le. unfold F32.emax, F32.prec. lia.
  - replace (Pos.iter xO (F32.shiftLeft p j) q) with (F32.shiftLeft p (24 - d)).
    + apply binary_round_aux_canonical; [|lia].
      rewrite digits2_shiftLeft by lia. fold d. lia.
    + apply Pos2Z.inj. rewrite Zpos_iter_xO, !Zpos_shiftLeft by lia.
      rewrite <- Z.mul_assoc, <- Z.pow_add_r by lia. f_equal. f_equal. lia.
Qed.

(** The floats of the grid of step [2^E]. *)
Lemma dyadic_canon (n E : Z) :
  Z.abs n < 2 ^ 24 -> -126 <= E <= 104 ->
  F32.dyadic n E = match n with
               | 0 => S754_zero false
               | Z.pos p => F32.canon false p E
               | Z.neg p => F32.canon true p E
               end.
Proof.
  intros Hn HE. destruct n as [|p|p]; [reflexivity| |]; unfold F32.dyadic, binary_normalize.
  - replace E with (E - 0) at 1 by lia. change p with (F32.shiftLeft p 0) at 1.
    apply binary_round_grid; [apply digits2_small|  |]; lia.
  - replace E with (E - 0) at 1 by lia. change p with (F32.shiftLeft p 0) at 1.
    apply binary_round_grid; [apply digits2_small|  |]; lia.
Qed.

Lemma normalize_grid (n j E : Z) :
  Z.abs n < 2 ^ 24 -> -126 <= E <= 104 -> 0 <= j ->
  binary_normalize F32.prec F32.emax (n * 2 ^ j) (E - j) false = F32.dyadic n E.
Proof.
  intros Hn HE Hj. rewrite dyadic_canon by assumption.
  assert (H2 : 0 < 2 ^ j) by (apply Z.pow_pos_nonneg; lia).
  destruct n as [|p|p]; [reflexivity| |].
  - rewrite <- Zpos_shiftLeft by exact Hj. cbn [binary_normalize].
    apply binary_round_grid; [apply digits2_small| |]; lia.
  - change (Z.neg p) with (- Z.pos p). rewrite Z.mul_opp_l, <- Zpos_shiftLeft by exact Hj.
    cbn [binary_normalize Z.opp].
    apply binary_round_grid; [apply digits2_small| |]; lia.
Qed.

(** Alignment multiplies the mantissa by the power of two it takes from
    the exponent. *)
Lemma shl_align_value (m : positive) (ex ez : Z) :
  ez <= ex -> Z.pos (fst (shl_align m ex ez)) = Z.pos m * 2 ^ (ex - ez).
Proof.
  intros H. unfold shl_align. destruct (ez - ex) as [|q|q] eqn:Hq; cbn [fst]; try lia.
  - replace (ex - ez) with 0 by lia. cbn. lia.
  - rewrite Zpos_iter_xO. f_equal. f_equal. lia.
Qed.

(** The integer that [SFadd] and [SFsub] make of an operand of the grid,
    aligned at the exponent [ez]. *)
Lemma canon_aligned (s : bool) (p : positive) (E ez : Z) :
  Z.pos (digits2_pos p) <= 24 ->
  ez <= E + Z.pos (digits2_pos p) - 24 ->
  cond_Zopp s (Z.pos (fst (shl_align (F32.shiftLeft p (24 - Z.pos (digits2_pos p)))
                                     (E + Z.pos (digits2_pos p) - 24) ez)))
  = cond_Zopp s (Z.pos p) * 2 ^ (E - ez).
Proof.
  intros Hd Hez. rewrite shl_align_value by exact Hez.
  rewrite Zpos_shiftLeft by lia.
  rewrite <- Z.mul_assoc, <- Z.pow_add_r by lia.
  replace (24 - Z.pos (digits2_pos p) + (E + Z.pos (digits2_pos p) - 24 - ez))
    with (E - ez) by lia.
  destruct s; cbn [cond_Zopp]; lia.
Qed.

Lemma signed_Z (n : Z) :
  match n with
  | 0 => True
  | Z.pos p => cond_Zopp false (Z.pos p) = n
  | Z.neg p => cond_Zopp true (Z.pos p) = n
  end.
Proof. destruct n; cbn; auto. Qed.

(** On a grid, sums and differences that fit 24 digits are exact. *)
Lemma add_grid (a b E : Z) :
  Z.abs a < 2 ^ 24 -> Z.abs b < 2 ^ 24 -> Z.abs (a + b) < 2 ^ 24 ->
  -126 <= E <= 104 ->
  F32.add (F32.dyadic a E) (F32.dyadic b E) = F32.dyadic (a + b) E.
Proof.
  intros Ha Hb Hab HE.
  rewrite (dyadic_canon a), (dyadic_canon b) by assumption.
  destruct a as [|pa|pa], b as [|pb|pb];
    try (rewrite ?Z.add_0_r, ?Z.add_0_l; rewrite dyadic_canon by assumption; reflexivity);
    unfold F32.add, F32.canon, SFadd; cbv zeta;
    match goal with
    | |- context [Z.min ?x ?y] => set (ez := Z.min x y);
        assert (Hx : ez <= x) by apply Z.le_min_l;
        assert (Hy : ez <= y) by apply Z.le_min_r
    end;
    rewrite !canon_aligned by (try apply digits2_small; lia);
    rewrite <- Z.mul_add_distr_r;
    pose proof (digits2_small pa ltac:(lia));
    pose proof (digits2_small pb ltac:(lia));
    replace ez with (E - (E - ez)) at 2 by lia;
    cbn [cond_Zopp]; apply normalize_grid; (assumption || lia).
Qed.

Lemma sub_grid (a b E : Z) :
  Z.abs a < 2 ^ 24 -> Z.abs b < 2 ^ 24 -> Z.abs (a - b) < 2 ^ 24 ->
  -126 <= E <= 104 ->
  F32.sub (F32.dyadic a E) (F32.dyadic b E) = F32.dyadic (a - b) E.
Proof.
  intros Ha Hb Hab HE.
  rewrite (dyadic_canon a), (dyadic_canon b) by assumption.
  destruct a as [|pa|pa], b as [|pb|pb];
    try (rewrite ?Z.sub_0_r, ?Z.sub_0_l; rewrite dyadic_canon by (assumption || (cbn in *; lia));
         reflexivity);
    unfold F32.sub, F32.canon, SFsub; cbv zeta;
    match goal with
    | |- context [Z.min ?x ?y] => set (ez := Z.min x y);
        assert (Hx : ez <= x) by apply Z.le_min_l;
        assert (Hy : ez <= y) by apply Z.le_min_r
    end;
    rewrite !canon_aligned by (try apply digits2_small; lia);
    rewrite <- Z.mul_sub_distr_r;
    pose proof (digits2_small pa ltac:(lia));
    pose proof (digits2_small pb ltac:(lia));
    replace ez with (E - (E - ez)) at 2 by lia;
    cbn [cond_Zopp]; apply normalize_grid; (assumption || lia).
Qed.

(** Doubling a number of the grid is exact. *)
Lemma mul_two_grid (b E : Z) :
  Z.abs b < 2 ^ 23 -> -126 <= E <= 104 ->
  F32.mul (F32.of_int 2) (F32.dyadic b E) = F32.dyadic (2 * b) E.
Proof.
  intros Hb HE.
  rewrite (dyadic_canon b), (dyadic_canon (2 * b)) by lia.
  assert (Hmant : forall p, Z.pos p < 2 ^ 23 ->
            F32.shiftLeft p~0 (24 - Z.pos (digits2_pos p~0))
            = F32.shiftLeft p (24 - Z.pos (digits2_pos p))).
  { intros p Hp. pose proof (digits2_small p~0 ltac:(lia)) as Hd.
    cbn [digits2_pos] in *. rewrite Pos2Z.inj_succ in *.
    apply Pos2Z.inj. rewrite !Zpos_shiftLeft by lia.
    replace (24 - Z.pos (digits2_pos p)) with (Z.succ (24 - Z.succ (Z.pos (digits2_pos p)))) by lia.
    rewrite Z.pow_succ_r by lia. lia. }
  destruct b as [|p|p]; [reflexivity| |];
    [change (2 * Z.pos p) with (Z.pos p~0)|change (2 * Z.neg p) with (Z.neg p~0)];
    cbv iota; unfold F32.canon;
    pose proof (digits2_small p~0 ltac:(lia)) as Hd;
    rewrite Hmant by lia; cbn [digits2_pos] in *; rewrite Pos2Z.inj_succ in *;
    (rewrite mul_two_normal;
     [f_equal; lia
     |apply Pos2Z.inj; rewrite digits2_shiftLeft by lia; lia
     |lia|lia]).
Qed.

(** The value of a float of the grid: [n * 2^E]. *)
Lemma units_dyadic (n E : Z) :
  Z.abs n < 2 ^ 24 -> -126 <= E <= 104 ->
  F32.units (F32.dyadic n E) = Some (n * 2 ^ (E + 149)).
Proof.
  intros Hn HE. rewrite dyadic_canon by assumption.
  assert (Hv : forall p, Z.pos p < 2 ^ 24 ->
            Z.pos (F32.shiftLeft p (24 - Z.pos (digits2_pos p)))
              * 2 ^ (E + Z.pos (digits2_pos p) - 24 + 149)
            = Z.pos p * 2 ^ (E + 149)).
  { intros p Hp. pose proof (digits2_small p Hp) as Hd.
    rewrite Zpos_shiftLeft by lia.
    rewrite <- Z.mul_assoc, <- Z.pow_add_r by lia. f_equal. f_equal. lia. }
  destruct n as [|p|p]; [reflexivity| |]; unfold F32.canon, F32.units;
    pose proof (digits2_small p ltac:(lia)) as Hd;
    (replace (-149 <=? _) with true by (symmetry; apply Z.leb_le; lia));
    unfold F32.signed; cbn [cond_Zopp]; f_equal.
  - apply Hv. lia.
  - change (Z.neg p) with (- Z.pos p). rewrite !Z.mul_opp_l, Hv; lia.
Qed.

(** C7. [onFilterBounds] moves the left and right edges outwards by the
    binary32 product [2.f * blurrinessX] and the top and bottom edges by
    [2.f * blurrinessY], each difference and sum rounded to binary32. When
    the edges and the blurriness are multiples of one power of two [2^E],
    of fewer than 2^24 units for the edges and for the edges moved and of
    fewer than 2^23 for the blurriness, nothing is rounded: the edges of
    the result are the numbers [l - 2 rx], [t - 2 ry], [r + 2 rx] and
    [b + 2 ry] of the grid, in value. *)
Theorem onFilterBounds_outset (f : GaussianBlurImageFilter) (r : Rect) :
  onFilterBounds f r =
    MakeLTRB (F32.sub (left r) (F32.mul (F32.of_int 2) (blurrinessX f)))
             (F32.sub (top r) (F32.mul (F32.of_int 2) (blurrinessY f)))
             (F32.add (right r) (F32.mul (F32.of_int 2) (blurrinessX f)))
             (F32.add (bottom r) (F32.mul (F32.of_int 2) (blurrinessY f))) /\
  forall E l t rt b rx ry : Z,
    -126 <= E <= 104 ->
    r = MakeLTRB (F32.dyadic l E) (F32.dyadic t E) (F32.dyadic rt E) (F32.dyadic b E) ->
    blurrinessX f = F32.dyadic rx E -> blurrinessY f = F32.dyadic ry E ->
    Z.abs l < 2 ^ 24 -> Z.abs t < 2 ^ 24 -> Z.abs rt < 2 ^ 24 -> Z.abs b < 2 ^ 24 ->
    Z.abs rx < 2 ^ 23 -> Z.abs ry < 2 ^ 23 ->
    Z.abs (l - 2 * rx) < 2 ^ 24 -> Z.abs (t - 2 * ry) < 2 ^ 24 ->
    Z.abs (rt + 2 * rx) < 2 ^ 24 -> Z.abs (b + 2 * ry) < 2 ^ 24 ->
    onFilterBounds f r
      = MakeLTRB (F32.dyadic (l - 2 * rx) E) (F32.dyadic (t - 2 * ry) E)
                 (F32.dyadic (rt + 2 * rx) E) (F32.dyadic (b + 2 * ry) E) /\
    map F32.units [left (onFilterBounds f r); top (onFilterBounds f r);
               right (onFilterBounds f r); bottom (onFilterBounds f r)]
      = map (fun n => Some (n * 2 ^ (E + 149)))
            [l - 2 * rx; t - 2 * ry; rt + 2 * rx; b + 2 * ry].
Proof.
  split; [reflexivity|].
  intros E l t rt b rx ry HE -> Hx Hy Hl Ht Hrt Hb Hrx Hry Hl' Ht' Hrt' Hb'.
  assert (Heq : onFilterBounds f
                  (MakeLTRB (F32.dyadic l E) (F32.dyadic t E) (F32.dyadic rt E) (F32.dyadic b E))
                = MakeLTRB (F32.dyadic (l - 2 * rx) E) (F32.dyadic (t - 2 * ry) E)
                           (F32.dyadic (rt + 2 * rx) E) (F32.dyadic (b + 2 * ry) E)).
  { unfold onFilterBounds, RectOps.makeOutset. cbn [left top right bottom].
    rewrite Hx, Hy, !mul_two_grid by assumption.
    rewrite !sub_grid, !add_grid by (assumption || lia). reflexivity. }
  split; [exact Heq|]. rewrite Heq. cbn [map left top right bottom].
  now rewrite !units_dyadic by assumption.
Qed.

(** Quarter pixels: the rectangle (0.5, 0, 100.5, 100) and the blurriness
    (2.5, 0.75) give (-4.5, -1.5, 105.5, 101.5). *)
Lemma onFilterBounds_outset_witness :
  let f := {| blurrinessX := F32.dyadic 10 (-2);
              blurrinessY := F32.dyadic 3 (-2);
              tileMode := Clamp |} in
  let r := MakeLTRB (F32.dyadic 2 (-2)) (F32.of_int 0) (F32.dyadic 402 (-2)) (F32.of_int 100) in
  onFilterBounds f r
  = MakeLTRB (F32.dyadic (-18) (-2)) (F32.dyadic (-6) (-2)) (F32.dyadic 422 (-2)) (F32.dyadic 406 (-2)) /\
  map F32.units [left (onFilterBounds f r); top (onFilterBounds f r);
             right (onFilterBounds f r); bottom (onFilterBounds f r)]
  = map (fun n => Some (n * 2 ^ 147)) [-18; -6; 422; 406].
Proof.
  cbv zeta.
  apply (proj2 (onFilterBounds_outset
                  {| blurrinessX := F32.dyadic 10 (-2);
                     blurrinessY := F32.dyadic 3 (-2);
                     tileMode := Clamp |}
                  (MakeLTRB (F32.dyadic 2 (-2)) (F32.of_int 0) (F32.dyadic 402 (-2)) (F32.of_int 100)))
               (-2) 2 0 402 400 10 3);
    first [reflexivity | lia].
Defined.

(** A left edge at 2^24 and a blurriness of 0.25: the difference
    2^24 - 0.5 is no binary32 number and rounds back to 2^24, so the edge
    does not move. *)
Lemma onFilterBounds_rounds :
  let f := {| blurrinessX := F32.dyadic 1 (-2);
              blurrinessY := F32.dyadic 1 (-2);
              tileMode := Clamp |} in
  let r := RectOps.ofInts 16777216 0 16777316 100 in
  F32.units (blurrinessX f) = Some (2 ^ 147) /\
  F32.units (left r) = Some (16777216 * 2 ^ 149) /\
  F32.units (left (onFilterBounds f r)) = Some (16777216 * 2 ^ 149) /\
  F32.units (left (onFilterBounds f r)) <> Some (16777216 * 2 ^ 149 - 2 * 2 ^ 147).
Proof.
  cbv zeta. repeat split; try (vm_compute; reflexivity).
  vm_compute. discriminate.
Qed.

(** ** The scenarios of the specification, evaluated *)

Import Scenarios.

Example Blur_zero : Blur (F32.of_int 0) (F32.of_int 0) Clamp = None.
Proof. reflexivity. Qed.

Example Blur_negative :
  Blur (F32.of_int (-1)) (F32.of_int 5) Clamp = None /\
  Blur (F32.of_int 5) (F32.of_int (-1)) Clamp = None.
Proof. split; reflexivity. Qed.

(** Negative zero compares equal to zero. *)
Example Blur_negative_zero : Blur (S754_zero true) (F32.of_int 0) Clamp = None.
Proof. reflexivity. Qed.

Example Blur_horizontal :
  Blur (F32.of_int 5) (F32.of_int 0) Clamp = Some (Reference.blurOf 5 0).
Proof. reflexivity. Qed.

(** A NaN is neither negative nor zero. *)
Example Blur_nan : Blur S754_nan (F32.of_int 5) Clamp <> None.
Proof. discriminate. Qed.

Example onFilterBounds_20 :
  onFilterBounds (Reference.blurOf 20 20) clip100
  = RectOps.ofInts (-40) (-40) 140 140.
Proof. reflexivity. Qed.

Example roundOut_integral : RectOps.roundOut clip100 = clip100.
Proof. reflexivity. Qed.

Example roundOut_shifted :
  RectOps.roundOut clipShiftedX = RectOps.ofInts 0 0 101 100.
Proof. reflexivity. Qed.

(** The 2D scenario on a device that backs the first target only. *)
Lemma lockTextureProxy_allocation_failure_witness :
  Exists (fun q => snd q = false)
    (issued (Reference.lockTextureProxy (Reference.blurOf 20 20) Reference.image100
               clip100 (Reference.plainArgs true))
            (Reference.freshContext (Reference.firstOnly 1))) /\
  fst (Reference.lockTextureProxy (Reference.blurOf 20 20) Reference.image100
         clip100 (Reference.plainArgs true)
         (Reference.freshContext (Reference.firstOnly 1))) = None.
Proof.
  assert (H : Exists (fun q => snd q = false)
    (issued (Reference.lockTextureProxy (Reference.blurOf 20 20) Reference.image100
               clip100 (Reference.plainArgs true))
            (Reference.freshContext (Reference.firstOnly 1))))
    by (vm_compute; right; left; reflexivity).
  split; [exact H|].
  exact (lockTextureProxy_allocation_failure
           Reference.filterBounds Reference.intersect Reference.mapRect
              Reference.isAlphaOnly
           _ _ _ _ _ H).
Defined.

(** C2, counterexample. A horizontal blur of blurriness 5 over the clip
    rectangle (0.5, 0, 100.5, 100): the clip has size 100 x 100 and the only
    allocation succeeds, yet the texture that is returned is 101 x 100. *)
Lemma lockTextureProxy_shifted_clip_size :
  RectOps.width clipShiftedX = F32.of_int 100 /\
  RectOps.height clipShiftedX = F32.of_int 100 /\
  RectOps.intSize clipShiftedX = (100, 100) /\
  Forall succeeded
    (issued (Reference.lockTextureProxy (Reference.blurOf 5 0) Reference.image100
               clipShiftedX (Reference.plainArgs false)) ctx) /\
  option_map sizeOfTexture
    (fst (Reference.lockTextureProxy (Reference.blurOf 5 0) Reference.image100
            clipShiftedX (Reference.plainArgs false) ctx)) = Some (101, 100).
Proof.
  repeat split; try reflexivity.
  vm_compute. repeat constructor.
Qed.

(** The 2D scenario of the specification: the texture is 100 x 100. *)
Lemma lockTextureProxy_clip_size_witness :
  Forall succeeded
    (issued (Reference.lockTextureProxy (Reference.blurOf 20 20) Reference.image100
               clip100 (Reference.plainArgs true)) ctx) /\
  exists tp,
    fst (Reference.lockTextureProxy (Reference.blurOf 20 20) Reference.image100
           clip100 (Reference.plainArgs true) ctx) = Some tp /\
    sizeOfTexture tp = (100, 100).
Proof.
  assert (H : Forall succeeded
    (issued (Reference.lockTextureProxy (Reference.blurOf 20 20) Reference.image100
               clip100 (Reference.plainArgs true)) ctx))
    by (vm_compute; repeat constructor).
  split; [exact H|].
  destruct (lockTextureProxy_clip_size
              Reference.filterBounds Reference.intersect Reference.mapRect
              Reference.isAlphaOnly
              _ _ _ _ _ H) as (tp & Hr & _ & _ & Hints).
  exists tp. split; [exact Hr|]. apply (Hints 0 0 100 100). reflexivity.
Defined.

(** C3, counterexample. The 2D scenario of the specification: blurriness
    (20, 20) on a 100 x 100 image, clip (0, 0, 100, 100). Two fills are
    issued and none is a scaling pass; the vertical blur pass draws into the
    100 x 100 target, not into a downscaled one. And when the device backs
    the first target only, the horizontal pass is all that is issued and
    nothing is returned. *)
Lemma blur2D_no_separate_upscale :
  downscales (Reference.blurOf 20 20) = true /\
  scaleFactorOf (Reference.blurOf 20 20) = Reference.half 1 /\
  map summary
    (performed (Reference.lockTextureProxy (Reference.blurOf 20 20) Reference.image100
                  clip100 (Reference.plainArgs false)) ctx)
  = [ (Some Horizontal, false, (90, 90)); (Some Vertical, false, (100, 100)) ] /\
  option_map sizeOfTexture
    (fst (Reference.lockTextureProxy (Reference.blurOf 20 20) Reference.image100
            clip100 (Reference.plainArgs false) ctx)) = Some (100, 100) /\
  map summary
    (performed (Reference.lockTextureProxy (Reference.blurOf 20 20) Reference.image100
                  clip100 (Reference.plainArgs false))
               (Reference.freshContext (Reference.firstOnly 1)))
  = [ (Some Horizontal, false, (90, 90)) ] /\
  fst (Reference.lockTextureProxy (Reference.blurOf 20 20) Reference.image100
         clip100 (Reference.plainArgs false)
         (Reference.freshContext (Reference.firstOnly 1))) = None.
Proof. repeat split; reflexivity. Qed.

(** Blurriness (20, 0): a horizontal pass into a 50 x 50 target, then
    the scaling pass into the 100 x 100 target; blurriness (20, 20): no
    scaling pass. *)
Lemma downscaled_blur_passes_witness :
  map summary
    (performed (Reference.lockTextureProxy (Reference.blurOf 20 0) Reference.image100
                  clip100 (Reference.plainArgs false)) ctx)
  = [ (Some Horizontal, false, (50, 50)); (None, true, (100, 100)) ] /\
  map isScalePass
    (performed (Reference.lockTextureProxy (Reference.blurOf 20 20) Reference.image100
                  clip100 (Reference.plainArgs false)) ctx)
  = [false; false].
Proof.
  split; [reflexivity|].
  assert (Hd : downscales (Reference.blurOf 20 20) = true) by reflexivity.
  assert (H : Forall succeeded
    (issued (Reference.lockTextureProxy (Reference.blurOf 20 20) Reference.image100
               clip100 (Reference.plainArgs false)) ctx))
    by (vm_compute; repeat constructor).
  destruct (downscaled_blur_passes
              Reference.filterBounds Reference.intersect Reference.mapRect
              Reference.isAlphaOnly
              _ _ _ _ _ Hd H) as (_ & first & final & _ & _ & _ & _ & _ & _ & Hscale & _).
  exact Hscale.
Defined.

(** C6, counterexample. A vertical blur of blurriness 5 over the clip
    rectangle (0, 0.5, 100, 100.5): a 1D request whose clip has size
    100 x 100 and whose allocation succeeds, with one vertical pass; the
    texture that is returned is 100 x 101. And when the device backs no
    target, the 1D scenario of the specification issues no pass. *)
Lemma blur1D_shifted_clip_size :
  xorb (F32.gtb (blurrinessX (Reference.blurOf 0 5)) (F32.of_int 0))
       (F32.gtb (blurrinessY (Reference.blurOf 0 5)) (F32.of_int 0)) = true /\
  RectOps.intSize clipShiftedY = (100, 100) /\
  Forall succeeded
    (issued (Reference.lockTextureProxy (Reference.blurOf 0 5) Reference.image100
               clipShiftedY (Reference.plainArgs false)) ctx) /\
  map summary
    (performed (Reference.lockTextureProxy (Reference.blurOf 0 5) Reference.image100
                  clipShiftedY (Reference.plainArgs false)) ctx)
  = [ (Some Vertical, false, (100, 101)) ] /\
  option_map sizeOfTexture
    (fst (Reference.lockTextureProxy (Reference.blurOf 0 5) Reference.image100
            clipShiftedY (Reference.plainArgs false) ctx)) = Some (100, 101) /\
  performed (Reference.lockTextureProxy (Reference.blurOf 5 0) Reference.image100
               clip100 (Reference.plainArgs false))
            (Reference.freshContext (Reference.firstOnly 0)) = [].
Proof.
  repeat split; try reflexivity.
  vm_compute. repeat constructor.
Qed.

(** The 1D scenario of the specification: blurriness (5, 0), clip
    (0, 0, 100, 100): one horizontal pass, a 100 x 100 texture. *)
Lemma blur1D_single_pass_witness :
  omap sourceSampling
    (performed (Reference.lockTextureProxy (Reference.blurOf 5 0) Reference.image100
                  clip100 (Reference.plainArgs false)) ctx)
  = [(Reference.image100,
      preScale (MakeTrans (F32.of_int 0) (F32.of_int 0)) (F32.of_int 1) (F32.of_int 1),
      RectOps.MakeWH (F32.of_int 100) (F32.of_int 100))] /\
  omap blurDirection
    (performed (Reference.lockTextureProxy (Reference.blurOf 5 0) Reference.image100
                  clip100 (Reference.plainArgs false)) ctx) = [Horizontal] /\
  exists tp,
    fst (Reference.lockTextureProxy (Reference.blurOf 5 0) Reference.image100
           clip100 (Reference.plainArgs false) ctx) = Some tp /\
    sizeOfTexture tp = (100, 100).
Proof.
  assert (Hx : xorb (F32.gtb (blurrinessX (Reference.blurOf 5 0)) (F32.of_int 0))
                    (F32.gtb (blurrinessY (Reference.blurOf 5 0)) (F32.of_int 0)) = true)
    by reflexivity.
  assert (H : Forall succeeded
    (issued (Reference.lockTextureProxy (Reference.blurOf 5 0) Reference.image100
               clip100 (Reference.plainArgs false)) ctx))
    by (vm_compute; repeat constructor).
  destruct (blur1D_single_pass
              Reference.filterBounds Reference.intersect Reference.mapRect
              Reference.isAlphaOnly
              _ _ _ _ _ Hx H) as (_ & Hsample & Hpass & tp & Hr & _ & Hints).
  split; [exact Hsample|]. split; [exact Hpass|].
  exists tp. split; [exact Hr|]. apply (Hints 0 0 100 100). reflexivity.
Defined.

(** Blurriness (20, 0) with mipmaps requested: the 50 x 50 target has
    none, the 100 x 100 target of the scaling pass has them. *)
Lemma first_target_not_mipmapped_witness :
  exists first ok rest,
    issued (Reference.lockTextureProxy (Reference.blurOf 20 0) Reference.image100
              clip100 (Reference.plainArgs true)) ctx = (first, ok) :: rest /\
    rtMipmapped first = false /\
    (ok = true ->
     exists final ok',
       rest = [(final, ok')] /\
       rtMipmapped final = true /\
       sizeOfTarget final = (100, 100)).
Proof.
  assert (H : blur2DOf (Reference.blurOf 20 0) = true \/
              downscales (Reference.blurOf 20 0) = true)
    by (right; reflexivity).
  destruct (first_target_not_mipmapped
              Reference.filterBounds Reference.intersect Reference.mapRect
              Reference.isAlphaOnly
              (Reference.blurOf 20 0) Reference.image100 clip100
              (Reference.plainArgs true) ctx H)
    as (first & ok & rest & Hi & Hm & _ & Hok).
  exists first, ok, rest. split; [exact Hi|]. split; [exact Hm|].
  intros Eok. destruct (Hok Eok) as (_ & final & ok' & Hrest & Hmf & Hsz & _).
  exists final, ok'. split; [exact Hrest|]. split; [exact Hmf | exact Hsz].
Defined.

(* ===================================================================== *)
(** * Properties of GLProgram *)
(* ===================================================================== *)

Module GLProperties.
Import GL.

Lemma cached_test p rt :
  (width (renderTargetState p) =? targetWidth rt)
  && (height (renderTargetState p) =? targetHeight rt)
  && bool_decide (origin (renderTargetState p) = targetOrigin rt) = true
  <-> cached p rt.
Proof.
  unfold cached.
  rewrite !andb_true_iff, !Z.eqb_eq, bool_decide_eq_true. tauto.
Qed.

Lemma GetRTAdjustArray_length w h flipY : length (GetRTAdjustArray w h flipY) = 4%nat.
Proof. unfold GetRTAdjustArray. now destruct flipY. Qed.

Lemma setRenderTargetState_hit name p rt :
  cached p rt -> setRenderTargetState name p rt = p.
Proof.
  intros H. apply cached_test in H. unfold setRenderTargetState. now rewrite H.
Qed.

Lemma setRenderTargetState_miss name p rt :
  ~ cached p rt ->
  setRenderTargetState name p rt =
    {| programId := programId p;
       renderTargetState := stateOf rt;
       uniformBuffer :=
         setData name
           (GetRTAdjustArray (targetWidth rt) (targetHeight rt)
              (bool_decide (targetOrigin rt = BottomLeft)))
           (uniformBuffer p) |}.
Proof.
  intros H. unfold setRenderTargetState.
  destruct (_ && _ && _) eqn:E; [|reflexivity].
  apply cached_test in E. contradiction.
Qed.

(** After a draw the values of its render target are the cached ones. *)
Lemma setRenderTargetState_caches name p rt :
  cached (setRenderTargetState name p rt) rt.
Proof.
  destruct (decide (cached p rt)) as [H|H].
  - now rewrite (setRenderTargetState_hit name p rt H).
  - rewrite (setRenderTargetState_miss name p rt H). now unfold cached.
Qed.

Lemma cached_sameShape p a b : cached p a -> (cached p b <-> sameShape a b).
Proof. unfold cached, sameShape. intuition congruence. Qed.

(** C8. [setRenderTargetState] uploads the RTAdjust uniform exactly when
    the width, height or origin of the render target differ from the
    cached ones. For every program state: with the three values unchanged
    the program (uniform buffer and cached state) is left as it is;
    otherwise one upload of the four floats of [GetRTAdjustArray] is
    appended and the three values are cached; the buffer changes only in
    the second case. For two successive draws with one program: the
    second draw leaves the program as the first left it exactly when its
    render target has the width, height and origin of the first. *)
Theorem setRenderTargetState_dirty_check (name : string) (p : GLProgram)
    (last rt : RenderTarget) :
  (forall q, cached q rt -> setRenderTargetState name q rt = q) /\
  (forall q, ~ cached q rt ->
     uniformBuffer (setRenderTargetState name q rt) =
       uniformBuffer q ++
         [(name, GetRTAdjustArray (targetWidth rt) (targetHeight rt)
                   (bool_decide (targetOrigin rt = BottomLeft)))] /\
     renderTargetState (setRenderTargetState name q rt) = stateOf rt) /\
  (forall q, uniformBuffer (setRenderTargetState name q rt) <> uniformBuffer q ->
             ~ cached q rt) /\
  (let p1 := setRenderTargetState name p last in
   (sameShape last rt <-> setRenderTargetState name p1 rt = p1) /\
   (sameShape last rt <->
      uniformBuffer (setRenderTargetState name p1 rt) = uniformBuffer p1)).
Proof.
  assert (Hgrow : forall q, ~ cached q rt ->
            uniformBuffer (setRenderTargetState name q rt) <> uniformBuffer q).
  { intros q H. rewrite (setRenderTargetState_miss name q rt H). cbn.
    unfold setData. intros Heq. apply (f_equal length) in Heq.
    rewrite length_app in Heq. cbn in Heq. lia. }
  split; [intros q; apply setRenderTargetState_hit|].
  split; [intros q H; now rewrite (setRenderTargetState_miss name q rt H)|].
  split.
  - intros q Hne Hc. apply Hne. now rewrite (setRenderTargetState_hit name q rt Hc).
  - cbv zeta.
    pose proof (setRenderTargetState_caches name p last) as Hlast.
    pose proof (cached_sameShape _ last rt Hlast) as Hiff.
    split; (split; [intros Hs; apply Hiff in Hs;
                    now rewrite (setRenderTargetState_hit name _ rt Hs)|]).
    + intros Heq. apply Hiff.
      destruct (decide (cached (setRenderTargetState name p last) rt)) as [H|H];
        [exact H|]. apply Hgrow in H. now rewrite Heq in H.
    + intros Heq. apply Hiff.
      destruct (decide (cached (setRenderTargetState name p last) rt)) as [H|H];
        [exact H|]. now apply Hgrow in H.
Qed.

End GLProperties.


(* ===================================================================== *)
(** * Properties of Pixmap *)
(* ===================================================================== *)

Module PixmapProperties.
Import PixmapModel.

Section WithImageInfo.

Variable ImageInfo : Type.
Variable isEmpty : ImageInfo -> bool.
Variable emptyInfo : ImageInfo.

Lemma isNull_true p : isNull p = true <-> p = nullptr.
Proof. apply N.eqb_eq. Qed.

Lemma isNull_false p : isNull p = false <-> p <> nullptr.
Proof. apply N.eqb_neq. Qed.


End WithImageInfo.



End PixmapProperties.


(* ===================================================================== *)
(** * Properties of ProgramCache *)
(* ===================================================================== *)

Module ProgramCacheProperties.
Import ProgramCacheModel.

Local Close Scope Z_scope.

Lemma wf_emptyCache : wf emptyCache.
Proof.
  split; cbn.
  - intros k P H. now rewrite lookup_empty in H.
  - intros P H. now apply elem_of_nil in H.
  - constructor.
  - intros P H. now apply elem_of_nil in H.
  - intros P Q H. now apply elem_of_nil in H.
Qed.

Lemma splitLast_None {A} (l : list A) : splitLast l = None -> l = [].
Proof.
  destruct l as [|x l]; [reflexivity|]. cbn.
  destruct (splitLast l) as [[init y]|]; discriminate.
Qed.

Lemma splitLast_Some {A} (l init : list A) (x : A) :
  splitLast l = Some (init, x) -> l = init ++ [x].
Proof.
  revert init x. induction l as [|a l IH]; intros init x; cbn; [discriminate|].
  destruct (splitLast l) as [[init' y]|] eqn:E.
  - intros [= <- <-]. cbn. f_equal. now apply IH.
  - intros [= <- <-]. apply splitLast_None in E. now subst.
Qed.

(** Eviction keeps the invariant. *)
Lemma removeOldestProgram_wf c : wf c -> wf (removeOldestProgram c).
Proof.
  intros [Hmap Hlru Hnd Hcr Hh]. unfold removeOldestProgram.
  destruct (splitLast (programLRU c)) as [[init oldest]|] eqn:E;
    [|now split].
  apply splitLast_Some in E. rewrite E in *.
  apply NoDup_app in Hnd as (Hnd & Hdisj & _).
  assert (Hold : oldest ∉ init).
  { intros Hin. apply (Hdisj _ Hin). now left. }
  split; cbn.
  - intros k P HP. apply lookup_delete_Some in HP as [Hne HP].
    destruct (Hmap _ _ HP) as [Hk Hin]. split; [exact Hk|].
    apply elem_of_app in Hin as [Hin|Hin]; [exact Hin|].
    apply list_elem_of_singleton in Hin. subst. contradiction.
  - intros P Hin. apply lookup_delete_Some. split.
    + intros Heq. apply Hold.
      assert (HP : programMap c !! uniqueKey P = Some P)
        by (apply Hlru, elem_of_app; now left).
      assert (HO : programMap c !! uniqueKey oldest = Some oldest)
        by (apply Hlru, elem_of_app; right; now left).
      rewrite <- Heq, HO in HP. now injection HP as <-.
    + apply Hlru, elem_of_app. now left.
  - exact Hnd.
  - intros P Hin. apply Hcr, elem_of_app. now left.
  - intros P Q HP HQ. apply Hh; apply elem_of_app; now left.
Qed.

(** Induction on a processor tree, with the property known of every
    child. *)
Lemma Processor_nested_ind (P : Processor -> Prop) :
  (forall classID constants children,
     Forall P children -> P (MakeProcessor classID constants children)) ->
  forall p, P p.
Proof.
  intros H. fix IH 1. intros [classID constants children].
  apply H. induction children as [|child children IHc].
  - apply Forall_nil_2.
  - apply Forall_cons_2; [apply IH | exact IHc].
Qed.

(** The keys of as many processors, one after the other, determine the
    processors. *)
Lemma children_keys_inj (ch dh : list Processor) (r r' : BytesKey) :
  Forall Keys.prefixFree ch -> length ch = length dh ->
  flat_map Keys.computeProcessorKey ch ++ r = flat_map Keys.computeProcessorKey dh ++ r' ->
  ch = dh /\ r = r'.
Proof.
  intros Hall. revert dh. induction Hall as [|c ch Hc _ IH]; intros [|d dh] Hlen; try discriminate.
  - cbn. now intros ->.
  - cbn [flat_map]. rewrite <- !app_assoc. intros Heq.
    destruct (Hc _ _ _ Heq) as [-> Hrest].
    injection Hlen as Hlen. destruct (IH _ Hlen Hrest) as [-> ->]. now split.
Qed.

(** Class id, counted constants and counted children: no key of a
    processor is the beginning of the key of another. *)
Lemma computeProcessorKey_prefix_free (p : Processor) : Keys.prefixFree p.
Proof.
  induction p as [i cs ch IH] using Processor_nested_ind.
  intros [j ds dh] r r'. cbn [Keys.computeProcessorKey].
  rewrite <- !app_comm_cons, <- !app_assoc, <- !app_comm_cons.
  intros [= -> Hlen Heq]. apply Nat2N.inj in Hlen.
  apply app_inj_1 in Heq as [-> Heq]; [|exact Hlen].
  injection Heq as Hlen' Heq. apply Nat2N.inj in Hlen'.
  destruct (children_keys_inj _ _ _ _ IH Hlen' Heq) as [-> ->]. now split.
Qed.

(** Key determinism: two pipelines have the same key exactly when their
    processor trees are structurally equal. *)
Lemma computeProgramKey_inj (p q : Pipeline) :
  Keys.computeProgramKey p = Keys.computeProgramKey q <-> sameTrees p q.
Proof.
  split.
  - unfold Keys.computeProgramKey. intros Heq.
    apply computeProcessorKey_prefix_free in Heq as [Hg Heq].
    injection Heq as Hlen Heq. apply Nat2N.inj in Hlen.
    assert (Heq' : flat_map Keys.computeProcessorKey (fragmentProcessors p) ++ []
                   = flat_map Keys.computeProcessorKey (fragmentProcessors q) ++ [])
      by now rewrite !app_nil_r.
    apply children_keys_inj in Heq' as [Hf _]; [now split| |exact Hlen].
    apply Forall_forall. intros x _. apply computeProcessorKey_prefix_free.
  - intros [Hg Hf]. unfold Keys.computeProgramKey. now rewrite Hg, Hf.
Qed.

Section GetProgramProperties.

Variable computeProgramKey : Pipeline -> BytesKey.
Variable createProgram : Pipeline -> bool.
Variable capacity : nat.

Let get := getProgram computeProgramKey createProgram capacity.
Let gets := getPrograms computeProgramKey createProgram capacity.

(** [getProgram] keeps the invariant. *)
Lemma getProgram_wf creator c : wf c -> wf (snd (get creator c)).
Proof.
  intros Hwf. unfold get, getProgram.
  destruct (programMap c !! computeProgramKey creator) as [P|] eqn:Hk.
  - destruct Hwf as [Hmap Hlru Hnd Hcr Hh].
    destruct (Hmap _ _ Hk) as [HkP HinP].
    assert (Hmem : forall Q, Q ∈ P :: filter (fun q => q <> P) (programLRU c)
                             <-> Q ∈ programLRU c).
    { intros Q. rewrite elem_of_cons, list_elem_of_filter.
      destruct (decide (Q = P)) as [->|Hne]; intuition. }
    split; cbn.
    + intros k Q HQ. destruct (Hmap _ _ HQ). split; [assumption|]. now apply Hmem.
    + intros Q HQ. now apply Hlru, Hmem.
    + constructor; [|now apply NoDup_filter].
      rewrite list_elem_of_filter. intuition.
    + intros Q HQ. now apply Hcr, Hmem.
    + intros Q R HQ HR. apply Hh; now apply Hmem.
  - destruct (createProgram creator); [|exact Hwf]. cbn [snd].
    match goal with
    | |- wf (if _ then removeOldestProgram ?c' else _) =>
        assert (Hc' : wf c'); [|destruct (_ <? _); [now apply removeOldestProgram_wf|exact Hc']]
    end.
    destruct Hwf as [Hmap Hlru Hnd Hcr Hh].
    set (P := {| programId := created c; uniqueKey := computeProgramKey creator |}).
    assert (Hfresh : P ∉ programLRU c).
    { intros Hin. apply Hcr in Hin. cbn in Hin. lia. }
    split; cbn.
    + intros k Q HQ. apply lookup_insert_Some in HQ as [[<- <-]|[Hne HQ]].
      * split; [reflexivity|]. now left.
      * destruct (Hmap _ _ HQ). split; [assumption|]. now right.
    + intros Q HQ. apply elem_of_cons in HQ as [->|HQ].
      * apply lookup_insert_eq.
      * rewrite lookup_insert_ne; [now apply Hlru|].
        intros Heq. apply Hlru in HQ. rewrite <- Heq in HQ. congruence.
    + now constructor.
    + intros Q HQ. apply elem_of_cons in HQ as [->|HQ]; cbn; [lia|].
      apply Hcr in HQ. lia.
    + intros Q R HQ HR Hid.
      apply elem_of_cons in HQ as [->|HQ]; apply elem_of_cons in HR as [->|HR].
      * reflexivity.
      * apply Hcr in HR. cbn in Hid. lia.
      * apply Hcr in HQ. cbn in Hid. lia.
      * now apply Hh.
Qed.

(** Every cache reached from the empty one satisfies the invariant. *)
Lemma getPrograms_wf creators c :
  wf c -> wf (getPrograms computeProgramKey createProgram capacity creators c).
Proof.
  revert c. induction creators as [|creator creators IH]; intros c Hwf; cbn.
  - exact Hwf.
  - apply IH. now apply getProgram_wf.
Qed.

(** With room for one program at least, a program that [getProgram]
    returns is in the cache afterwards, under the key of its creator. *)
Lemma getProgram_cached creator c P :
  0 < capacity -> wf c ->
  fst (get creator c) = Some P ->
  programMap (snd (get creator c)) !! computeProgramKey creator = Some P.
Proof.
  intros Hcap Hwf. unfold get, getProgram.
  destruct (programMap c !! computeProgramKey creator) as [Q|] eqn:Hk.
  - cbn. now intros [= <-].
  - destruct (createProgram creator); [|discriminate]. cbn [fst snd].
    intros [= <-].
    destruct (_ <? _) eqn:Hover; [|apply lookup_insert_eq].
    unfold removeOldestProgram. cbn [programLRU programMap].
    match goal with |- context [splitLast ?l] => destruct (splitLast l) as [[init oldest]|] eqn:E end;
      [|apply lookup_insert_eq].
    cbn [programMap]. apply splitLast_Some in E.
    apply Nat.ltb_lt in Hover. cbn [programLRU length] in Hover.
    destruct init as [|first init].
    + cbn in E. injection E as _ E. symmetry in E.
      destruct (programLRU c); [cbn in Hover; lia|discriminate].
    + cbn in E. injection E as _ E.
      assert (Hin : oldest ∈ programLRU c)
        by (rewrite E; apply elem_of_app; right; now left).
      apply (wf_lru _ Hwf) in Hin.
      rewrite lookup_delete_ne; [apply lookup_insert_eq|].
      intros Heq. rewrite Heq in Hin. congruence.
Qed.

(** Eviction adds nothing to the list. *)
Lemma removeOldestProgram_sub c P :
  P ∈ programLRU (removeOldestProgram c) -> P ∈ programLRU c.
Proof.
  unfold removeOldestProgram.
  destruct (splitLast (programLRU c)) as [[init oldest]|] eqn:E; [|auto].
  apply splitLast_Some in E. rewrite E. cbn. intros H. apply elem_of_app. now left.
Qed.

(** A program that [getProgram] returns remembers the key of its creator. *)
Lemma getProgram_key creator c P :
  wf c -> fst (get creator c) = Some P -> uniqueKey P = computeProgramKey creator.
Proof.
  intros Hwf. unfold get, getProgram.
  destruct (programMap c !! computeProgramKey creator) as [Q|] eqn:Hk.
  - cbn. intros [= <-]. now destruct (wf_map _ Hwf _ _ Hk).
  - destruct (createProgram creator); [|discriminate]. now intros [= <-].
Qed.

(** A program of the cache is found again under its key, and nothing is
    created. *)
Lemma getProgram_hit creator c P :
  wf c -> P ∈ programLRU c -> uniqueKey P = computeProgramKey creator ->
  fst (get creator c) = Some P /\ created (snd (get creator c)) = created c.
Proof.
  intros Hwf Hin Hk. apply (wf_lru _ Hwf) in Hin. rewrite Hk in Hin.
  unfold get, getProgram. rewrite Hin. now split.
Qed.

(** Whoever is in the cache after a call was there before, or is the
    program the call has created. *)
Lemma getProgram_members creator c Q :
  wf c ->
  Q ∈ programLRU (snd (get creator c)) ->
  Q ∈ programLRU c \/
  (programMap c !! computeProgramKey creator = None /\
   Q = {| programId := created c; uniqueKey := computeProgramKey creator |}).
Proof.
  intros Hwf. unfold get, getProgram.
  destruct (programMap c !! computeProgramKey creator) as [P|] eqn:Hk.
  - cbn. rewrite elem_of_cons, list_elem_of_filter. intros [->|[_ H]]; [|now left].
    left. now destruct (wf_map _ Hwf _ _ Hk).
  - destruct (createProgram creator); [|now left]. cbn [snd].
    intros H.
    assert (H' : Q ∈ {| programId := created c; uniqueKey := computeProgramKey creator |}
                     :: programLRU c).
    { destruct (_ <? _); [apply removeOldestProgram_sub in H|]; exact H. }
    apply elem_of_cons in H' as [->|H']; [right; now split | now left].
Qed.

(** The backend's count of programs never goes down. *)
Lemma getProgram_created creator c : created c <= created (snd (get creator c)).
Proof.
  unfold get, getProgram.
  destruct (programMap c !! computeProgramKey creator); [cbn; lia|].
  destruct (createProgram creator); [|cbn; lia]. cbn [snd].
  destruct (_ <? _); [|cbn; lia].
  unfold removeOldestProgram. destruct (splitLast _) as [[init oldest]|]; cbn; lia.
Qed.

(** The handle of a program stays its own through a call. *)
Lemma getProgram_ownsHandle creator c P :
  wf c -> ownsHandle P c -> ownsHandle P (snd (get creator c)).
Proof.
  intros Hwf [Hlt Hown]. split.
  - pose proof (getProgram_created creator c). lia.
  - intros Q HQ Hid. apply (getProgram_members _ _ _ Hwf) in HQ as [HQ|[_ ->]].
    + now apply Hown.
    + cbn in Hid. lia.
Qed.

(** ... and through any number of calls. *)
Lemma getPrograms_ownsHandle creators c P :
  wf c -> ownsHandle P c -> ownsHandle P (gets creators c).
Proof.
  revert c. induction creators as [|creator creators IH]; intros c Hwf Hown; cbn.
  - exact Hown.
  - apply IH; [now apply getProgram_wf | now apply getProgram_ownsHandle].
Qed.

(** A program that [getProgram] returns owns its handle afterwards. *)
Lemma getProgram_result_ownsHandle creator c P :
  wf c -> fst (get creator c) = Some P -> ownsHandle P (snd (get creator c)).
Proof.
  intros Hwf. unfold get, getProgram.
  destruct (programMap c !! computeProgramKey creator) as [Q|] eqn:Hk.
  - cbn. intros [= <-]. destruct (wf_map _ Hwf _ _ Hk) as [_ Hin]. split.
    + now apply (wf_created _ Hwf).
    + intros R HR. apply elem_of_cons in HR as [->|HR]; [reflexivity|].
      apply list_elem_of_filter in HR as [_ HR]. intros Hid.
      now apply (wf_handle _ Hwf).
  - destruct (createProgram creator); [|discriminate]. cbn [fst snd].
    intros [= <-].
    match goal with
    | |- ownsHandle ?P (if _ then removeOldestProgram ?c' else _) =>
        assert (Hc' : ownsHandle P c')
    end.
    { split; cbn; [lia|]. intros R HR Hid.
      apply elem_of_cons in HR as [->|HR]; [reflexivity|].
      apply (wf_created _ Hwf) in HR. lia. }
    destruct (_ <? _); [|exact Hc'].
    destruct Hc' as [Hlt Hown]. split.
    + unfold removeOldestProgram. cbn [programLRU].
      destruct (splitLast _) as [[init oldest]|]; exact Hlt.
    + intros R HR. apply removeOldestProgram_sub in HR. now apply Hown.
Qed.

(** A program returned under the handle of a program that owns it is that
    program, and it was in the cache. *)
Lemma getProgram_same_handle creator c P Q :
  wf c -> ownsHandle P c ->
  fst (get creator c) = Some Q -> programId Q = programId P ->
  Q = P /\ P ∈ programLRU c.
Proof.
  intros Hwf [Hlt Hown]. unfold get, getProgram.
  destruct (programMap c !! computeProgramKey creator) as [R|] eqn:Hk.
  - cbn. intros [= <-] Hid. destruct (wf_map _ Hwf _ _ Hk) as [_ Hin].
    assert (R = P) by now apply Hown. now subst.
  - destruct (createProgram creator); [|discriminate]. cbn [fst].
    intros [= <-]. cbn. lia.
Qed.

(** With room for one program at least, the program that [getProgram]
    returns is the most recently used one. *)
Lemma getProgram_front creator c P :
  0 < capacity -> wf c ->
  fst (get creator c) = Some P -> usedWithin 0 P (snd (get creator c)).
Proof.
  intros Hcap Hwf. unfold get, getProgram.
  destruct (programMap c !! computeProgramKey creator) as [Q|] eqn:Hk.
  - cbn. intros [= <-]. exists [], (filter (fun q => q <> Q) (programLRU c)). now split.
  - destruct (createProgram creator); [|discriminate]. cbn [fst snd].
    intros [= <-]. destruct (_ <? _) eqn:Hover.
    + unfold removeOldestProgram. cbn [programLRU].
      match goal with |- context [splitLast ?l] =>
        destruct (splitLast l) as [[init oldest]|] eqn:E end.
      * apply splitLast_Some in E. apply Nat.ltb_lt in Hover. cbn [programLRU length] in Hover.
        destruct init as [|first init].
        -- cbn in E. injection E as _ E. rewrite E in Hover. cbn in Hover. lia.
        -- cbn in E. injection E as <- E. exists [], init. now split.
      * eexists [], _. now split.
    + eexists [], _. now split.
Qed.

(** One call moves a program one place back at most, and evicts it only
    from the last place of a full cache. *)
Lemma getProgram_usedWithin creator c P n :
  wf c -> S n < capacity -> usedWithin n P c ->
  usedWithin (S n) P (snd (get creator c)).
Proof.
  intros Hwf Hcap (front & back & Hlru & Hlen). unfold get, getProgram.
  destruct (programMap c !! computeProgramKey creator) as [Q|] eqn:Hk.
  - cbn [snd programLRU]. rewrite Hlru.
    destruct (decide (Q = P)) as [->|Hne].
    + exists [], (filter (fun q => q <> P) (front ++ P :: back)). split; [reflexivity|cbn; lia].
    + rewrite filter_app, filter_cons_True by congruence.
      exists (Q :: filter (fun q => q <> Q) front), (filter (fun q => q <> Q) back).
      split; [reflexivity|]. cbn.
      pose proof (length_filter (fun q => q <> Q) front). lia.
  - destruct (createProgram creator);
      [|exists front, back; split; [exact Hlru | lia]]. cbn [snd].
    set (new := {| programId := created c; uniqueKey := computeProgramKey creator |}).
    destruct (_ <? _) eqn:Hover.
    + unfold removeOldestProgram. cbn [programLRU].
      destruct (splitLast (new :: programLRU c)) as [[init oldest]|] eqn:E.
      * apply splitLast_Some in E. apply Nat.ltb_lt in Hover.
        cbn [programLRU length] in Hover. rewrite Hlru in E, Hover.
        destruct (decide (back = [])) as [->|Hback].
        -- rewrite length_app in Hover. cbn in Hover. lia.
        -- destruct (exists_last Hback) as (back' & y & ->).
           change (new :: front ++ P :: back' ++ [y])
             with ((new :: front) ++ (P :: back') ++ [y]) in E.
           rewrite app_assoc in E. apply app_inj_tail in E as [<- _].
           exists (new :: front), back'. split; [reflexivity|cbn; lia].
      * exists (new :: front), back. cbn [programLRU]. rewrite Hlru.
        split; [reflexivity|cbn; lia].
    + exists (new :: front), back. cbn [programLRU]. rewrite Hlru.
      split; [reflexivity|cbn; lia].
Qed.

(** With fewer calls than the cache has room, the program is still there. *)
Lemma getPrograms_usedWithin creators c P n :
  wf c -> n + length creators < capacity -> usedWithin n P c ->
  usedWithin (n + length creators) P (gets creators c).
Proof.
  revert c n. induction creators as [|creator creators IH]; intros c n Hwf Hcap Hin.
  - cbn. now rewrite Nat.add_0_r.
  - cbn [length] in *. replace (n + S (length creators)) with (S n + length creators) by lia.
    apply IH; [now apply getProgram_wf | lia |].
    apply getProgram_usedWithin; [exact Hwf | lia | exact Hin].
Qed.

Lemma usedWithin_cached n P c : usedWithin n P c -> P ∈ programLRU c.
Proof.
  intros (front & back & -> & _). apply elem_of_app. right. now left.
Qed.

End GetProgramProperties.




End ProgramCacheProperties.


(* ===================================================================== *)
(** * Further properties of the blur filter *)
(* ===================================================================== *)

(** A filter that [Blur] returns for two numbers has the blurriness it was
    given, and one of the two is above zero. *)
Lemma Blur_some_positive (bx by_ : float) (tm : TileMode) (f : GaussianBlurImageFilter) :
  Blur bx by_ tm = Some f -> bx <> S754_nan -> by_ <> S754_nan ->
  blurrinessX f = bx /\ blurrinessY f = by_ /\
  F32.gtb bx (F32.of_int 0) || F32.gtb by_ (F32.of_int 0) = true.
Proof.
  unfold Blur, F32.ltb, F32.eqb, F32.gtb, SFltb, SFeqb.
  change (F32.of_int 0) with (S754_zero false).
  destruct bx as [[]|[]| |[] mx ex], by_ as [[]|[]| |[] my ey]; cbn;
    intros H; try discriminate H; injection H as <-; cbn; intros; auto; congruence.
Qed.

Section BlurCoverage.

Variable filterBounds : GaussianBlurImageFilter -> Rect -> Rect.
Variable intersect : Rect -> Rect -> Rect.
Variable mapRect : Matrix -> Rect -> Rect.
Variable isAlphaOnly : TextureProxy -> bool.

Let lock := lockTextureProxy filterBounds intersect mapRect isAlphaOnly.

(** Splits a run of [lockTextureProxy] into its paths. *)
Ltac lock_step c :=
  cbn [fst snd requests tasks backing negb andb];
  match goal with
  | |- context [backing c ?rt] =>
      let E := fresh "Ealloc" in destruct (backing c rt) eqn:E
  | |- context [if F32.gtb ?a ?b then _ else _] =>
      let E := fresh "Egt" in destruct (F32.gtb a b) eqn:E
  | |- context [if F32.leb ?a ?b then _ else _] =>
      let E := fresh "Ele" in destruct (F32.leb a b) eqn:E
  end.

Ltac lock_unfold :=
  unfold lock, issued, performed, lockTextureProxy, ScaleTexture, Blur1D,
    MakeFallback, fillRTWithFP, bind, ret.

Ltac lock_paths f c :=
  lock_unfold;
  destruct (blur2DOf f) eqn:E2D;
  repeat lock_step c;
  cbn [fst snd requests tasks backing negb andb];
  rewrite <- ?app_assoc, ?drop_app_length, ?drop_all.

(** X1. Whatever path [lockTextureProxy] takes, a texture that it returns
    is the texture of the render target that was requested last, which
    the device backed; that render target was requested with mipmaps
    exactly when the caller asked for them, also on the 1D path without
    downscale, where it is the first and only one. *)
Theorem lockTextureProxy_result_format f source clip args c tp :
  fst (lock f source clip args c) = Some tp ->
  exists rt,
    last (issued (lock f source clip args) c) = Some (rt, true) /\
    tp = asTextureProxy rt /\
    rtMipmapped rt = mipmapped args.
Proof.
  lock_paths f c; intros H; try discriminate H; injection H as <-;
    eexists; (split; [reflexivity|]); (split; [reflexivity|]);
    cbn; rewrite ?andb_true_r; reflexivity.
Qed.

(** X2. Every render target that [lockTextureProxy] requests, on every
    path and in [ScaleTexture] too, has one sample per pixel, origin
    top-left and an approximate fit, and the outcome of a request is what
    the device answers for it. The first target and the target of the
    vertical pass are requested alpha-only exactly when the source image
    is; the target of [ScaleTexture] is requested alpha-only exactly when
    the texture of the first target says it is. *)
Theorem lockTextureProxy_request_format f source clip args c :
  Forall (fun q => rtSampleCount (fst q) = 1 /\
                   rtOrigin (fst q) = TopLeft /\
                   rtBackingFit (fst q) = Approx /\
                   snd q = backing c (fst q))
         (issued (lock f source clip args) c) /\
  exists first ok rest,
    issued (lock f source clip args) c = (first, ok) :: rest /\
    rtAlphaOnly first = imageAlphaOnly source /\
    Forall (fun q => rtAlphaOnly (fst q)
                     = if blur2DOf f then imageAlphaOnly source
                       else isAlphaOnly (asTextureProxy first))
           rest.
Proof.
  lock_paths f c;
    (split;
     [rewrite ?Forall_app, ?Forall_cons, ?Forall_nil;
      cbn [fst snd rtSampleCount rtOrigin rtBackingFit];
      repeat split; first [reflexivity | congruence]
     |do 3 eexists; cbn [app]; (split; [reflexivity|]); (split; [reflexivity|]);
      rewrite ?Forall_cons, ?Forall_nil; cbn [fst rtAlphaOnly];
      repeat split; reflexivity]).
Qed.

(** X3. [lockTextureProxy] adds to the context and changes nothing that
    was there: the requests and the fills of earlier work are kept in
    front of its own. It requests one or two render targets and issues at
    most one fill per request; every fill draws into a render target that
    was requested in this run and backed by the device, with the render
    flags of the caller. *)
Theorem lockTextureProxy_fills_backed_targets f source clip args c :
  requests (snd (lock f source clip args c))
    = requests c ++ issued (lock f source clip args) c /\
  tasks (snd (lock f source clip args c))
    = tasks c ++ performed (lock f source clip args) c /\
  (1 <= length (issued (lock f source clip args) c) <= 2)%nat /\
  (length (performed (lock f source clip args) c)
     <= length (issued (lock f source clip args) c))%nat /\
  Forall (fun t => In (fillTarget t, true) (issued (lock f source clip args) c) /\
                   fillFlags t = renderFlags args)
         (performed (lock f source clip args) c).
Proof.
  lock_paths f c; rewrite ?app_nil_r;
    (split; [reflexivity|]); (split; [reflexivity|]);
    (split; [cbn; lia|]); (split; [cbn; lia|]);
    rewrite ?Forall_app, ?Forall_cons, ?Forall_nil;
    cbn [fillTarget fillFlags In app];
    intuition auto.
Qed.


(** X5. When the first target of a 2D blur is backed and the second is
    not, null is returned although the horizontal pass into the first
    target has been issued; no vertical pass is issued. *)
Theorem blur2D_second_allocation_failure f source clip args c first final :
  blur2DOf f = true ->
  issued (lock f source clip args) c = [(first, true); (final, false)] ->
  fst (lock f source clip args c) = None /\
  map fillTarget (performed (lock f source clip args) c) = [first] /\
  map blurDirection (performed (lock f source clip args) c) = [Some Horizontal].
Proof.
  intros H2D. revert H2D.
  lock_paths f c; intros H2D; try discriminate H2D;
    intros Hi; try discriminate Hi;
    injection Hi as <- _; repeat split; reflexivity.
Qed.

(** X6. The number of blur passes is never more than the number of axes
    to blur (two for a 2D blur, one when exactly one blurriness is above
    zero, none when neither is), and it is that number when the
    allocations succeed. A filter with no blurriness above zero issues no
    blur pass. *)
Theorem blur_pass_count f source clip args c :
  let passes := omap blurDirection (performed (lock f source clip args) c) in
  let axes :=
    if blur2DOf f then 2%nat
    else if F32.gtb (blurrinessX f) (F32.of_int 0)
            || F32.gtb (blurrinessY f) (F32.of_int 0) then 1%nat
    else 0%nat in
  (length passes <= axes)%nat /\
  (Forall succeeded (issued (lock f source clip args) c) -> length passes = axes).
Proof.
  cbv zeta.
  lock_paths f c;
    rewrite ?Forall_app, ?Forall_cons, ?Forall_nil; unfold succeeded; cbn [snd];
    cbn [orb]; (split; [cbn; lia|]);
    intros Hall; try (exfalso; intuition congruence); reflexivity.
Qed.

(** X7. A filter that [ImageFilter::Blur] returns for two numbers (not
    NaN) blurs: when its allocations succeed, [lockTextureProxy] returns a
    texture and the first fill it issues is a blur pass, horizontal when
    the horizontal blurriness is above zero and vertical otherwise. *)
Theorem Blur_filter_blurs bx by_ tm f source clip args c :
  Blur bx by_ tm = Some f -> bx <> S754_nan -> by_ <> S754_nan ->
  Forall succeeded (issued (lock f source clip args) c) ->
  exists tp t rest,
    fst (lock f source clip args c) = Some tp /\
    performed (lock f source clip args) c = t :: rest /\
    blurDirection t
      = Some (if F32.gtb bx (F32.of_int 0) then Horizontal else Vertical).
Proof.
  intros HB Hx Hy.
  destruct (Blur_some_positive bx by_ tm f HB Hx Hy) as (Ex & Ey & Hpos).
  clear HB Hx Hy. subst bx by_. revert Hpos.
  assert (H2 : blur2DOf f = true -> F32.gtb (blurrinessX f) (F32.of_int 0) = true)
    by (unfold blur2DOf; intros H; apply andb_true_iff in H; tauto).
  revert H2.
  lock_paths f c; intros H2 Hpos;
    rewrite ?Forall_app, ?Forall_cons, ?Forall_nil; unfold succeeded; cbn [snd];
    intros Hall; try (exfalso; intuition congruence);
    try rewrite (H2 eq_refl);
    try discriminate Hpos;
    do 3 eexists; repeat split; reflexivity.
Qed.

End BlurCoverage.


(** A horizontal blur of blurriness 5 with mipmaps requested. *)
Lemma lockTextureProxy_result_format_witness :
  exists tp rt,
    fst (Reference.lockTextureProxy (Reference.blurOf 5 0) Reference.image100
           clip100 (Reference.plainArgs true) ctx) = Some tp /\
    tp = asTextureProxy rt /\ rtMipmapped rt = true.
Proof.
  destruct (lockTextureProxy_result_format
              Reference.filterBounds Reference.intersect Reference.mapRect
              Reference.isAlphaOnly
              (Reference.blurOf 5 0) Reference.image100 clip100
              (Reference.plainArgs true) ctx _ eq_refl) as (rt & _ & Htp & Hm).
  eexists. exists rt. split; [reflexivity|]. split; [exact Htp | exact Hm].
Defined.


(** Blurriness (5, 5) on a device that backs the first target only. *)
Lemma blur2D_second_allocation_failure_witness :
  fst (Reference.lockTextureProxy (Reference.blurOf 5 5) Reference.image100
         clip100 (Reference.plainArgs false)
         (Reference.freshContext (Reference.firstOnly 1))) = None /\
  map blurDirection
    (performed (Reference.lockTextureProxy (Reference.blurOf 5 5) Reference.image100
                  clip100 (Reference.plainArgs false))
               (Reference.freshContext (Reference.firstOnly 1)))
  = [Some Horizontal].
Proof.
  assert (H2 : blur2DOf (Reference.blurOf 5 5) = true) by reflexivity.
  destruct (blur2D_second_allocation_failure
              Reference.filterBounds Reference.intersect Reference.mapRect
              Reference.isAlphaOnly
              (Reference.blurOf 5 5) Reference.image100 clip100
              (Reference.plainArgs false)
              (Reference.freshContext (Reference.firstOnly 1)) _ _ H2 eq_refl)
    as (Hr & _ & Hd).
  split; [exact Hr | exact Hd].
Defined.

(** [Blur (0, 7)]: the filter exists and its first pass is vertical. *)
Lemma Blur_filter_blurs_witness :
  exists f t rest,
    Blur (F32.of_int 0) (F32.of_int 7) Clamp = Some f /\
    performed (Reference.lockTextureProxy f Reference.image100 clip100
                 (Reference.plainArgs false)) ctx = t :: rest /\
    blurDirection t = Some Vertical.
Proof.
  assert (HB : Blur (F32.of_int 0) (F32.of_int 7) Clamp
               = Some {| blurrinessX := F32.of_int 0; blurrinessY := F32.of_int 7;
                         tileMode := Clamp |}) by reflexivity.
  assert (Hx : F32.of_int 0 <> S754_nan) by discriminate.
  assert (Hy : F32.of_int 7 <> S754_nan) by discriminate.
  assert (H : Forall succeeded
    (issued (Reference.lockTextureProxy
               {| blurrinessX := F32.of_int 0; blurrinessY := F32.of_int 7;
                  tileMode := Clamp |} Reference.image100
               clip100 (Reference.plainArgs false)) ctx))
    by (vm_compute; repeat constructor).
  destruct (Blur_filter_blurs
              Reference.filterBounds Reference.intersect Reference.mapRect
              Reference.isAlphaOnly
              _ _ _ _ _ _ _ _ HB Hx Hy H) as (tp & t & rest & _ & Hp & Hd).
  exists {| blurrinessX := F32.of_int 0; blurrinessY := F32.of_int 7; tileMode := Clamp |},
    t, rest.
  split; [exact HB|]. split; [exact Hp | exact Hd].
Defined.

(** Blurriness 3 = 1.5 * 2^1 along x and 4.5 along y, written with their
    mantissa and exponent. *)
Lemma onFilterBounds_normal_witness :
  onFilterBounds {| blurrinessX := S754_finite false 12582912 (-22);
                    blurrinessY := S754_finite false 9437184 (-21);
                    tileMode := Clamp |} clip100
  = RectOps.makeOutset clip100 (F32.of_int 6) (F32.of_int 9).
Proof.
  rewrite (onFilterBounds_normal false false 12582912 9437184 (-22) (-21) Clamp clip100);
    [reflexivity | reflexivity | lia | lia | reflexivity | lia | lia].
Defined.

(* ===================================================================== *)
(** * Properties of the sampler uniforms, texture bindings and uploads *)
(* ===================================================================== *)

Module GLCallsProperties.
Import GL GLCalls GLProperties.

Section Calls.

Variable TextureSampler : Type.
Variable SamplerState : Type.
Variable Pipeline : Type.
Variable UNUSED_UNIFORM : Z.
Variable RTAdjustName : string.
Variable getUniforms : Pipeline -> UniformBuffer -> UniformBuffer.
Variable getSamplers : Pipeline -> list (SamplerInfo TextureSampler SamplerState).

Let setup := setupSamplerUniforms TextureSampler SamplerState UNUSED_UNIFORM.
Let update := updateUniformsAndTextureBindings TextureSampler SamplerState Pipeline
                RTAdjustName getUniforms getSamplers.

Lemma assignUnits_In (start : nat) (ss : list GLUniform) (loc u : Z) :
  In (uniform1i loc u : GLCall TextureSampler SamplerState) (assignUnits TextureSampler SamplerState UNUSED_UNIFORM start ss) <->
  exists i s, ss !! i = Some s /\ location s = loc /\ loc <> UNUSED_UNIFORM /\
              u = static_cast_int (start + i).
Proof.
  revert start. induction ss as [|s ss IH]; intros start; cbn [assignUnits].
  - split; [intros []|]. intros (i & s & H & _). now rewrite lookup_nil in H.
  - rewrite in_app_iff, IH. split.
    + intros [H|(i & s' & Hl & Hloc & Hu & Hv)].
      * destruct (Z.eqb_spec UNUSED_UNIFORM (location s)) as [E|E]; [destruct H|].
        destruct H as [H|[]]. injection H as <- <-.
        exists 0%nat, s. rewrite Nat.add_0_r. repeat split; congruence.
      * exists (S i), s'. rewrite Nat.add_succ_r. repeat split; assumption.
    + intros (i & s' & Hl & Hloc & Hu & Hv). destruct i as [|i].
      * left. injection Hl as ->. rewrite Nat.add_0_r in Hv. subst.
        destruct (Z.eqb_spec UNUSED_UNIFORM (location s')) as [E|E]; [congruence|].
        now left.
      * right. exists i, s'. rewrite Nat.add_succ_r in Hv. repeat split; assumption.
Qed.

Lemma static_cast_int_small (i : nat) :
  Z.of_nat i < 2 ^ 31 -> static_cast_int i = Z.of_nat i.
Proof.
  intros H. unfold static_cast_int.
  rewrite Z.mod_small; lia.
Qed.

Lemma bindTextures_units (start : Z) (infos : list (SamplerInfo TextureSampler SamplerState)) :
  omap (boundUnit TextureSampler SamplerState) (bindTextures TextureSampler SamplerState start infos)
  = imap (fun k info => (start + Z.of_nat k, sampler _ _ info, state _ _ info)) infos.
Proof.
  revert start. induction infos as [|info infos IH]; intros start; [reflexivity|].
  cbn [bindTextures omap list_omap boundUnit imap]. rewrite IH. f_equal.
  - f_equal. f_equal. lia.
  - apply imap_ext. intros k x _. cbn. f_equal. f_equal. lia.
Qed.

(** X9. [setupSamplerUniforms] selects the program and then gives every
    sampler uniform that is in use the texture unit of its position in the
    list: positions of unused uniforms are skipped, not reassigned. *)
Theorem sampler_unit_is_position (p : GLProgram) (ss : list GLUniform) (loc u : Z) :
  head (setup p ss) = Some (useProgram (programId p)) /\
  (In (uniform1i loc u) (setup p ss) <->
   exists i s, ss !! i = Some s /\ location s = loc /\ loc <> UNUSED_UNIFORM /\
               u = static_cast_int i) /\
  (forall i, Z.of_nat i < 2 ^ 31 -> static_cast_int i = Z.of_nat i).
Proof.
  split; [reflexivity|]. split; [|apply static_cast_int_small].
  unfold setup, setupSamplerUniforms. cbn [In].
  rewrite assignUnits_In. cbn [Nat.add]. split.
  - intros [H|H]; [discriminate H|exact H].
  - intros H. now right.
Qed.

(** X10. [updateUniformsAndTextureBindings] uploads the uniform buffer once,
    after the pipeline has written its uniforms, and then binds the
    textures of the pipeline's samplers to the units 0, 1, 2, ... in the
    order of the samplers, one bind per sampler. *)
Theorem textures_bound_in_order (p : GLProgram) (rt : RenderTarget) (pl : Pipeline) :
  head (snd (update p rt pl)) = Some (uploadToGPU (uniformBuffer (fst (update p rt pl)))) /\
  uniformBuffer (fst (update p rt pl))
    = getUniforms pl (uniformBuffer (setRenderTargetState RTAdjustName p rt)) /\
  omap (boundUnit TextureSampler SamplerState) (snd (update p rt pl))
    = imap (fun k info => (Z.of_nat k, sampler _ _ info, state _ _ info)) (getSamplers pl) /\
  length (snd (update p rt pl)) = S (length (getSamplers pl)).
Proof.
  split; [reflexivity|]. split; [reflexivity|].
  unfold update, updateUniformsAndTextureBindings. cbn [snd omap list_omap boundUnit].
  split.
  - rewrite bindTextures_units. apply imap_ext. intros k x _. reflexivity.
  - cbn [length]. f_equal.
    rewrite <- (length_imap (fun k info => (0 + Z.of_nat k, sampler _ _ info, state _ _ info))).
    rewrite <- bindTextures_units.
    generalize 0. induction (getSamplers pl) as [|x l IH]; intros z; [reflexivity|].
    cbn. f_equal. apply IH.
Qed.

(** X11. The two halves agree: the sampler uniform at position [i] of the
    program is given the unit [i], and the texture of the pipeline's
    sampler at position [i] is bound to the unit [i]. *)
Theorem sampler_reads_its_texture (p q : GLProgram) (rt : RenderTarget) (pl : Pipeline)
    (ss : list GLUniform) (i : nat) (s : GLUniform)
    (info : SamplerInfo TextureSampler SamplerState) :
  Z.of_nat i < 2 ^ 31 ->
  ss !! i = Some s -> location s <> UNUSED_UNIFORM ->
  getSamplers pl !! i = Some info ->
  In (uniform1i (location s) (Z.of_nat i)) (setup p ss) /\
  omap (boundUnit TextureSampler SamplerState) (snd (update q rt pl)) !! i
    = Some (Z.of_nat i, sampler _ _ info, state _ _ info).
Proof.
  intros Hi Hs Hused Hinfo. split.
  - unfold setup, setupSamplerUniforms. right. apply assignUnits_In.
    exists i, s. cbn [Nat.add]. rewrite (static_cast_int_small i Hi). auto.
  - unfold update, updateUniformsAndTextureBindings. cbn [snd omap list_omap boundUnit].
    rewrite bindTextures_units, list_lookup_imap, Hinfo. reflexivity.
Qed.

(** X12. After a draw on a render target, any number of further draws on
    render targets of the same width, height and origin leave the program
    as it is: nothing more is uploaded. *)
Theorem same_shape_draws_upload_nothing (p : GLProgram) (rt : RenderTarget)
    (rts : list RenderTarget) :
  Forall (sameShape rt) rts ->
  fold_left (setRenderTargetState RTAdjustName) rts
    (setRenderTargetState RTAdjustName p rt)
  = setRenderTargetState RTAdjustName p rt.
Proof.
  pose proof (setRenderTargetState_caches RTAdjustName p rt) as Hc.
  revert Hc. generalize (setRenderTargetState RTAdjustName p rt). intros q Hq.
  induction 1 as [|r rts Hr _ IH]; [reflexivity|].
  cbn [fold_left]. rewrite (setRenderTargetState_hit RTAdjustName q r); [exact IH|].
  now apply (cached_sameShape q rt r Hq).
Qed.

Lemma lastUpload_setData (name : string) (v : list float) (b : UniformBuffer) :
  lastUpload name (setData name v b) = Some v.
Proof.
  unfold lastUpload, setData. rewrite omap_app. cbn [omap list_omap fst snd].
  rewrite String.eqb_refl. apply last_snoc.
Qed.

(** X13. The dirty check keeps the uniform in step with the render target:
    if the latest RTAdjust upload is that of the cached state, or the
    cached state differs from the render target, then after
    [setRenderTargetState] the latest RTAdjust upload is the array of the
    render target's width, height and origin. *)
Theorem RTAdjust_upload_matches_target (p : GLProgram) (rt : RenderTarget) :
  uploaded RTAdjustName p \/ ~ cached p rt ->
  uploaded RTAdjustName (setRenderTargetState RTAdjustName p rt) /\
  lastUpload RTAdjustName (uniformBuffer (setRenderTargetState RTAdjustName p rt))
  = Some (GetRTAdjustArray (targetWidth rt) (targetHeight rt)
            (bool_decide (targetOrigin rt = BottomLeft))).
Proof.
  intros H. destruct (decide (cached p rt)) as [Hc|Hc].
  - rewrite (setRenderTargetState_hit RTAdjustName p rt Hc).
    destruct H as [H|H]; [|contradiction]. split; [exact H|].
    unfold uploaded in H. destruct Hc as (Hw & Hh & Ho).
    now rewrite Hw, Hh, Ho in H.
  - rewrite (setRenderTargetState_miss RTAdjustName p rt Hc).
    unfold uploaded. cbn [uniformBuffer renderTargetState stateOf width height origin].
    now rewrite lastUpload_setData.
Qed.

End Calls.

(** A program with three sampler uniforms, the second unused, and a
    pipeline with three samplers. *)
Lemma sampler_reads_its_texture_witness :
  let ss := [ {| location := 4 |}; {| location := -1 |}; {| location := 6 |} ] in
  let infos := [ {| sampler := 10%N; state := 0%N |};
                 {| sampler := 11%N; state := 0%N |};
                 {| sampler := 12%N; state := 1%N |} ] in
  let p := {| programId := 3; renderTargetState := {| width := 0; height := 0; origin := TopLeft |};
              uniformBuffer := [] |} in
  let rt := {| targetWidth := 100; targetHeight := 50; targetOrigin := TopLeft |} in
  In (uniform1i (location {| location := 6 |}) 2)
     (setupSamplerUniforms N N (-1) p ss) /\
  omap (boundUnit N N)
    (snd (updateUniformsAndTextureBindings N N (list (SamplerInfo N N)) "RTAdjust"
            (fun _ b => b) (fun pl => pl) p rt infos)) !! 2%nat
  = Some (2, 12%N, 1%N).
Proof.
  cbv zeta.
  refine (sampler_reads_its_texture N N (list (SamplerInfo N N)) (-1) "RTAdjust"
            (fun _ b => b) (fun pl => pl) _ _ _ _ _ 2%nat {| location := 6 |}
            {| sampler := 12%N; state := 1%N |} _ _ _ _);
    [reflexivity | reflexivity | discriminate | reflexivity].
Defined.

(** Three draws on 100 x 50 targets: one upload. *)
Lemma same_shape_draws_upload_nothing_witness :
  let p := {| programId := 3; renderTargetState := {| width := 0; height := 0; origin := TopLeft |};
              uniformBuffer := [] |} in
  let rt := {| targetWidth := 100; targetHeight := 50; targetOrigin := BottomLeft |} in
  Forall (sameShape rt) [rt; rt] /\
  length (uniformBuffer (fold_left (setRenderTargetState "RTAdjust") [rt; rt]
                           (setRenderTargetState "RTAdjust" p rt))) = 1%nat.
Proof.
  cbv zeta.
  assert (H : Forall (sameShape {| targetWidth := 100; targetHeight := 50;
                                   targetOrigin := BottomLeft |})
                [ {| targetWidth := 100; targetHeight := 50; targetOrigin := BottomLeft |};
                  {| targetWidth := 100; targetHeight := 50; targetOrigin := BottomLeft |} ])
    by (repeat constructor).
  split; [exact H|].
  rewrite (same_shape_draws_upload_nothing "RTAdjust" _ _ _ H). reflexivity.
Defined.

(** A fresh program drawing on a 100 x 50 target. *)
Lemma RTAdjust_upload_matches_target_witness :
  let p := {| programId := 3; renderTargetState := {| width := 0; height := 0; origin := TopLeft |};
              uniformBuffer := [] |} in
  let rt := {| targetWidth := 100; targetHeight := 50; targetOrigin := TopLeft |} in
  ~ cached p rt /\
  lastUpload "RTAdjust" (uniformBuffer (setRenderTargetState "RTAdjust" p rt))
  = Some [F32.div (F32.of_int 2) (F32.of_int 100); F32.neg (F32.of_int 1);
          F32.div (F32.of_int 2) (F32.of_int 50); F32.neg (F32.of_int 1)].
Proof.
  cbv zeta.
  assert (H : ~ cached {| programId := 3;
                          renderTargetState := {| width := 0; height := 0; origin := TopLeft |};
                          uniformBuffer := [] |}
                       {| targetWidth := 100; targetHeight := 50; targetOrigin := TopLeft |})
    by (intros (Hw & _); discriminate Hw).
  split; [exact H|].
  exact (proj2 (RTAdjust_upload_matches_target "RTAdjust" _ _ (or_intror H))).
Defined.

End GLCallsProperties.

(* ===================================================================== *)
(** * Properties of the pixel memory operations *)
(* ===================================================================== *)

Module PixelMemoryProperties.
Import PixmapModel PixelMemory.
Local Open Scope N_scope.

Lemma inRange_true start n a : inRange start n a = true <-> start <= a < start + n.
Proof. unfold inRange. rewrite andb_true_iff, N.leb_le, N.ltb_lt. tauto. Qed.

Lemma inRange_false start n a : inRange start n a = false <-> ~ (start <= a < start + n).
Proof. rewrite <- inRange_true. destruct (inRange start n a); intuition congruence. Qed.

Lemma inRows_S_iff base rb trim k a :
  inRows base rb trim (S k) a <->
  (base <= a < base + trim) \/ inRows (base + rb) rb trim k a.
Proof.
  unfold inRows. split.
  - intros (i & j & Hi & Hj & ->). destruct i as [|i].
    + left. lia.
    + right. exists i, j. repeat split; lia.
  - intros [H|(i & j & Hi & Hj & ->)].
    + exists 0%nat, (a - base). repeat split; lia.
    + exists (S i), j. repeat split; lia.
Qed.

Lemma copyRows_frame k src srcRB dst dstRB trim m a :
  ~ inRows dst dstRB trim k a ->
  copyRows k src srcRB dst dstRB trim m a = m a.
Proof.
  revert src dst m. induction k as [|k IH]; intros src dst m H; [reflexivity|].
  cbn [copyRows]. unfold AddOffset. rewrite inRows_S_iff in H.
  rewrite IH by tauto. unfold memcpy.
  destruct (inRange dst trim a) eqn:E; [|reflexivity].
  apply inRange_true in E. tauto.
Qed.

Lemma copyRows_row k src srcRB dst dstRB trim m (i : nat) (j : N) :
  trim <= dstRB ->
  (forall a, inRows src srcRB trim k a -> ~ inRows dst dstRB trim k a) ->
  (i < k)%nat -> j < trim ->
  copyRows k src srcRB dst dstRB trim m (dst + N.of_nat i * dstRB + j)
  = m (src + N.of_nat i * srcRB + j).
Proof.
  intros Hrb. revert src dst m i.
  induction k as [|k IH]; intros src dst m i Hdis Hi Hj; [lia|].
  cbn [copyRows]. unfold AddOffset. destruct i as [|i].
  - rewrite copyRows_frame.
    + unfold memcpy.
      replace (inRange dst trim (dst + N.of_nat 0 * dstRB + j)) with true
        by (symmetry; apply inRange_true; lia).
      f_equal. lia.
    + intros (i' & j' & _ & Hj' & Heq). lia.
  - replace (dst + N.of_nat (S i) * dstRB + j) with (dst + dstRB + N.of_nat i * dstRB + j) by lia.
    rewrite IH; [| |lia|assumption].
    + unfold memcpy.
      replace (src + srcRB + N.of_nat i * srcRB + j) with (src + N.of_nat (S i) * srcRB + j) by lia.
      destruct (inRange dst trim _) eqn:E; [|reflexivity].
      apply inRange_true in E. exfalso.
      apply (Hdis (src + N.of_nat (S i) * srcRB + j)).
      * exists (S i), j. repeat split; lia.
      * apply inRows_S_iff. now left.
    + intros a Hs Hd. apply (Hdis a); apply inRows_S_iff; now right.
Qed.

(** The bytes the fast path of [CopyRectMemory] writes are those of the
    rows. *)
Lemma inRange_inRows dst trim (rows : nat) a :
  dst <= a < dst + trim * N.of_nat rows <-> inRows dst trim trim rows a.
Proof.
  unfold inRows. split.
  - intros H. assert (Ht : trim <> 0) by nia.
    exists (N.to_nat ((a - dst) / trim)), ((a - dst) mod trim).
    pose proof (N.div_mod (a - dst) trim Ht) as Hdm.
    pose proof (N.mod_upper_bound (a - dst) trim Ht) as Hm.
    assert (Hq : (a - dst) / trim < N.of_nat rows).
    { apply N.Div0.div_lt_upper_bound. lia. }
    rewrite N2Nat.id. repeat split; [lia|lia|]. nia.
  - intros (i & j & Hi & Hj & ->). nia.
Qed.

Lemma CopyRectMemory_frame (src srcRB dst dstRB trimRowBytes rowCount : N)
    (m : Memory) (a : N) :
  trimRowBytes * rowCount < 2 ^ 64 ->
  ~ inRows dst dstRB trimRowBytes (N.to_nat rowCount) a ->
  CopyRectMemory src srcRB dst dstRB trimRowBytes rowCount m a = m a.
Proof.
  intros Hsize Ha. unfold CopyRectMemory.
  destruct ((trimRowBytes =? dstRB) && (trimRowBytes =? srcRB)) eqn:E.
  - apply andb_true_iff in E. destruct E as [Ed Es].
    apply N.eqb_eq in Ed, Es. subst dstRB srcRB.
    unfold size_mul. rewrite N.mod_small by exact Hsize. unfold memcpy.
    destruct (inRange dst _ a) eqn:Er; [|reflexivity].
    apply inRange_true in Er. exfalso. apply Ha. apply inRange_inRows.
    now rewrite N2Nat.id.
  - now apply copyRows_frame.
Qed.

(** X14. [CopyRectMemory] copies [rowCount] rows of [trimRowBytes] bytes:
    byte [j] of row [i] of the destination receives byte [j] of row [i]
    of the source, where the rows of the destination are [dstRB] bytes
    apart and those of the source [srcRB]; no other byte changes, so the
    padding between the rows of the destination is kept. This holds on
    both paths, the single [memcpy] and the row loop, when the rows of the
    destination do not overlap one another nor the rows of the source and
    the byte count fits a [size_t]. *)
Theorem CopyRectMemory_copies_rows (src srcRB dst dstRB trimRowBytes rowCount : N)
    (m : Memory) :
  trimRowBytes <= dstRB ->
  trimRowBytes * rowCount < 2 ^ 64 ->
  (forall a, inRows src srcRB trimRowBytes (N.to_nat rowCount) a ->
             ~ inRows dst dstRB trimRowBytes (N.to_nat rowCount) a) ->
  (forall (i : nat) (j : N), (i < N.to_nat rowCount)%nat -> j < trimRowBytes ->
     CopyRectMemory src srcRB dst dstRB trimRowBytes rowCount m
       (dst + N.of_nat i * dstRB + j)
     = m (src + N.of_nat i * srcRB + j)) /\
  (forall a, ~ inRows dst dstRB trimRowBytes (N.to_nat rowCount) a ->
     CopyRectMemory src srcRB dst dstRB trimRowBytes rowCount m a = m a).
Proof.
  intros Hrb Hsize Hdis. split; [|intros a Ha; now apply CopyRectMemory_frame].
  unfold CopyRectMemory.
  destruct ((trimRowBytes =? dstRB) && (trimRowBytes =? srcRB)) eqn:E.
  - apply andb_true_iff in E. destruct E as [Ed Es].
    apply N.eqb_eq in Ed, Es. subst dstRB srcRB.
    unfold size_mul. rewrite N.mod_small by exact Hsize.
    intros i j Hi Hj. unfold memcpy.
    replace (inRange dst (trimRowBytes * rowCount) _) with true.
    + f_equal. lia.
    + symmetry. apply inRange_true.
      assert (Hin : inRows dst trimRowBytes trimRowBytes (N.to_nat rowCount)
                      (dst + N.of_nat i * trimRowBytes + j))
        by (exists i, j; repeat split; lia).
      apply inRange_inRows in Hin. now rewrite N2Nat.id in Hin.
  - intros i j Hi Hj. now apply copyRows_row.
Qed.

Lemma clearRows_frame k pixels rb trim m a :
  ~ inRows pixels rb trim k a -> clearRows k pixels rb trim m a = m a.
Proof.
  revert pixels m. induction k as [|k IH]; intros pixels m H; [reflexivity|].
  cbn [clearRows]. rewrite inRows_S_iff in H.
  rewrite IH by tauto. unfold memset.
  destruct (inRange pixels trim a) eqn:E; [|reflexivity].
  apply inRange_true in E. tauto.
Qed.

Lemma clearRows_zero_or_kept k pixels rb trim m a :
  clearRows k pixels rb trim m a = Byte.x00 \/ clearRows k pixels rb trim m a = m a.
Proof.
  revert pixels m. induction k as [|k IH]; intros pixels m; [now right|].
  cbn [clearRows].
  destruct (IH (pixels + rb) (memset pixels Byte.x00 trim m)) as [H|H]; [now left|].
  rewrite H. unfold memset. destruct (inRange pixels trim a); auto.
Qed.

Lemma clearRows_zero k pixels rb trim m a :
  inRows pixels rb trim k a -> clearRows k pixels rb trim m a = Byte.x00.
Proof.
  revert pixels m. induction k as [|k IH]; intros pixels m.
  - intros (i & j & Hi & _). lia.
  - rewrite inRows_S_iff. cbn [clearRows]. intros [H|H]; [|now apply IH].
    destruct (clearRows_zero_or_kept k (pixels + rb) rb trim
                (memset pixels Byte.x00 trim m) a) as [E|E]; [exact E|].
    rewrite E. unfold memset.
    replace (inRange pixels trim a) with true; [reflexivity|].
    symmetry. now apply inRange_true.
Qed.

Section PixelAccess.

Variable ImageInfo : Type.
Variable isEmpty : ImageInfo -> bool.
Variable emptyInfo : ImageInfo.
Variable width : ImageInfo -> Z.
Variable height : ImageInfo -> Z.
Variable rowBytes : ImageInfo -> N.
Variable minRowBytes : ImageInfo -> N.
Variable bytesPerPixel : ImageInfo -> N.
Variable byteSize : ImageInfo -> N.
Variable colorType : ImageInfo -> ColorType.
Variable alphaType : ImageInfo -> AlphaType.
Variable makeIntersect : ImageInfo -> Z -> Z -> Z -> Z -> ImageInfo.
Variable makeWH : ImageInfo -> Z -> Z -> ImageInfo.
Variable computeOffset : ImageInfo -> pointer -> Z -> Z -> pointer.
Variable skcms_Transform :
  pointer -> skcms_PixelFormat -> skcms_AlphaFormat ->
  pointer -> skcms_PixelFormat -> skcms_AlphaFormat -> N -> Memory -> Memory.

Let write := writePixels ImageInfo isEmpty width height rowBytes minRowBytes
               colorType alphaType makeIntersect makeWH computeOffset skcms_Transform.
Let read := readPixels ImageInfo isEmpty width height rowBytes minRowBytes
              colorType alphaType makeIntersect makeWH computeOffset skcms_Transform.
Let clr := clear ImageInfo width height rowBytes minRowBytes bytesPerPixel byteSize.

(** X15. A pixmap made or reset from constant pixels, from a constant
    bitmap or by the plain [reset] cannot be written through:
    [writePixels] and [clear] return false and leave the memory as it
    is, whatever the arguments. *)
Theorem read_only_pixmap_rejects_writes (e : Establish ImageInfo) (p : Pixmap ImageInfo)
    (srcInfo : ImageInfo) (srcPixels : pointer) (dstX dstY : Z) (m : Memory) :
  readOnly ImageInfo e ->
  _writablePixels (establish isEmpty emptyInfo e p) = nullptr /\
  write (establish isEmpty emptyInfo e p) srcInfo srcPixels dstX dstY m = Some (false, m) /\
  clr (establish isEmpty emptyInfo e p) m = (false, m).
Proof.
  intros Hro.
  assert (H : _writablePixels (establish isEmpty emptyInfo e p) = nullptr).
  { destruct e as [i px|i px|[[r|]]|[[r|]]| |i px|i px|[[r|]]|[[r|]]];
      try contradiction Hro; cbn [establish];
      unfold Pixmap_const, Pixmap_constBitmap, reset_const, reset_constBitmap, reset,
        defaultPixmap; cbn [bitmapPixelRef];
      repeat match goal with
             | |- context [if ?b then _ else _] => destruct b
             end; reflexivity. }
  split; [exact H|].
  unfold write, clr, writePixels, clear. rewrite H. split; reflexivity.
Qed.

(** X16. After a constructor or a [reset] that was given an empty info, a
    null pointer or a bitmap whose pixels cannot be locked, and after the
    plain [reset], the pixmap gives no access to pixels: [readPixels],
    [writePixels] and [clear] return false and leave the memory as it
    is. *)
Theorem degenerate_pixmap_rejects_access (e : Establish ImageInfo) (p : Pixmap ImageInfo)
    (i : ImageInfo) (pixels : pointer) (x y : Z) (m : Memory) :
  degenerate isEmpty e ->
  read (establish isEmpty emptyInfo e p) i pixels x y m = Some (false, m) /\
  write (establish isEmpty emptyInfo e p) i pixels x y m = Some (false, m) /\
  clr (establish isEmpty emptyInfo e p) m = (false, m).
Proof.
  intros Hd.
  assert (H : _pixels (establish isEmpty emptyInfo e p) = nullptr /\
              _writablePixels (establish isEmpty emptyInfo e p) = nullptr).
  { destruct e as [j px|j px|[[r|]]|[[r|]]| |j px|j px|[[r|]]|[[r|]]];
      cbn [establish degenerate bitmapPixelRef] in *;
      unfold Pixmap_const, Pixmap_writable, Pixmap_constBitmap, Pixmap_bitmap,
        reset_const, reset_writable, reset_constBitmap, reset_bitmap, reset,
        defaultPixmap; cbn [bitmapPixelRef _pixels _writablePixels];
      try destruct (isEmpty j) eqn:Ei; cbn [orb andb negb];
      try destruct (isNull px) eqn:Epx; cbn [orb andb negb];
      try destruct (isNull (lockPixels r)) eqn:El;
      try destruct (isNull (lockWritablePixels r)) eqn:Ew;
      cbn [_pixels _writablePixels];
      rewrite ?PixmapProperties.isNull_true, ?PixmapProperties.isNull_false in *;
      intuition congruence. }
  destruct H as [Hp Hw].
  unfold read, write, clr, readPixels, writePixels, clear. rewrite Hp, Hw.
  repeat split; reflexivity.
Qed.

(** X17. [writePixels] between infos of one colour type and one alpha type
    changes no byte outside the rows it writes: the rows of the
    intersection's height, each of the minimal row size, that start at the
    offset of (dstX, dstY) in the writable pixels and are [rowBytes]
    apart. So it writes neither into the padding of the rows nor outside
    the rectangle, whether it returns true or false. *)
Theorem writePixels_keeps_other_bytes (p : Pixmap ImageInfo) (srcInfo : ImageInfo)
    (srcPixels : pointer) (dstX dstY : Z) (m m' : Memory) (r : bool) (a : N) :
  let imageInfo :=
    makeIntersect srcInfo (- dstX) (- dstY) (width (_info p)) (height (_info p)) in
  let dstInfo := makeWH (_info p) (width imageInfo) (height imageInfo) in
  let dstPixels := computeOffset (_info p) (_writablePixels p) dstX dstY in
  let rowCount := size_of_int (height dstInfo) in
  write p srcInfo srcPixels dstX dstY m = Some (r, m') ->
  colorType imageInfo = colorType dstInfo ->
  alphaType imageInfo = alphaType dstInfo ->
  minRowBytes dstInfo * rowCount < 2 ^ 64 ->
  ~ inRows dstPixels (rowBytes dstInfo) (minRowBytes dstInfo) (N.to_nat rowCount) a ->
  m' a = m a.
Proof.
  cbv zeta. unfold write, writePixels, ConvertPixels.
  intros H Hc Ha Hsize Hout.
  destruct (isNull (_writablePixels p) || isNull srcPixels);
    [injection H as _ <-; reflexivity|].
  destruct (isEmpty _); [injection H as _ <-; reflexivity|].
  rewrite Hc, Ha, !bool_decide_eq_true_2 in H by reflexivity. cbn [andb] in H.
  injection H as _ <-. now apply CopyRectMemory_frame.
Qed.

(** X18. [clear] on a writable pixmap returns true and zeroes the pixels.
    When the rows are padded ([rowBytes] differs from [minRowBytes]), the
    bytes that become zero are the first [width * bytesPerPixel] bytes of
    each of the [height] rows, rows being [rowBytes] apart: every other
    byte, the padding included, is kept. When the rows are not padded, the
    bytes that become zero are the [byteSize] bytes from the first pixel
    on. *)
Theorem clear_zeroes_pixel_rows (p : Pixmap ImageInfo) (m : Memory) (a : N) :
  _writablePixels p <> nullptr ->
  let trimRowBytes :=
    size_mul (size_of_int (width (_info p))) (bytesPerPixel (_info p)) in
  let rows := inRows (_writablePixels p) (rowBytes (_info p)) trimRowBytes
                (Z.to_nat (height (_info p))) in
  fst (clr p m) = true /\
  (rowBytes (_info p) <> minRowBytes (_info p) ->
     (rows a -> snd (clr p m) a = Byte.x00) /\
     (~ rows a -> snd (clr p m) a = m a)) /\
  (rowBytes (_info p) = minRowBytes (_info p) ->
     snd (clr p m) a
     = if inRange (_writablePixels p) (byteSize (_info p)) a then Byte.x00 else m a).
Proof.
  intros Hw. cbv zeta. unfold clr, clear.
  replace (isNull (_writablePixels p)) with false
    by (symmetry; now apply N.eqb_neq).
  destruct (N.eqb_spec (rowBytes (_info p)) (minRowBytes (_info p))) as [E|E]; cbn [fst snd].
  - split; [reflexivity|]. split; [intros H; contradiction|]. intros _. reflexivity.
  - split; [reflexivity|]. split; [|intros H; contradiction]. intros _. split.
    + apply clearRows_zero.
    + apply clearRows_frame.
Qed.

End PixelAccess.

(** Two rows of three bytes, from rows four bytes apart at address 0 to
    rows eight bytes apart at address 100. *)
Lemma CopyRectMemory_copies_rows_witness :
  let m : Memory := fun a => if a <? 50 then Byte.x2a else Byte.x00 in
  CopyRectMemory 0 4 100 8 3 2 m (100 + 8 + 2) = Byte.x2a /\
  CopyRectMemory 0 4 100 8 3 2 m (100 + 3) = Byte.x00.
Proof.
  cbv zeta.
  assert (H1 : 3 <= 8) by lia.
  assert (H2 : 3 * 2 < 2 ^ 64) by reflexivity.
  assert (H3 : forall a, inRows 0 4 3 (N.to_nat 2) a -> ~ inRows 100 8 3 (N.to_nat 2) a).
  { intros a (i & j & Hi & Hj & ->) (i' & j' & Hi' & Hj' & Heq).
    change (N.to_nat 2) with 2%nat in *. lia. }
  destruct (CopyRectMemory_copies_rows 0 4 100 8 3 2
              (fun a => if a <? 50 then Byte.x2a else Byte.x00) H1 H2 H3) as [Hrow Hframe].
  split.
  - exact (Hrow 1%nat 2 ltac:(change (N.to_nat 2) with 2%nat; lia) ltac:(lia)).
  - apply (Hframe (100 + 3)).
    intros (i & j & Hi & Hj & Heq). change (N.to_nat 2) with 2%nat in Hi. lia.
Defined.

Import PixelScenario.

(** A pixmap made from 2 x 2 constant pixels at address 4096. *)
Lemma read_only_pixmap_rejects_writes_witness :
  writePixels (establish Size_isEmpty Size_empty (NewConst Size info2x2 4096)
                 (defaultPixmap Size_empty)) info2x2 8192 0 0 ones
  = Some (false, ones).
Proof.
  exact (proj1 (proj2 (read_only_pixmap_rejects_writes Size Size_isEmpty Size_empty
           sizeWidth sizeHeight rowBytes minRowBytes bytesPerPixel byteSize
           colorType alphaType makeIntersect makeWH computeOffset skcms_Transform
           (NewConst Size info2x2 4096) (defaultPixmap Size_empty)
           info2x2 8192 0 0 ones I))).
Defined.

(** A pixmap made from writable pixels and an empty info. *)
Lemma degenerate_pixmap_rejects_access_witness :
  readPixels (establish Size_isEmpty Size_empty (NewWritable Size Size_empty 4096)
                (defaultPixmap Size_empty)) info2x2 8192 0 0 ones
  = Some (false, ones).
Proof.
  exact (proj1 (degenerate_pixmap_rejects_access Size Size_isEmpty Size_empty
           sizeWidth sizeHeight rowBytes minRowBytes bytesPerPixel byteSize
           colorType alphaType makeIntersect makeWH computeOffset skcms_Transform
           (NewWritable Size Size_empty 4096) (defaultPixmap Size_empty)
           info2x2 8192 0 0 ones (or_introl eq_refl))).
Defined.

(** Writing a 2 x 2 image into a writable 2 x 2 pixmap at address 4096:
    the rows are the 8 bytes from 4096 and the 8 bytes from 4108; the byte
    at 4104 is padding. *)
Lemma writePixels_keeps_other_bytes_witness :
  exists m',
    writePixels (establish Size_isEmpty Size_empty (NewWritable Size info2x2 4096)
                   (defaultPixmap Size_empty)) info2x2 8192 0 0 ones
    = Some (true, m') /\
    m' 4104 = Byte.x01.
Proof.
  assert (Hout : ~ inRows 4096 12 8 2 4104)
    by (intros (i & j & Hi & Hj & Heq); lia).
  eexists. split; [reflexivity|].
  refine (writePixels_keeps_other_bytes Size Size_isEmpty
            sizeWidth sizeHeight rowBytes minRowBytes
            colorType alphaType makeIntersect makeWH computeOffset skcms_Transform
            (establish Size_isEmpty Size_empty (NewWritable Size info2x2 4096)
               (defaultPixmap Size_empty))
            info2x2 8192 0 0 ones _ true 4104 eq_refl eq_refl eq_refl eq_refl Hout).
Defined.

(** Clearing a writable 2 x 2 pixmap at address 4096: the first byte of
    the second row becomes zero, the padding byte at 4104 is kept. *)
Lemma clear_zeroes_pixel_rows_witness :
  let p := establish Size_isEmpty Size_empty (NewWritable Size info2x2 4096)
             (defaultPixmap Size_empty) in
  snd (clear p ones) 4108 = Byte.x00 /\ snd (clear p ones) 4104 = Byte.x01.
Proof.
  cbv zeta.
  assert (Hw : _writablePixels
                 (establish Size_isEmpty Size_empty (NewWritable Size info2x2 4096)
                    (defaultPixmap Size_empty)) <> nullptr) by discriminate.
  assert (Hp : rowBytes info2x2 <> minRowBytes info2x2) by discriminate.
  assert (Hin : inRows 4096 12 8 2 4108)
    by (exists 1%nat, 0; repeat split; lia).
  assert (Hout : ~ inRows 4096 12 8 2 4104)
    by (intros (i & j & Hi & Hj & Heq); lia).
  split.
  - destruct (clear_zeroes_pixel_rows Size sizeWidth sizeHeight rowBytes minRowBytes
                bytesPerPixel byteSize _ ones 4108 Hw) as (_ & Hrows & _).
    exact (proj1 (Hrows Hp) Hin).
  - destruct (clear_zeroes_pixel_rows Size sizeWidth sizeHeight rowBytes minRowBytes
                bytesPerPixel byteSize _ ones 4104 Hw) as (_ & Hrows & _).
    exact (proj2 (Hrows Hp) Hout).
Defined.

End PixelMemoryProperties.

(* ===================================================================== *)
(** * Properties of the matrix type mask *)
(* ===================================================================== *)

Module MatrixValuesProperties.
Import MatrixValues.

Lemma get_outside (m : Matrix) (j : Z) : ~ (0 <= j < 6) -> get m j = None.
Proof.
  intros H. destruct j as [|p|p]; [lia| |reflexivity].
  do 3 (try destruct p as [p|p|]); try reflexivity; exfalso; lia.
Qed.

Section WithComputeTypeMask.

Variable computeTypeMask : Matrix -> Z.

Let type m := fst (getType computeTypeMask m).

Lemma getType_range (m : Matrix) : 0 <= type m < 16.
Proof.
  unfold type, getType. cbn [fst].
  change 0xF with (Z.ones 4). rewrite Z.land_ones by lia.
  apply Z.mod_pos_bound. lia.
Qed.

(** X19. The three classifications are nested for every matrix: an
    identity is a translation, and a translation is a scale-translation;
    the type that [getType] returns has the public bits only. *)
Theorem matrix_type_hierarchy (m : Matrix) :
  0 <= type m < 16 /\
  (fst (isIdentity computeTypeMask m) = true ->
   fst (isTranslate computeTypeMask m) = true) /\
  (fst (isTranslate computeTypeMask m) = true ->
   fst (isScaleTranslate computeTypeMask m) = true).
Proof.
  pose proof (getType_range m) as Hr. split; [exact Hr|].
  unfold isIdentity, isTranslate, isScaleTranslate. unfold type in Hr.
  destruct (getType computeTypeMask m) as [t m']. cbn [fst] in *.
  assert (Ht : t = 0 \/ t = 1 \/ t = 2 \/ t = 3 \/ t = 4 \/ t = 5 \/ t = 6 \/ t = 7 \/
               t = 8 \/ t = 9 \/ t = 10 \/ t = 11 \/ t = 12 \/ t = 13 \/ t = 14 \/ t = 15)
    by lia.
  split; intros H;
    repeat (destruct Ht as [-> | Ht]; [first [reflexivity | discriminate H]|]);
    subst t; first [reflexivity | discriminate H].
Qed.

(** X20. After [setScaleTranslate] the type of the matrix is known, so
    that [getType] leaves the matrix as it is and does not compute the
    type again. The matrix is a scale-translation; it is a translation
    exactly when both scale factors equal 1, and the identity exactly when
    in addition both translations equal 0. The six values read back as
    the arguments, with zero skew. *)
Theorem setScaleTranslate_classification (m : Matrix) (sx sy tx ty : float) :
  let m' := setScaleTranslate m sx sy tx ty in
  getType computeTypeMask m' = (type m', m') /\
  Z.land (typeMask m') UnknownMask = 0 /\
  fst (isScaleTranslate computeTypeMask m') = true /\
  fst (isTranslate computeTypeMask m')
    = F32.eqb sx (F32.of_int 1) && F32.eqb sy (F32.of_int 1) /\
  fst (isIdentity computeTypeMask m')
    = F32.eqb sx (F32.of_int 1) && F32.eqb sy (F32.of_int 1)
      && F32.eqb tx (F32.of_int 0) && F32.eqb ty (F32.of_int 0) /\
  map (get m') [SCALE_X; SKEW_X; TRANS_X; SKEW_Y; SCALE_Y; TRANS_Y]
    = [Some sx; Some (F32.of_int 0); Some tx; Some (F32.of_int 0); Some sy; Some ty].
Proof.
  cbv zeta. unfold type, isScaleTranslate, isTranslate, isIdentity, getType,
    setScaleTranslate, neb.
  destruct (F32.eqb sx (F32.of_int 1)), (F32.eqb sy (F32.of_int 1)),
    (F32.eqb tx (F32.of_int 0)), (F32.eqb ty (F32.of_int 0)),
    (F32.eqb sx (F32.of_int 0)), (F32.eqb sy (F32.of_int 0));
    repeat split; reflexivity.
Qed.

(** X21. [set] stores the value at an index from 0 to 5 and [get] reads it
    back; the other five values are kept. The type becomes unknown: the
    matrix is no longer trivially the identity, and the next [getType]
    computes the type from the values. Outside 0..5 there is no value. *)
Theorem set_get_round_trip (m : Matrix) (index : Z) (value : float) :
  0 <= index < 6 ->
  exists m',
    set m index value = Some m' /\
    get m' index = Some value /\
    (forall j, j <> index -> get m' j = get m j) /\
    isTriviallyIdentity m' = false /\
    getType computeTypeMask m'
      = (Z.land (computeTypeMask m') 0xF, setTypeMask m' (computeTypeMask m')).
Proof.
  intros Hi.
  assert (H : index = 0 \/ index = 1 \/ index = 2 \/ index = 3 \/ index = 4 \/ index = 5)
    by lia.
  destruct H as [-> | [-> | [-> | [-> | [-> | ->]]]]];
    (eexists; split; [reflexivity|]); (split; [reflexivity|]);
    (split; [intros j Hj; destruct (Z_lt_le_dec j 0) as [Hlo|Hlo];
             [rewrite !get_outside by lia; reflexivity|];
             destruct (Z_lt_le_dec j 6) as [Hhi|Hhi];
             [|rewrite !get_outside by lia; reflexivity];
             assert (Hc : j = 0 \/ j = 1 \/ j = 2 \/ j = 3 \/ j = 4 \/ j = 5) by lia;
             destruct Hc as [-> | [-> | [-> | [-> | [-> | ->]]]]];
             first [reflexivity | contradiction Hj; reflexivity]|]);
    split; reflexivity.
Qed.

(** X22. A matrix that is trivially the identity is the identity, and
    finding that out does not compute its type. *)
Theorem isTriviallyIdentity_sound (m : Matrix) :
  isTriviallyIdentity m = true ->
  isIdentity computeTypeMask m = (true, m).
Proof.
  unfold isTriviallyIdentity, isIdentity, getType.
  destruct (Z.land (typeMask m) UnknownMask =? 0); cbn [negb]; [|discriminate].
  now intros ->.
Qed.

(** X23. [updateTranslateMask] sets the translate bit of the mask exactly
    when a translation differs from 0, and keeps every other bit and the
    six values. *)
Theorem updateTranslateMask_bits (m : Matrix) (n : Z) :
  0 <= n ->
  Z.testbit (typeMask (updateTranslateMask m)) n
    = (if n =? 0
       then neb (transX m) (F32.of_int 0) || neb (transY m) (F32.of_int 0)
       else Z.testbit (typeMask m) n) /\
  (forall j, get (updateTranslateMask m) j = get m j).
Proof.
  intros Hn. unfold updateTranslateMask, orTypeMask, clearTypeMask.
  destruct (neb (transX m) _ || neb (transY m) _); cbn [typeMask setTypeMask Matrix_of];
    (split; [|reflexivity]).
  - rewrite Z.lor_spec. destruct (Z.eqb_spec n 0) as [->|Hne].
    + now rewrite orb_true_r.
    + replace (Z.testbit TranslateMask n) with false; [apply orb_false_r|].
      symmetry. change TranslateMask with (2 ^ 0). apply Z.pow2_bits_false. lia.
  - rewrite Z.land_spec, Z.lnot_spec by exact Hn. destruct (Z.eqb_spec n 0) as [->|Hne].
    + apply andb_false_r.
    + replace (Z.testbit TranslateMask n) with false; [apply andb_true_r|].
      symmetry. change TranslateMask with (2 ^ 0). apply Z.pow2_bits_false. lia.
Qed.

End WithComputeTypeMask.

(** Replacing the horizontal translation of the identity. *)
Lemma set_get_round_trip_witness :
  exists m',
    set Matrix_default TRANS_X (F32.of_int 5) = Some m' /\
    get m' TRANS_X = Some (F32.of_int 5) /\
    get m' SCALE_Y = Some (F32.of_int 1) /\
    isTriviallyIdentity m' = false.
Proof.
  destruct (set_get_round_trip (fun _ => 1) Matrix_default TRANS_X (F32.of_int 5))
    as (m' & Hset & Hget & Hother & Htriv & _); [unfold TRANS_X; lia|].
  exists m'. split; [exact Hset|]. split; [exact Hget|].
  split; [|exact Htriv]. rewrite (Hother SCALE_Y) by discriminate. reflexivity.
Defined.

(** The default matrix. *)
Lemma isTriviallyIdentity_sound_witness :
  isTriviallyIdentity Matrix_default = true /\
  isIdentity (fun _ => AffineMask) Matrix_default = (true, Matrix_default).
Proof.
  split; [reflexivity|].
  exact (isTriviallyIdentity_sound (fun _ => AffineMask) Matrix_default eq_refl).
Defined.

(** A scale matrix whose horizontal translation was set to 5 through
    [set]: the translate bit is set, the unknown bit is kept. *)
Lemma updateTranslateMask_bits_witness :
  let m := MakeAll (F32.of_int 2) (F32.of_int 0) (F32.of_int 5)
                   (F32.of_int 0) (F32.of_int 2) (F32.of_int 0) in
  Z.testbit (typeMask (updateTranslateMask m)) 0 = true /\
  Z.testbit (typeMask (updateTranslateMask m)) 7 = true.
Proof.
  cbv zeta. split.
  - exact (proj1 (updateTranslateMask_bits _ 0 ltac:(lia))).
  - exact (proj1 (updateTranslateMask_bits _ 7 ltac:(lia))).
Defined.

End MatrixValuesProperties.

(* ===================================================================== *)
(** * Properties of RuntimeDrawTask *)
(* ===================================================================== *)

Module RuntimeDrawProperties.
Import RuntimeDraw.

Section Task.

Variable RenderTarget : Type.
Variable Processor : Type.
Variable Program : Type.
Variable BackendTexture : Type.
Variable BackendRenderTarget : Type.
Variable Point : Type.
Variable getTexture : TextureProxy -> option Texture.
Variable getRenderTarget : RenderTargetProxy -> option RenderTarget.
Variable begin : option RenderTarget -> bool.
Variable TextureEffect_Make : TextureProxy -> option Processor.
Variable asTexture : option RenderTarget -> option Texture.
Variable getBackendTexture : Texture -> BackendTexture.
Variable getBackendRenderTarget : RenderTarget -> BackendRenderTarget.
Variable getProgram : option Program.
Variable onDraw : Program -> list BackendTexture -> BackendRenderTarget -> Point -> bool.

Local Abbreviation Ev :=
  (Event RenderTarget Processor Program BackendTexture BackendRenderTarget Point).
Local Abbreviation W :=
  (World RenderTarget Processor Program BackendTexture BackendRenderTarget Point).
Let flat := GetFlatTexture RenderTarget Processor Program BackendTexture
              BackendRenderTarget Point getTexture getRenderTarget begin
              TextureEffect_Make asTexture.
Let flatten := flattenInputs RenderTarget Processor Program BackendTexture
                 BackendRenderTarget Point getTexture getRenderTarget begin
                 TextureEffect_Make asTexture.
Let exec := execute RenderTarget Processor Program BackendTexture
              BackendRenderTarget Point getTexture getRenderTarget begin
              TextureEffect_Make asTexture getBackendTexture getBackendRenderTarget
              getProgram onDraw.

(** An event of the render pass, as opposed to the program cache and the
    effect. *)
Definition passOnly (e : Ev) : Prop :=
  isOnDraw e = false /\ isGetProgram e = false.

Ltac flat_step tp w :=
  cbn [fst snd context events negb];
  match goal with
  | |- context [getTexture tp] =>
      let t := fresh "t" in let E := fresh "Etex" in
      destruct (getTexture tp) as [t|] eqn:E
  | |- context [isFlat ?t] =>
      let E := fresh "Eflat" in destruct (isFlat t) eqn:E
  | |- context [backing (context w) ?rt] =>
      let E := fresh "Ealloc" in destruct (backing (context w) rt) eqn:E
  | |- context [begin ?rt] =>
      let E := fresh "Ebegin" in destruct (begin rt) eqn:E
  | |- context [TextureEffect_Make tp] =>
      let cp := fresh "cp" in let E := fresh "Emake" in
      destruct (TextureEffect_Make tp) as [cp|] eqn:E
  end.

Ltac flat_paths tp w :=
  unfold flat, GetFlatTexture, inContext, MakeFallback, emit;
  repeat flat_step tp w;
  cbn [fst snd context events negb];
  rewrite <- ?app_assoc; cbn [app].

Lemma GetFlatTexture_events (tp : TextureProxy) (w : W) :
  exists es, events (snd (flat tp w)) = events w ++ es /\
             Forall passOnly es.
Proof.
  flat_paths tp w;
    first [ exists []; split; [now rewrite app_nil_r | apply Forall_nil_2]
          | eexists; split; [reflexivity|];
            repeat (apply Forall_cons_2; [split; reflexivity|]); apply Forall_nil_2 ].
Qed.

Lemma flattenInputs_spec (ins : list (option TextureProxy)) (acc : list Texture) (w : W) :
  (exists es, events (snd (flatten ins acc w)) = events w ++ es /\
              Forall passOnly es) /\
  (forall ts, fst (flatten ins acc w) = Some ts ->
     exists new, ts = acc ++ new /\ length new = length ins /\
                 Forall (fun i => i <> None) ins) /\
  (In None ins -> fst (flatten ins acc w) = None).
Proof.
  revert acc w. induction ins as [|input rest IH]; intros acc w.
  - cbn. split; [exists []; split; [now rewrite app_nil_r | apply Forall_nil_2]|].
    split; [|intros []]. intros ts H. injection H as <-. exists [].
    split; [now rewrite app_nil_r|]. split; [reflexivity | apply Forall_nil_2].
  - unfold flatten. cbn [flattenInputs]. fold flatten.
    destruct input as [proxy|].
    + fold (flat proxy w).
      destruct (GetFlatTexture_events proxy w) as (es1 & He1 & Hp1).
      destruct (flat proxy w) as [[t|] w1] eqn:Eflat; cbn [snd] in He1.
      * destruct (IH (acc ++ [t]) w1) as ((es2 & He2 & Hp2) & Hts & Hnull).
        split; [|split].
        -- exists (es1 ++ es2). rewrite He2, He1, app_assoc. split; [reflexivity|].
           apply Forall_app. now split.
        -- intros ts H. destruct (Hts ts H) as (new & -> & Hlen & Hall).
           exists (t :: new). rewrite <- app_assoc. split; [reflexivity|].
           split; [cbn; now rewrite Hlen|]. apply Forall_cons_2; [discriminate | exact Hall].
        -- intros [H|H]; [discriminate H|]. now apply Hnull.
      * cbn [fst snd]. split; [|split].
        -- exists es1. now split.
        -- intros ts H. discriminate H.
        -- reflexivity.
    + cbn [fst snd]. split; [|split].
      * exists []. split; [now rewrite app_nil_r | apply Forall_nil_2].
      * intros ts H. discriminate H.
      * reflexivity.
Qed.

Definition cacheOrEffect (e : Ev) : bool := isOnDraw e || isGetProgram e.

Lemma passOnly_filter (es : list Ev) :
  Forall passOnly es -> List.filter cacheOrEffect es = [].
Proof.
  induction 1 as [|e es [H1 H2] _ IH]; [reflexivity|].
  cbn [List.filter]. unfold cacheOrEffect at 1. now rewrite H1, H2.
Qed.

(** X24. When [GetFlatTexture] returns a texture, it is either the texture
    of the proxy itself, which is then flat (not YUV, a 2D sampler, origin
    top-left) and nothing was allocated or drawn; or the texture of a
    render target that was allocated for it with the width, height,
    alpha-only and mipmap state of the texture of the proxy, one sample,
    origin top-left and exact fit, and into which one render pass, begun
    and ended, drew one triangle strip of four vertices. *)
Theorem GetFlatTexture_outcomes (tp : TextureProxy) (w : W) (t : Texture) :
  fst (flat tp w) = Some t ->
  (getTexture tp = Some t /\ isFlat t = true /\ snd (flat tp w) = w) \/
  (exists t0 rtp cp,
     getTexture tp = Some t0 /\ isFlat t0 = false /\
     requests (context (snd (flat tp w))) = requests (context w) ++ [(rtp, true)] /\
     sizeOfTarget rtp = (textureWidth t0, textureHeight t0) /\
     rtAlphaOnly rtp = isAlphaOnly t0 /\ rtMipmapped rtp = hasMipmaps t0 /\
     rtSampleCount rtp = 1 /\ rtOrigin rtp = TopLeft /\ rtBackingFit rtp = Exact /\
     TextureEffect_Make tp = Some cp /\
     emitted (flat tp) w
       = [Begin (getRenderTarget rtp); BindProgramAndScissorClip cp; BindBuffers;
          DrawTriangleStrip 0 4; End_] /\
     asTexture (getRenderTarget rtp) = Some t).
Proof.
  unfold emitted. flat_paths tp w; intros H; try discriminate H;
    try (injection H as <-; first [congruence | left; repeat split; reflexivity]);
    right; do 3 eexists; rewrite drop_app_length;
    repeat split; try reflexivity; eassumption.
Qed.

(** X25. When [GetFlatTexture] returns null, the render pass was left
    alone, or it was begun and not ended (the colour processor could not
    be made), or the whole pass was drawn and the render target has no
    texture. *)
Theorem GetFlatTexture_failures (tp : TextureProxy) (w : W) :
  fst (flat tp w) = None ->
  emitted (flat tp) w = [] \/
  (exists rt, emitted (flat tp) w = [Begin rt] /\ begin rt = true /\
              TextureEffect_Make tp = None) \/
  (exists rt cp, emitted (flat tp) w
                 = [Begin rt; BindProgramAndScissorClip cp; BindBuffers;
                    DrawTriangleStrip 0 4; End_] /\
                 asTexture rt = None).
Proof.
  unfold emitted. flat_paths tp w; intros H; try discriminate H;
    rewrite ?drop_app_length, ?drop_all; eauto 6.
Qed.

Lemma flattenInputs_inOrder (ins : list (option TextureProxy)) (acc ts : list Texture)
    (w w1 : W) :
  flatten ins acc w = (Some ts, w1) ->
  exists new, ts = acc ++ new /\
              flattenedInOrder RenderTarget Processor Program BackendTexture
                BackendRenderTarget Point getTexture getRenderTarget begin
                TextureEffect_Make asTexture ins w new w1.
Proof.
  revert acc w. induction ins as [|input rest IH]; intros acc w.
  - cbn. intros [= <- <-]. exists []. split; [now rewrite app_nil_r | constructor].
  - unfold flatten. cbn [flattenInputs]. fold flatten.
    destruct input as [proxy|]; [|discriminate].
    fold (flat proxy w). destruct (flat proxy w) as [[t|] w0] eqn:Eflat; [|discriminate].
    intros H. destruct (IH _ _ H) as (new & -> & Hin).
    exists (t :: new). rewrite <- app_assoc. split; [reflexivity|].
    econstructor; [exact Eflat | exact Hin].
Qed.

(** X26. When [execute] returns true, every input was there and the
    inputs were flattened one after the other in their order, each by
    [GetFlatTexture] in the world the ones before it had left; after
    that, and after nothing else, the program cache was asked once and
    the effect's [onDraw] was called once, with the program of the cache,
    the backend textures of the flattened textures in the order of the
    inputs, the backend render target of the task's render target and the
    task's offset; and [onDraw] returned true. *)
Theorem execute_draws_once (task : RuntimeDrawTask Point) (w : W) :
  fst (exec task w) = true ->
  exists textures w1 program rt,
    flattenedInOrder RenderTarget Processor Program BackendTexture
      BackendRenderTarget Point getTexture getRenderTarget begin
      TextureEffect_Make asTexture (inputs task) w textures w1 /\
    length textures = length (inputs task) /\
    getRenderTarget (renderTargetProxy task) = Some rt /\
    getProgram = Some program /\
    context (snd (exec task w)) = context w1 /\
    events (snd (exec task w))
      = events w1 ++
        [GetProgram;
         OnDraw program (map getBackendTexture textures) (getBackendRenderTarget rt)
                (offset task)] /\
    onDraw program (map getBackendTexture textures) (getBackendRenderTarget rt)
           (offset task) = true.
Proof.
  unfold exec, execute. fold flatten.
  destruct (flattenInputs_spec (inputs task) [] w) as (_ & Hts & _).
  destruct (flatten (inputs task) [] w) as [[ts|] w1] eqn:Ef; cbn [fst snd] in *;
    [|discriminate].
  destruct (Hts ts eq_refl) as (new' & Hnew' & Hlen & _).
  destruct (flattenInputs_inOrder _ _ _ _ _ Ef) as (new & -> & Hin).
  cbn [app] in *. subst new'.
  destruct (getRenderTarget (renderTargetProxy task)) as [rt|]; [|discriminate].
  unfold emit. cbn [fst snd events context].
  destruct getProgram as [program|]; cbn [fst snd events context]; [|discriminate].
  intros Hdraw. exists new, w1, program, rt.
  rewrite <- !app_assoc. repeat split; try assumption; reflexivity.
Qed.


End Task.

Import RuntimeScenario.

(** A bottom-left texture is drawn into a new 64 x 32 target. *)
Lemma GetFlatTexture_outcomes_witness :
  exists t,
    fst (GetFlatTexture (proxy 1) world) = Some t /\
    textureId t = 100%nat /\ textureOrigin t = TopLeft /\
    length (emitted (GetFlatTexture (proxy 1)) world) = 5%nat.
Proof.
  eexists. split; [reflexivity|]. split; [reflexivity|]. split; [reflexivity|].
  destruct (GetFlatTexture_outcomes RenderTargetProxy TextureProxy nat nat nat unit
              getTexture getRenderTarget begin TextureEffect_Make asTexture
              (proxy 1) world _ eq_refl) as [(Hget & _)|(t0 & rtp & cp & H)].
  - cbv in Hget. discriminate Hget.
  - destruct H as (_ & _ & _ & _ & _ & _ & _ & _ & _ & _ & He & _).
    unfold GetFlatTexture. now rewrite He.
Defined.

(** The same texture when no colour processor can be made: the pass is
    begun and not ended. *)
Lemma GetFlatTexture_failures_witness :
  let flat := RuntimeDraw.GetFlatTexture RenderTargetProxy TextureProxy nat nat nat unit
                getTexture getRenderTarget begin (fun _ => None) asTexture in
  fst (flat (proxy 1) world) = None /\
  length (emitted (flat (proxy 1)) world) = 1%nat.
Proof.
  cbv zeta. split; [reflexivity|].
  destruct (GetFlatTexture_failures RenderTargetProxy TextureProxy nat nat nat unit
              getTexture getRenderTarget begin (fun _ => None) asTexture
              (proxy 1) world eq_refl) as [H|[(rt & H & _)|(rt & cp & H & _)]];
    first [discriminate H | now rewrite H].
Defined.

(** Two inputs, the second of which has to be flattened: the effect is
    given the texture 0 of the first and the texture 100 of the render
    target that the second was drawn into. *)
Lemma execute_draws_once_witness :
  let task := {| renderTargetProxy := target;
                 inputs := [Some (proxy 0); Some (proxy 1)];
                 offset := tt |} in
  fst (execute task world) = true /\
  exists textures w1,
    flattenedInOrder RenderTargetProxy TextureProxy nat nat nat unit
      getTexture getRenderTarget begin TextureEffect_Make asTexture
      (inputs task) world textures w1 /\
    events (snd (execute task world))
      = events w1 ++ [GetProgram; OnDraw 7%nat (map getBackendTexture textures) 50%nat tt].
Proof.
  cbv zeta. split; [reflexivity|].
  destruct (execute_draws_once RenderTargetProxy TextureProxy nat nat nat unit
              getTexture getRenderTarget begin TextureEffect_Make asTexture
              getBackendTexture getBackendRenderTarget getProgram onDraw
              {| renderTargetProxy := target;
                 inputs := [Some (proxy 0); Some (proxy 1)];
                 offset := tt |} world eq_refl)
    as (textures & w1 & program & rt & Hin & _ & Hrt & Hprog & _ & Hev & _).
  injection Hrt as <-. injection Hprog as <-.
  exists textures, w1. split; [exact Hin | exact Hev].
Defined.


End RuntimeDrawProperties.
